(** * open_combind: feature caching pipeline and docking batch writer

    A shallow embedding of [open_combind/features/features.py] (class
    [Features]) and [open_combind/dock/dock.py] (function [dock]), with the
    properties of the feature store that the pipeline relies on.

    Layout:
    - [PyStr]    : the Python string and [os.path] operations the code uses;
    - [Py]       : exceptions and the state-and-exception monad;
    - [Features] : the [Features] class over a store of typed files;
    - [Dock]     : [dock.py] over a file system of text files and directories;
    - [Examples] : concrete stores, instances and tools;
    - [PyFacts], [FeaturesSpec], [DockSpec] : the theorems;
    - [StrFacts], [FeaturesProps], [DockProps] : the self-comparison and
      further properties of the code. *)

From Stdlib Require Import ZArith Ascii String DecimalString.
From stdpp Require Import base option list gmap strings sorting.
From Stdlib Require Import DecimalNat.

Local Open Scope string_scope.

(* ===================================================================== *)
(** * Python strings *)
(* ===================================================================== *)

Module PyStr.

(** [old in s] for strings: some suffix of [s] starts with [old]. *)
Fixpoint contains (sub s : string) : bool :=
  match s with
  | EmptyString => String.prefix sub EmptyString
  | String _ s' => String.prefix sub s || contains sub s'
  end.

(** [s.replace(old, new)]: every non-overlapping occurrence of [old], scanning
    from the left.  [skip] counts the characters of a matched occurrence that
    are still to be dropped. *)
Fixpoint replace_go (old new : string) (skip : nat) (s : string) : string :=
  match s with
  | EmptyString => EmptyString
  | String c s' =>
      match skip with
      | S k => replace_go old new k s'
      | O =>
          if String.prefix old s
          then new ++ replace_go old new (String.length old - 1) s'
          else String c (replace_go old new O s')
      end
  end.

(** With an empty [old], Python puts [new] before every character and at
    the end. *)
Fixpoint replace_empty (new s : string) : string :=
  match s with
  | EmptyString => new
  | String c s' => new ++ String c (replace_empty new s')
  end.

Definition replace (old new s : string) : string :=
  match old with
  | EmptyString => replace_empty new s
  | _ => replace_go old new 0 s
  end.

(** [s.split(sep)] for a non-empty separator: the pieces between the
    occurrences of [sep]; never an empty list. *)
Fixpoint split_go (sep : string) (skip : nat) (cur : string) (s : string)
  : list string :=
  match s with
  | EmptyString => [cur]
  | String c s' =>
      match skip with
      | S k => split_go sep k cur s'
      | O =>
          if String.prefix sep s
          then cur :: split_go sep (String.length sep - 1) EmptyString s'
          else split_go sep O (cur ++ String c EmptyString) s'
      end
  end.

Definition split (sep s : string) : list string := split_go sep 0 "" s.

(** Python's white space on the characters of a byte string. *)
Definition isspace (c : ascii) : bool :=
  let n := nat_of_ascii c in
  (Nat.leb 9 n && Nat.leb n 13) || (Nat.leb 28 n && Nat.leb n 32).

(** [s.split()]: the maximal runs of characters that are not white space. *)
Fixpoint split_ws_go (cur : option string) (s : string) : list string :=
  match s with
  | EmptyString => match cur with Some w => [w] | None => [] end
  | String c s' =>
      if isspace c
      then match cur with
           | Some w => w :: split_ws_go None s'
           | None => split_ws_go None s'
           end
      else split_ws_go (Some (default "" cur ++ String c EmptyString)) s'
  end.

Definition split_ws (s : string) : list string := split_ws_go None s.

(** [s.lstrip(chars)], [s.rstrip(chars)], [s.strip(chars)] with the set of
    characters given as a predicate. *)
Fixpoint lstrip (p : ascii → bool) (s : string) : string :=
  match s with
  | EmptyString => EmptyString
  | String c s' => if p c then lstrip p s' else s
  end.

Fixpoint rstrip (p : ascii → bool) (s : string) : string :=
  match s with
  | EmptyString => EmptyString
  | String c s' =>
      match rstrip p s' with
      | EmptyString => if p c then EmptyString else String c EmptyString
      | r => String c r
      end
  end.

Definition strip_with (p : ascii → bool) (s : string) : string :=
  rstrip p (lstrip p s).

(** [s.strip()] *)
Definition strip (s : string) : string := strip_with isspace s.

Definition is_newline (c : ascii) : bool := Ascii.eqb c "010"%char.

(** [s.strip('\n')] *)
Definition strip_nl (s : string) : string := strip_with is_newline s.

(** The line feed. *)
Definition nl : string := String "010"%char EmptyString.

(** [f.readlines()]: the lines of a text, each with its line feed.  Lines
    end at line feeds only, which is what reading in text mode gives for a
    text without carriage returns ([plain_text] below). *)
Fixpoint readlines_go (cur : string) (s : string) : list string :=
  match s with
  | EmptyString => match cur with EmptyString => [] | _ => [cur] end
  | String c s' =>
      if is_newline c then (cur ++ String c EmptyString) :: readlines_go EmptyString s'
      else readlines_go (cur ++ String c EmptyString) s'
  end.

Definition readlines (s : string) : list string := readlines_go "" s.

(** [s.endswith(suf)] *)
Fixpoint endswith (suf s : string) : bool :=
  String.eqb s suf
  || match s with
     | EmptyString => false
     | String _ s' => endswith suf s'
     end.

(** [l[-1]] and [l[0]] on the result of a split, which is never empty. *)
Definition last_piece (l : list string) : string := List.last l "".
Definition first_piece (l : list string) : string := List.hd "" l.

(** [os.path.basename(p)] and [os.path.split(p)[1]]: what follows the last
    slash. *)
Definition basename (p : string) : string := last_piece (split "/" p).

(** [os.path.splitext(p)[0]] for a [p] without slash: cut at the last dot,
    unless only dots come before it. *)
Fixpoint all_dots (s : string) : bool :=
  match s with
  | EmptyString => true
  | String c s' => Ascii.eqb c "."%char && all_dots s'
  end.

Definition splitext_root (p : string) : string :=
  match List.rev (split "." p) with
  | [] => p
  | _ext :: rev_front =>
      match rev_front with
      | [] => p
      | _ =>
          let front := String.concat "." (List.rev rev_front) in
          if all_dots front then p else front
      end
  end.

(** [str(n)] for a non-negative integer. *)
Definition str_of_nat (n : nat) : string :=
  NilZero.string_of_uint (Nat.to_uint n).

(** [str(z)] for an integer. *)
Definition str_of_Z (z : Z) : string :=
  NilZero.string_of_int (Z.to_int z).

(** [template.format(k1=v1, ...)] restricted to plain named fields: a field
    in braces is replaced by the keyword's value, a doubled brace is the
    escaped brace.
    [None] stands for the [KeyError] / [ValueError] Python raises on an
    unknown field or a single brace. *)
Fixpoint assoc (kw : list (string * string)) (key : string) : option string :=
  match kw with
  | [] => None
  | (k, v) :: kw' => if String.eqb k key then Some v else assoc kw' key
  end.

Fixpoint format_go (kw : list (string * string)) (field : option string)
    (s : string) : option string :=
  match s with
  | EmptyString => match field with None => Some EmptyString | Some _ => None end
  | String c s' =>
      match field with
      | Some f =>
          if Ascii.eqb c "}"%char
          then v ← assoc kw f;
               r ← format_go kw None s';
               Some (v ++ r)
          else format_go kw (Some (f ++ String c EmptyString)) s'
      | None =>
          if Ascii.eqb c "{"%char then
            match s' with
            | EmptyString => None
            | String c2 s'' =>
                if Ascii.eqb c2 "{"%char
                then r ← format_go kw None s''; Some (String c r)
                else format_go kw (Some EmptyString) s'
            end
          else if Ascii.eqb c "}"%char then
            match s' with
            | EmptyString => None
            | String c2 s'' =>
                if Ascii.eqb c2 "}"%char
                then r ← format_go kw None s''; Some (String c r)
                else None
            end
          else r ← format_go kw None s'; Some (String c r)
      end
  end.

Definition format (template : string) (kw : list (string * string))
  : option string := format_go kw None template.


(** [s[:-n]] for a positive [n]. *)
Definition drop_last (n : nat) (s : string) : string :=
  String.substring 0 (String.length s - n) s.

(** A text of white space only. *)
Fixpoint all_space (s : string) : bool :=
  match s with
  | EmptyString => true
  | String c s' => isspace c && all_space s'
  end.

(** A text that [strip] leaves as it is and that is not empty: it starts
    and ends with a character that is not white space. *)
Definition trimmed (s : string) : Prop :=
  s ≠ "" ∧ strip s = s.

(** The last white-space-separated word of a line: [r.split()[-1]]. *)
Definition last_word (r : string) : option string := last (split_ws r).

(** [p] is not empty and does not end with the character [c]. *)
Definition not_ending (c : ascii) (p : string) : Prop :=
  p ≠ "" ∧ ∀ q, p ≠ q ++ String c "".
(** A text of ASCII characters without a carriage return.  Read in text
    mode such a text comes back as it is: it decodes in every encoding that
    extends ASCII, and the translation of line ends changes nothing. *)
Fixpoint plain_text (s : string) : bool :=
  match s with
  | EmptyString => true
  | String c s' =>
      (nat_of_ascii c <? 128)%nat && negb (Ascii.eqb c "013"%char) && plain_text s'
  end.
End PyStr.


(* ===================================================================== *)
(** * Exceptions, and computations over a mutable world *)
(* ===================================================================== *)

Module Py.

(** The Python exceptions the two modules can raise. *)
Inductive exn :=
| AttributeError      (* attribute lookup on an object that lacks it *)
| KeyError            (* missing dictionary key or molecule property *)
| TypeError
| IndexError
| ValueError
| AssertionError
| FileNotFoundError
| OSError             (* reading a directory as a file *)
| ToolError.          (* a failing external process or callable *)

Inductive result (A : Type) :=
| Ok (a : A)
| Raise (e : exn).
Arguments Ok {A} a.
Arguments Raise {A} e.

Definition is_ok {A} (r : result A) : bool :=
  match r with Ok _ => true | Raise _ => false end.

#[global] Instance result_ret : MRet result := @Ok.
#[global] Instance result_bind : MBind result := λ A B f r,
  match r with Ok a => f a | Raise e => Raise e end.

#[global] Instance result_fmap : FMap result := λ A B f r,
  match r with Ok a => Ok (f a) | Raise e => Raise e end.

(** [o] or else raise [e]. *)
Definition or_raise {A} (e : exn) (o : option A) : result A :=
  match o with Some a => Ok a | None => Raise e end.

(** A computation that mutates a world [W]: the world it leaves behind is
    kept when an exception is raised, as in Python. *)
Definition M (W A : Type) : Type := W → W * result A.

#[global] Instance M_ret {W} : MRet (M W) := λ A a w, (w, Ok a).
#[global] Instance M_bind {W} : MBind (M W) := λ A B f m w,
  match m w with
  | (w', Ok a) => f a w'
  | (w', Raise e) => (w', Raise e)
  end.

Definition lift {W A} (r : result A) : M W A := λ w, (w, r).

(** [if b: m] and [if not b: m] *)
Definition when_ {W} (b : bool) (m : M W unit) : M W unit :=
  if b then m else mret tt.
Definition when_not {W} (b : bool) (m : M W unit) : M W unit :=
  if b then mret tt else m.

Definition gets {W A} (f : W → A) : M W A := λ w, (w, Ok (f w)).
Definition modify {W} (f : W → W) : M W unit := λ w, (f w, Ok tt).

(** [for x in xs: acc = step(acc, x)], stopping at the first exception. *)
Fixpoint fold_result {A B} (step : B → A → result B) (xs : list A) (acc : B)
  : result B :=
  match xs with
  | [] => Ok acc
  | x :: xs' => step acc x ≫= fold_result step xs'
  end.

(** [for x in xs: body(x)] *)
Fixpoint for_each {W A} (xs : list A) (body : A → M W unit) : M W unit :=
  match xs with
  | [] => mret tt
  | x :: xs' => body x ≫= λ _, for_each xs' body
  end.

(** [try: m  except: handler]: a bare [except] catches every exception. *)
Definition try_except {W A} (m : M W A) (handler : M W A) : M W A := λ w,
  match m w with
  | (w', Ok a) => (w', Ok a)
  | (w', Raise _) => handler w'
  end.

End Py.

(* ===================================================================== *)
(** * features/features.py *)
(* ===================================================================== *)

Module Features.
Import Py PyStr.

Section Model.

(** Python floats are only parsed, stored and copied by this module, never
    computed with: their type and the parser [float(s)] are parameters. *)
Context {float : Type}.
Variable float_of_string : string → option float.

(** ** Data *)

(** An array element: a Python [int] or [float]. *)
Inductive num :=
| NInt (z : Z)
| NFloat (x : float).

(** A two-dimensional array, with its shape. *)
Record matrix := Matrix {
  nrows : nat;
  ncols : nat;
  cell : nat → nat → num;
}.

(** [m.T] *)
Definition transpose (m : matrix) : matrix :=
  {| nrows := ncols m; ncols := nrows m; cell := λ i j, cell m j i |}.

(** The arrays [np.save] and [np.load] exchange with the store. *)
Inductive ndarray :=
| Arr1 (a : list num)        (* one-dimensional, numeric *)
| ArrS (a : list string)     (* one-dimensional, strings *)
| Arr2 (m : matrix).         (* two-dimensional, numeric *)

(** One structure of an SD file: its properties ([_Name] is the title line)
    and its geometry block. *)
Record pose := Pose {
  props : gmap string string;
  molblock : string;
}.

(** [st.GetProp(key)].  Every structure of a source is taken to be
    readable: a supplier that yields [None] is outside the model. *)
Definition GetProp (st : pose) (key : string) : result string :=
  or_raise KeyError (props st !! key).

(** One row of a fingerprint table: the [pose] column and the other cells. *)
Record ifp_row := IfpRow {
  row_pose : Z;
  row_cells : list string;
}.

(** A file of the store. *)
Inductive file :=
| Npy (a : ndarray)
| Csv (t : list ifp_row)
| SdfGz (sts : list pose).

(** What happens during a call, in order: lines printed, arrays saved, and
    the feature computations that were started. *)
Inductive event :=
| Printed (line : string)
| Saved (out : string) (a : ndarray)
| CallGscore (pv out : string)
| CallName (pv out : string)
| CallRmsd (pv out : string)
| CallIfp (pv out : string)
| CallIfpPair (ifps1 ifps2 : list (list ifp_row)) (feature out : string)
| CallShape (poses1 poses2 : list pose) (out : string)
| CallMcss (poses1 poses2 : list pose) (out : string).

Definition is_call (e : event) : bool :=
  match e with
  | Printed _ | Saved _ _ => false
  | _ => true
  end.

(** The world: the files on disk and the trace of events. *)
Record world := World {
  fs : gmap string file;
  trace : list event;
}.

Definition emit (e : event) : M world unit :=
  modify (λ w, {| fs := fs w; trace := (trace w ++ [e])%list |}).

Definition print (line : string) : M world unit := emit (Printed line).

(** [os.path.exists(p)] *)
Definition exists_ (p : string) : M world bool :=
  gets (λ w, bool_decide (is_Some (fs w !! p))).

(** [np.save(out, a)]: numpy appends [.npy] to a file name that lacks it. *)
Definition npy_name (out : string) : string :=
  if endswith ".npy" out then out else out ++ ".npy".

Definition np_save (out : string) (a : ndarray) : M world unit :=
  modify (λ w, {| fs := <[npy_name out := Npy a]> (fs w); trace := trace w |})
  ≫= λ _, emit (Saved out a).

(** [np.load(p)] *)
Definition np_load (store : gmap string file) (p : string) : result ndarray :=
  match store !! p with
  | None => Raise FileNotFoundError
  | Some (Npy a) => Ok a
  | Some _ => Raise ValueError
  end.

(** The one-dimensional numeric and string arrays the loader expects, as
    [compute_single_features] saves them.  The loader does not test the
    kind; an array of another kind is outside the model, which refuses
    it. *)
Definition as_nums (a : ndarray) : result (list num) :=
  match a with Arr1 l => Ok l | _ => Raise TypeError end.
Definition as_strs (a : ndarray) : result (list string) :=
  match a with ArrS l => Ok l | _ => Raise TypeError end.

(** [pd.read_csv(p)] *)
Definition read_csv (store : gmap string file) (p : string)
  : result (list ifp_row) :=
  match store !! p with
  | None => Raise FileNotFoundError
  | Some (Csv t) => Ok t
  | Some _ => Raise ValueError
  end.

(** [[st for st in Chem.ForwardSDMolSupplier(gzip.open(pv))]] *)
Definition read_sdf (store : gmap string file) (pv : string)
  : result (list pose) :=
  match store !! pv with
  | None => Raise FileNotFoundError
  | Some (SdfGz sts) => Ok sts
  | Some _ => Raise ValueError
  end.

(** [a[idx]] with a list of integer positions: [IndexError] out of range. *)
Definition take_at {A} (a : list A) (idx : list nat) : result (list A) :=
  mapM (λ i, or_raise IndexError (a !! i)) idx.

(** [a[mask]] with a boolean array: the shapes must agree. *)
Fixpoint select {A} (a : list A) (mask : list bool) : list A :=
  match a, mask with
  | x :: a', b :: mask' => if b then x :: select a' mask' else select a' mask'
  | _, _ => []
  end.

Definition mask_1d {A} (a : list A) (mask : list bool) : result (list A) :=
  if Nat.eqb (length mask) (length a) then Ok (select a mask)
  else Raise IndexError.

(** The positions a boolean mask selects. *)
Definition mask_positions (mask : list bool) : list nat :=
  select (seq 0 (length mask)) mask.

(** [m[mask1, :][:, mask2]] *)
Definition mask_2d (m : matrix) (mask1 mask2 : list bool) : result matrix :=
  if negb (Nat.eqb (length mask1) (nrows m)) then Raise IndexError
  else if negb (Nat.eqb (length mask2) (ncols m)) then Raise IndexError
  else
    let rows := mask_positions mask1 in
    let cols := mask_positions mask2 in
    Ok {| nrows := length rows; ncols := length cols;
          cell := λ i j, cell m (nth i rows 0) (nth j cols 0) |}.

(** [sum(names == x)]: how many entries equal [x]. *)
Definition count_eq (names : list string) (x : string) : nat :=
  length (filter (λ y, y = x) names).

(** ** The class *)

(** The table [IFP] of fingerprint settings, keyed by version. *)
Definition ifp_settings := list (string * string).

Definition IFP : gmap string ifp_settings :=
  {[ "rd1" := [ ("version", "rd1"); ("level", "residue");
                ("hbond_dist_opt", "2.5"); ("hbond_dist_cut", "3.0");
                ("hbond_angle_opt", "60.0"); ("hbond_angle_cut", "90.0");
                ("sb_dist_opt", "4.0"); ("sb_dist_cut", "5.0");
                ("contact_scale_opt", "1.25"); ("contact_scale_cut", "1.75") ] ]}.

(** An instance.  [pv_root] is [None] while the attribute does not exist. *)
Record Features := {
  root : string;
  pv_root : option string;
  ifp_version : string;
  shape_version : string;
  mcss_version : string;
  mcss_file : string;
  max_poses : Z;
  ifp_features : list string;
  raw : gmap string ndarray;
}.

(** [os.path.abspath] and [os.environ]. *)
Variable abspath : string → string.
Variable environ : gmap string string.

(** [Features.__init__]; the defaults are [default_init] below. *)
Definition init (root_arg ifp_version_arg shape_version_arg mcss_version_arg : string)
    (max_poses_arg : Z) (pv_root_arg : option string)
    (ifp_features_arg : list string) : result Features :=
  let root := abspath root_arg in
  let pv_root :=
    match pv_root_arg with
    | None => Some (root ++ "/docking")
    | Some _ => None
    end in
  home ← or_raise KeyError (environ !! "COMBINDHOME");
  Ok {| root := root;
        pv_root := pv_root;
        ifp_version := ifp_version_arg;
        shape_version := shape_version_arg;
        mcss_version := mcss_version_arg;
        mcss_file := home ++ "/features/" ++ mcss_version_arg ++ ".typ";
        max_poses := max_poses_arg;
        ifp_features := ifp_features_arg;
        raw := ∅ |}.

Definition default_init (root_arg : string) (pv_root_arg : option string)
  : result Features :=
  init root_arg "rd1" "pharm_max" "mcss16" 10000 pv_root_arg
       ["hbond"; "saltbridge"; "contact"].

(** [Features.path] *)
Definition path (self : Features) (name : string) (base : bool)
    (pv pv2 : option string)
  : result string :=
  if base then Ok (root self ++ "/" ++ name)
  else
    pvr ← or_raise AttributeError (pv_root self);
    (* [pv.replace(self.pv_root)] lacks an argument *)
    _ ← (if bool_decide (pvr ≠ root self ++ "/docking")
         then (if bool_decide (is_Some pv) then Raise TypeError
               else if bool_decide (is_Some pv2) then Raise TypeError
               else Ok tt)
         else Ok tt);
    if bool_decide (name = "rmsd") then
      p ← or_raise AttributeError pv; Ok (replace ".sdf.gz" "_rmsd.npy" p)
    else if bool_decide (name = "gscore") then
      p ← or_raise AttributeError pv; Ok (replace ".sdf.gz" "_gscore.npy" p)
    else if bool_decide (name = "name") then
      p ← or_raise AttributeError pv; Ok (replace ".sdf.gz" "_name.npy" p)
    else if bool_decide (name = "ifp") then
      let suffix := "_ifp_" ++ ifp_version self ++ ".csv" in
      p ← or_raise AttributeError pv; Ok (replace ".sdf.gz" suffix p)
    else if bool_decide (name = "shape") then Ok (root self ++ "/shape.npy")
    else if bool_decide (name = "mcss") then Ok (root self ++ "/mcss.npy")
    else Ok (root self ++ "/" ++ name ++ ".npy").

(** [self.path(name, pv=pv)] and [self.path(name)] *)
Definition path_pv (self : Features) (name pv : string) : result string :=
  path self name false (Some pv) None.
Definition path_of (self : Features) (name : string) : result string :=
  path self name false None None.

(** ** Feature View *)

(** A Python dictionary of the view: keyed by ligand, or by pair of
    ligands. *)
Record view_dict := ViewDict {
  by_ligand : gmap string ndarray;
  by_pair : gmap (string * string) matrix;
}.

Definition empty_dict : view_dict := {| by_ligand := ∅; by_pair := ∅ |}.

(** [d[ligand] = a] and [d[(ligand1, ligand2)] = m] *)
Definition set_ligand (ligand : string) (a : ndarray) (d : view_dict) : view_dict :=
  {| by_ligand := <[ligand := a]> (by_ligand d); by_pair := by_pair d |}.
Definition set_pair (key : string * string) (m : matrix) (d : view_dict) : view_dict :=
  {| by_ligand := by_ligand d; by_pair := <[key := m]> (by_pair d) |}.

(** [self.raw[key]] *)
Definition raw_get (self : Features) (key : string) : result ndarray :=
  or_raise KeyError (raw self !! key).

(** [self.raw['name1'] == ligand] *)
Definition name_mask (self : Features) (ligand : string)
  : result (list bool) :=
  name1 ← raw_get self "name1";
  names ← as_strs name1;
  Ok (map (λ n, bool_decide (n = ligand)) names).

(** [sum(mask)] *)
Definition mask_sum (mask : list bool) : nat := length (filter (λ b, b = true) mask).

(** [a[mask]] on an array of any kind; on a matrix the mask selects rows. *)
Definition mask_array (a : ndarray) (mask : list bool) : result ndarray :=
  match a with
  | Arr1 l => Arr1 <$> mask_1d l mask
  | ArrS l => ArrS <$> mask_1d l mask
  | Arr2 m =>
      if Nat.eqb (length mask) (nrows m)
      then let rows := mask_positions mask in
           Ok (Arr2 {| nrows := length rows; ncols := ncols m;
                       cell := λ i j, cell m (nth i rows 0) j |})
      else Raise IndexError
  end.

(** [[(l1, l2) for i, l1 in enumerate(ligands) for l2 in ligands[i+1:]]] *)
Fixpoint later_pairs (ligands : list string) : list (string * string) :=
  match ligands with
  | [] => []
  | l1 :: rest => (map (pair l1) rest ++ later_pairs rest)%list
  end.

(** The body of the first loop of [get_view]. *)
Definition view_ligand (self : Features) (data : gmap string view_dict)
    (ligand : string)
  : result (gmap string view_dict) :=
  mask ← name_mask self ligand;
  _ ← (if Nat.eqb (mask_sum mask) 0 then Raise AssertionError else Ok tt);
  g1 ← raw_get self "gscore1";
  g ← mask_array g1 mask;
  let data := alter (set_ligand ligand g) "gscore" data in
  r1 ← raw_get self "rmsd1";
  r ← mask_array r1 mask;
  Ok (alter (set_ligand ligand r) "rmsd" data).

(** The body of the innermost loop of [get_view]. *)
Definition view_pair (self : Features) (feature : string)
    (data : gmap string view_dict)
    (key : string * string) : result (gmap string view_dict) :=
  mask1 ← name_mask self key.1;
  mask2 ← name_mask self key.2;
  a ← raw_get self feature;
  m ← (match a with Arr2 m => Ok m | _ => Raise IndexError end);
  block ← mask_2d m mask1 mask2;
  Ok (alter (set_pair key block) feature data).

Definition view_feature (self : Features) (ligands : list string)
    (data : gmap string view_dict) (feature : string)
  : result (gmap string view_dict) :=
  fold_result (view_pair self feature) (later_pairs ligands)
              (<[feature := empty_dict]> data).

(** [Features.get_view] *)
Definition get_view (self : Features) (ligands features : list string)
  : result (gmap string view_dict) :=
  let data : gmap string view_dict := ∅ in
  let data := <["gscore" := empty_dict]> data in
  let data := <["rmsd" := empty_dict]> data in
  data ← fold_result (view_ligand self) ligands data;
  fold_result (view_feature self ligands) features data.

(** ** Pose Loader *)

(** What [load_single_features] returns, in its order. *)
Record loaded := Loaded {
  l_rmsds : list num;
  l_gscores : list num;
  l_poses : list pose;
  l_names : list string;
  l_ifps : list (list ifp_row);
}.

(** [[_ifps.loc[_ifps.pose==p] for p in range(max(_ifps.pose)+1)]] *)
Definition ifp_groups (t : list ifp_row) : result (list (list ifp_row)) :=
  match t with
  | [] => Raise ValueError
  | r :: t' =>
      let top := foldr Z.max (row_pose r) (row_pose <$> t') in
      Ok (map (λ p, filter (λ r, row_pose r = p) t) (seqZ 0 (top + 1)))
  end.

(** The test of the selection loop at position [i]. *)
Definition keep_test (self : Features) (names : list string)
    (ligands : option (list string)) (i : nat) : bool :=
  match names !! i with
  | None => false
  | Some n =>
      match ligands with
      | None => true
      | Some ls => bool_decide (n ∈ ls)
      end
      && bool_decide (Z.of_nat (count_eq (take i names) n) < max_poses self)%Z
  end.

(** [keep = []; for i in range(len(_names)): if ...: keep += [i]] *)
Definition keep_indices (self : Features) (names : list string)
    (ligands : option (list string)) : list nat :=
  fold_left (λ keep i, if keep_test self names ligands i then (keep ++ [i])%list else keep)
            (seq 0 (length names)) [].

(** What one turn of the loop over [pvs] reads of a source, before the
    selection. *)
Record source := Source {
  s_rmsds : list num;
  s_gscores : list num;
  s_names : list string;
  s_ifps : list (list ifp_row);
  s_poses : list pose;
}.

Definition read_source (self : Features) (store : gmap string file)
    (pv : string) : result source :=
  _rmsds ← (p ← path_pv self "rmsd" pv; a ← np_load store p; as_nums a);
  _gscores ← (p ← path_pv self "gscore" pv; a ← np_load store p; as_nums a);
  _names ← (p ← path_pv self "name" pv; a ← np_load store p; as_strs a);
  _ifps ← (p ← path_pv self "ifp" pv; t ← read_csv store p; ifp_groups t);
  _poses ← read_sdf store pv;
  Ok {| s_rmsds := _rmsds; s_gscores := _gscores; s_names := _names;
        s_ifps := _ifps; s_poses := _poses |}.

(** The selection of one turn: the entries at the positions of [keep]. *)
Definition select_source (self : Features) (ligands : option (list string))
    (src : source) : result loaded :=
  let keep := keep_indices self (s_names src) ligands in
  rmsds ← take_at (s_rmsds src) keep;
  gscores ← take_at (s_gscores src) keep;
  names ← take_at (s_names src) keep;
  poses ← take_at (s_poses src) keep;
  ifps ← take_at (s_ifps src) keep;
  Ok {| l_rmsds := rmsds; l_gscores := gscores; l_poses := poses;
        l_names := names; l_ifps := ifps |}.

(** One turn of the loop over [pvs]. *)
Definition load_source (self : Features) (store : gmap string file)
    (ligands : option (list string)) (pv : string) : result loaded :=
  src ← read_source self store pv;
  select_source self ligands src.

(** [np.hstack(arrays)]: refuses an empty list of arrays.  The elements are
    kept as they are; numpy's promotion of mixed integers and floats to
    floats is not modelled. *)
Definition hstack {A} (arrays : list (list A)) : result (list A) :=
  match arrays with
  | [] => Raise ValueError
  | _ => Ok (concat arrays)
  end.

(** [Features.load_single_features] *)
Definition load_single_features (self : Features) (store : gmap string file)
    (pvs : list string) (ligands : option (list string)) : result loaded :=
  parts ← mapM (load_source self store ligands) pvs;
  rmsds ← hstack (l_rmsds <$> parts);
  names ← hstack (l_names <$> parts);
  gscores ← hstack (l_gscores <$> parts);
  Ok {| l_rmsds := rmsds; l_gscores := gscores;
        l_poses := concat (l_poses <$> parts);
        l_names := names;
        l_ifps := concat (l_ifps <$> parts) |}.

(** ** External collaborators *)

(** [plumbum]'s [obrms[native, pv, '--firstonly']()]: the standard output of
    the geometry-comparison tool, or the exception of a failed run. *)
Variable obrms : gmap string file → string → string → result string.

(** The rows the fingerprint engine computes for the poses of a source. *)
Variable ifp_rows : ifp_settings → list pose → Z → list ifp_row.

(** The similarity providers of [features.ifp_similarity], [features.shape]
    and [features.mcss], single-process and multiprocess. *)
Variable ifp_tanimoto :
  list (list ifp_row) → list (list ifp_row) → string → result matrix.
Variable ifp_tanimoto_mp :
  list (list ifp_row) → list (list ifp_row) → string → Z → result matrix.
Variable shape : list pose → list pose → string → result matrix.
Variable mcss : list pose → list pose → string → result matrix.
Variable mcss_mp : list pose → list pose → string → Z → result matrix.

(** [utils.mkdir(path)].  The store holds files only and directories are
    implicit in their paths, so creating one leaves the world as it is. *)
Definition mkdir (p : string) : M world unit := mret tt.

(** Run a reader of the store. *)
Definition read {A} (f : gmap string file → result A) : M world A :=
  λ w, (w, f (fs w)).

(** ** Methods to calculate features *)

(** The loop of [compute_name] over [enumerate(sts)]. *)
Fixpoint name_loop (self : Features) (docked_to : string)
    (sts : list (nat * pose)) (names : list string) : result (list string) :=
  match sts with
  | [] => Ok names
  | (idx, st) :: rest =>
      n ← GetProp st "_Name";
      let entry := n ++ "_" ++ str_of_nat idx ++ "-to-" ++ docked_to in
      let names := (names ++ [entry])%list in
      if bool_decide (Z.of_nat (length names) = max_poses self) then Ok names
      else name_loop self docked_to rest names
  end.

(** [pv]'s file name up to its first dot, and what follows its last
    [-to-]. *)
Definition docked_to_of (pv : string) : string :=
  let docked_fname := first_piece (split "." (basename pv)) in
  last_piece (split "-to-" docked_fname).

(** [Features.compute_name] *)
Definition compute_name (self : Features) (pv out : string) : M world unit :=
  _ ← emit (CallName pv out);
  sts ← read (λ store, read_sdf store pv);
  names ← lift (name_loop self (docked_to_of pv) (imap pair sts) []);
  np_save out (ArrS names).

(** The loop of [compute_gscore]. *)
Fixpoint gscore_loop (self : Features) (sts : list pose) (gscores : list num)
  : result (list num) :=
  match sts with
  | [] => Ok gscores
  | st :: rest =>
      v ← GetProp st "CNNaffinity";
      x ← or_raise ValueError (float_of_string v);
      let gscores := (gscores ++ [NFloat x])%list in
      if bool_decide (Z.of_nat (length gscores) = max_poses self) then Ok gscores
      else gscore_loop self rest gscores
  end.

(** [Features.compute_gscore] *)
Definition compute_gscore (self : Features) (pv out : string)
  : M world unit :=
  _ ← emit (CallGscore pv out);
  sts ← read (λ store, read_sdf store pv);
  gscores ← lift (gscore_loop self sts []);
  np_save out (Arr1 gscores).

(** [[float(r.split()[-1]) for r in obrms_out.strip().split('\n')]] *)
Definition parse_rmsds (obrms_out : string) : result (list num) :=
  let messy_rmsds := split nl (strip obrms_out) in
  mapM (λ r, tok ← or_raise IndexError (last (split_ws r));
             x ← or_raise ValueError (float_of_string tok);
             Ok (NFloat x))
       messy_rmsds.

(** The ligand name [compute_rmsd] reads off the file name. *)
Definition rmsd_name (pv : string) : string :=
  first_piece (split "-" (last_piece (split "/" pv))).

(** [Features.compute_rmsd] *)
Definition compute_rmsd (self : Features) (pv : string)
    (native_poses : gmap string string) (out : string) : M world unit :=
  _ ← emit (CallRmsd pv out);
  let rmsds : list num := [] in
  let name := rmsd_name pv in
  _ ← print name;
  rmsds ← match native_poses !! name with
          | Some native =>
              try_except
                (obrms_out ← read (λ store, obrms store native pv);
                 lift (parse_rmsds obrms_out))
                (_ ← print ("RMSD failed for " ++ name); mret rmsds)
          | None =>
              _ ← print name;
              mret (replicate (Z.to_nat (max_poses self)) (NInt (-1)))
          end;
  np_save out (Arr1 rmsds).

(** Modelled from the spec: the fingerprint engine [features.ifp.ifp], which
    is not part of the sources at hand.  It takes the settings record, the
    pose-source path, the output path and the pose cap, and produces the
    fingerprint table as a file at the output path. *)
Definition ifp (settings : ifp_settings) (pv out : string) (cap : Z)
  : M world unit :=
  sts ← read (λ store, read_sdf store pv);
  modify (λ w, {| fs := <[out := Csv (ifp_rows settings sts cap)]> (fs w);
                  trace := trace w |}).

(** [Features.compute_ifp] *)
Definition compute_ifp (self : Features) (pv out : string) : M world unit :=
  _ ← emit (CallIfp pv out);
  settings ← lift (or_raise KeyError (IFP !! ifp_version self));
  ifp settings pv out (max_poses self).

(** [Features.compute_ifp_pair] *)
Definition compute_ifp_pair (ifps1 ifps2 : list (list ifp_row))
    (feature out : string) (processes : Z) : M world unit :=
  _ ← emit (CallIfpPair ifps1 ifps2 feature out);
  tanimotos ← lift (if bool_decide (processes ≠ 1%Z)
                    then ifp_tanimoto_mp ifps1 ifps2 feature processes
                    else ifp_tanimoto ifps1 ifps2 feature);
  np_save out (Arr2 tanimotos).

(** [Features.compute_shape] *)
Definition compute_shape (self : Features) (poses1 poses2 : list pose)
    (out : string) : M world unit :=
  _ ← emit (CallShape poses1 poses2 out);
  sims ← lift (transpose <$> shape poses2 poses1 (shape_version self));
  np_save out (Arr2 sims).

(** [Features.compute_mcss] *)
Definition compute_mcss (self : Features) (poses1 poses2 : list pose)
    (out : string) (processes : Z) : M world unit :=
  _ ← emit (CallMcss poses1 poses2 out);
  rmsds ← lift (if bool_decide (processes ≠ 1%Z)
                then mcss_mp poses1 poses2 (mcss_file self) processes
                else mcss poses1 poses2 (mcss_file self));
  np_save out (Arr2 rmsds).

(** ** Single-Feature Extractor *)

(** The [pvs] argument: a list of sources, or a list of lists of them. *)
Inductive pv_arg :=
| Flat (pvs : list string)
| Nested (pvs : list (list string)).

(** [if type(pvs[0]) == list: pvs = [pv for _pvs in pvs for pv in _pvs]] *)
Definition flatten_pvs (pvs : pv_arg) : result (list string) :=
  match pvs with
  | Flat [] | Nested [] => Raise IndexError
  | Flat l => Ok l
  | Nested l => Ok (concat l)
  end.

(** [out = self.path(name, pv=pv); if not os.path.exists(out): compute(pv, out)] *)
Definition unless_cached (self : Features) (name pv : string)
    (compute : string → string → M world unit) : M world unit :=
  out ← lift (path_pv self name pv);
  cached ← exists_ out;
  when_not cached (compute pv out).

(** [Features.compute_single_features] *)
Definition compute_single_features (self : Features) (pvs : pv_arg)
    (native_poses : gmap string string) : M world unit :=
  pvs ← lift (flatten_pvs pvs);
  let pvs := abspath <$> pvs in
  _ ← print "Extracting GNINA scores.";
  _ ← for_each pvs (λ pv, unless_cached self "gscore" pv (compute_gscore self));
  _ ← print "Extracting names.";
  _ ← for_each pvs (λ pv, unless_cached self "name" pv (compute_name self));
  _ ← print "Computing RMSDs to native poses";
  _ ← for_each pvs (λ pv, unless_cached self "rmsd" pv
                            (λ pv out, compute_rmsd self pv native_poses out));
  _ ← print "Computing interaction fingerprints.";
  for_each pvs (λ pv, unless_cached self "ifp" pv (compute_ifp self)).

(** ** Pair-Feature Extractor *)

(** [out = self.path(name); np.save(out, a)] *)
Definition save_as (self : Features) (name : string) (a : ndarray)
  : M world unit :=
  out ← lift (path_of self name);
  np_save out a.

(** [Features.compute_pair_features] *)
Definition compute_pair_features (self : Features) (pvs : list string)
    (pvs2 : option (list string)) (ifp shape mcss : bool) (processes : Z)
  : M world unit :=
  _ ← mkdir (root self);
  c1 ← read (λ store, load_single_features self store pvs None);
  _ ← save_as self "rmsd1" (Arr1 (l_rmsds c1));
  _ ← save_as self "gscore1" (Arr1 (l_gscores c1));
  _ ← save_as self "name1" (ArrS (l_names c1));
  c2 ← match pvs2 with
       | None => mret c1
       | Some pvs2 =>
           c2 ← read (λ store, load_single_features self store pvs2 None);
           _ ← save_as self "rmsd2" (Arr1 (l_rmsds c2));
           _ ← save_as self "gscore2" (Arr1 (l_gscores c2));
           _ ← save_as self "name2" (ArrS (l_names c2));
           mret c2
       end;
  _ ← when_ ifp
        (_ ← print "Computing interaction similarities.";
         for_each (ifp_features self) (λ feature,
           out ← lift (path_of self feature);
           cached ← exists_ out;
           when_not cached
             (compute_ifp_pair (l_ifps c1) (l_ifps c2) feature out processes)));
  _ ← when_ shape
        (_ ← print "Computing shape similarities.";
         out ← lift (path_of self "shape");
         cached ← exists_ out;
         when_not cached (compute_shape self (l_poses c1) (l_poses c2) out));
  when_ mcss
    (_ ← print "Computing mcss similarities.";
     out ← lift (path_of self "mcss");
     cached ← exists_ out;
     when_not cached (compute_mcss self (l_poses c1) (l_poses c2) out processes)).

(** ** Vocabulary of the specification *)

(** [len(a)] *)
Definition array_length (a : ndarray) : nat :=
  match a with
  | Arr1 l => length l
  | ArrS l => length l
  | Arr2 m => nrows m
  end.

(** What the first loop of [get_view] has stored for the ligands [seen]. *)
Definition ligands_viewed (self : Features) (seen : list string)
    (data : gmap string view_dict) : Prop :=
  ∃ dg dr, data !! "gscore" = Some dg ∧ data !! "rmsd" = Some dr ∧
    ∀ ligand, ligand ∈ seen →
      ∃ mask g r,
        name_mask self ligand = Ok mask ∧ mask_sum mask ≠ 0%nat
        ∧ by_ligand dg !! ligand = Some g ∧ array_length g = mask_sum mask
        ∧ by_ligand dr !! ligand = Some r ∧ array_length r = mask_sum mask.

(** The name array cached for a source; empty when it cannot be read. *)
Definition stored_names (self : Features) (store : gmap string file)
    (pv : string) : list string :=
  match read_source self store pv with
  | Ok src => s_names src
  | Raise _ => []
  end.

(** The entries of [L] are those of [src] at the positions [keep], in the
    order of [keep]. *)
Definition rows_at (src : source) (keep : list nat) (L : loaded) : Prop :=
  Forall2 (λ i x, s_rmsds src !! i = Some x) keep (l_rmsds L)
  ∧ Forall2 (λ i x, s_gscores src !! i = Some x) keep (l_gscores L)
  ∧ Forall2 (λ i x, s_poses src !! i = Some x) keep (l_poses L)
  ∧ Forall2 (λ i x, s_names src !! i = Some x) keep (l_names L)
  ∧ Forall2 (λ i x, s_ifps src !! i = Some x) keep (l_ifps L).

(** The five sequences have one length. *)
Definition same_lengths (L : loaded) : Prop :=
  length (l_rmsds L) = length (l_names L)
  ∧ length (l_gscores L) = length (l_names L)
  ∧ length (l_poses L) = length (l_names L)
  ∧ length (l_ifps L) = length (l_names L).

(** The sum of a list of integers. *)
Fixpoint sumZ (l : list Z) : Z :=
  match l with
  | [] => 0
  | x :: l' => x + sumZ l'
  end%Z.

(** The sum over the distinct names of [names] of
    [min(number of occurrences, cap)]. *)
Definition capped_count (cap : Z) (names : list string) : Z :=
  sumZ ((λ n, Z.min (Z.of_nat (count_eq names n)) cap) <$> remove_dups names).

(** The title of a structure, and the identity string [compute_name] builds
    for the structure at position [idx] of its source. *)
Definition pose_name (st : pose) : string := default "" (props st !! "_Name").

Definition name_entry (docked_to : string) (idx : nat) (st : pose) : string :=
  pose_name st ++ "_" ++ str_of_nat idx ++ "-to-" ++ docked_to.

(** The structures [compute_name] gets to before its [break]. *)
Definition named_poses (self : Features) (sts : list pose) : list pose :=
  if bool_decide (1 ≤ max_poses self)%Z then take (Z.to_nat (max_poses self)) sts
  else sts.

(** A logical name that [path] resolves under the root. *)
Definition plain_name (name : string) : Prop :=
  name ≠ "rmsd" ∧ name ≠ "gscore" ∧ name ≠ "name" ∧ name ≠ "ifp".

(** [m] run in [w] returns [a], leaves the files as they are and starts no
    feature computation. *)
Definition runs_quietly {A} (m : M world A) (w : world) (a : A) : Prop :=
  ∃ evs, m w = ({| fs := fs w; trace := (trace w ++ evs)%list |}, Ok a)
         ∧ Forall (λ e, is_call e = false) evs.

(** The four artifacts of a source are on disk. *)
Definition single_cached (self : Features) (store : gmap string file)
    (pv : string) : Prop :=
  ∀ name, name ∈ ["gscore"; "name"; "rmsd"; "ifp"] →
    ∃ out, path_pv self name pv = Ok out ∧ is_Some (store !! out).

(** The merged arrays of the collection [c] are on disk, as a call saves
    them; [tag] is [1] or [2]. *)
Definition merged_cached (self : Features) (store : gmap string file)
    (tag : string) (c : loaded) : Prop :=
  store !! (root self ++ "/rmsd" ++ tag ++ ".npy") = Some (Npy (Arr1 (l_rmsds c)))
  ∧ store !! (root self ++ "/gscore" ++ tag ++ ".npy")
    = Some (Npy (Arr1 (l_gscores c)))
  ∧ store !! (root self ++ "/name" ++ tag ++ ".npy")
    = Some (Npy (ArrS (l_names c))).

(** The matrices of the requested families are on disk. *)
Definition pair_cached (self : Features) (store : gmap string file)
    (ifp shape mcss : bool) : Prop :=
  (ifp = true → ∀ feature, feature ∈ ifp_features self →
     ∃ out, path_of self feature = Ok out ∧ is_Some (store !! out))
  ∧ (shape = true → is_Some (store !! (root self ++ "/shape.npy")))
  ∧ (mcss = true → is_Some (store !! (root self ++ "/mcss.npy"))).

(** Whatever [m] does, the events it adds satisfy [P] and the files it
    changes are at paths in [S]. *)
Definition confined (P : event → Prop) (S : string → Prop) {A}
    (m : M world A) : Prop :=
  ∀ w, (∃ evs, trace (m w).1 = (trace w ++ evs)%list ∧ Forall P evs)
       ∧ (∀ p, ¬ S p → fs (m w).1 !! p = fs w !! p).

(** Modelled from the spec: the similarity providers [ifp_tanimoto],
    [ifp_tanimoto_mp], [shape], [mcss] and [mcss_mp] are not part of the
    sources at hand.  The spec has each return a dense matrix between the two
    collections it is given: one row per element of the first, one column
    per element of the second. *)
Definition similarity_contract : Prop :=
  (∀ a b feature m, ifp_tanimoto a b feature = Ok m →
     nrows m = length a ∧ ncols m = length b)
  ∧ (∀ a b feature n m, ifp_tanimoto_mp a b feature n = Ok m →
     nrows m = length a ∧ ncols m = length b)
  ∧ (∀ a b version m, shape a b version = Ok m →
     nrows m = length a ∧ ncols m = length b)
  ∧ (∀ a b typ m, mcss a b typ = Ok m →
     nrows m = length a ∧ ncols m = length b)
  ∧ (∀ a b typ n m, mcss_mp a b typ n = Ok m →
     nrows m = length a ∧ ncols m = length b).

(** Where a pairwise matrix goes. *)
Definition pair_path (self : Features) (out : string) : Prop :=
  out = root self ++ "/shape.npy" ∨ out = root self ++ "/mcss.npy"
  ∨ ∃ feature, feature ∈ ifp_features self
               ∧ out = root self ++ "/" ++ feature ++ ".npy".

End Model.

(** ** [load_features], and the vocabulary of further properties *)

Section Store.
Context {float : Type}.
Variable float_of_string : string → option float.

(** [glob(pattern)]: the paths of the store that match the pattern, in the
    order the directory listing gives them. *)
Variable glob : gmap string (@file float) → string → list string.

(** The similarity providers, as in the model above. *)
Variable ifp_tanimoto :
  list (list ifp_row) → list (list ifp_row) → string → result (@matrix float).
Variable ifp_tanimoto_mp :
  list (list ifp_row) → list (list ifp_row) → string → Z → result (@matrix float).
Variable shape : list pose → list pose → string → result (@matrix float).
Variable mcss : list pose → list pose → string → result (@matrix float).
Variable mcss_mp : list pose → list pose → string → Z → result (@matrix float).

(** [self.raw[name] = a] *)
Definition set_raw (name : string) (a : @ndarray float) (self : @Features float)
  : @Features float :=
  {| root := root self; pv_root := pv_root self; ifp_version := ifp_version self;
     shape_version := shape_version self; mcss_version := mcss_version self;
     mcss_file := mcss_file self; max_poses := max_poses self;
     ifp_features := ifp_features self;
     raw := <[name := a]> (raw self) |}.

(** [path.split('/')[-1][:-4]]: the key [load_features] gives the array at
    [path]. *)
Definition raw_key (path : string) : string :=
  drop_last 4 (last_piece (split "/" path)).

(** The body of the loop of [load_features]; the instance is the state. *)
Definition load_feature (store : gmap string (@file float)) (path : string)
  : M (@Features float) unit :=
  let name := raw_key path in
  a ← lift (np_load store path);
  modify (set_raw name a).

(** [Features.load_features] *)
Definition load_features (store : gmap string (@file float))
  : M (@Features float) unit := λ self,
  let paths := glob store (root self ++ "/*.npy") in
  for_each paths (load_feature store) self.

(** A path [glob] may list for the pattern [root/*.npy]: an array file
    directly under the root. *)
Definition under_root (self : @Features float) (path : string) : Prop :=
  ∃ name, path = root self ++ "/" ++ name ++ ".npy" ∧ contains "/" name = false.

(** [ligands == None or name in ligands] *)
Definition passes (ligands : option (list string)) (n : string) : bool :=
  match ligands with
  | None => true
  | Some ls => bool_decide (n ∈ ls)
  end.

(** How many poses named [n] the selection loop retains of a source whose
    name array is [names]. *)
Definition kept_count (self : @Features float) (ligands : option (list string))
    (names : list string) (n : string) : Z :=
  if passes ligands n
  then Z.max 0 (Z.min (Z.of_nat (count_eq names n)) (max_poses self))
  else 0.

(** The length of the shortest of the four arrays the selection indexes
    besides the names. *)
Definition shortest (src : @source float) : nat :=
  Nat.min (Nat.min (length (s_rmsds src)) (length (s_gscores src)))
          (Nat.min (length (s_poses src)) (length (s_ifps src))).

(** What [read_source] reads for the source [pv]. *)
Definition artifacts_of (self : @Features float) (store : gmap string (@file float))
    (pv : string) (src : @source float) : Prop :=
  ∃ p_r p_g p_n p_i table,
    path_pv self "rmsd" pv = Ok p_r ∧ store !! p_r = Some (Npy (Arr1 (s_rmsds src)))
    ∧ path_pv self "gscore" pv = Ok p_g ∧ store !! p_g = Some (Npy (Arr1 (s_gscores src)))
    ∧ path_pv self "name" pv = Ok p_n ∧ store !! p_n = Some (Npy (ArrS (s_names src)))
    ∧ path_pv self "ifp" pv = Ok p_i ∧ store !! p_i = Some (Csv table)
    ∧ table ≠ [] ∧ ifp_groups table = Ok (s_ifps src)
    ∧ store !! pv = Some (SdfGz (s_poses src)).

(** The suffix [path] puts in the place of [.sdf.gz] for the artifact
    [name] of a source. *)
Definition artifact_suffix (self : @Features float) (name : string) : string :=
  if bool_decide (name = "rmsd") then "_rmsd.npy"
  else if bool_decide (name = "gscore") then "_gscore.npy"
  else if bool_decide (name = "name") then "_name.npy"
  else "_ifp_" ++ ifp_version self ++ ".csv".

(** The docking score of a structure: [float(st.GetProp('CNNaffinity'))]. *)
Definition pose_score (st : pose) : option float :=
  props st !! "CNNaffinity" ≫= float_of_string.

(** The structures a capped loop gets to when it holds [k] entries
    already. *)
Definition reached (self : @Features float) (k : nat) (sts : list pose) : list pose :=
  if bool_decide (Z.of_nat k < max_poses self)%Z
  then take (Z.to_nat (max_poses self) - k) sts else sts.

(** [names == ligand] *)
Definition mask_of (names : list string) (ligand : string) : list bool :=
  (λ n, bool_decide (n = ligand)) <$> names.

(** The block of the matrix [feature] that [get_view] stores for a pair of
    ligands. *)
Definition pair_block (self : @Features float) (feature : string)
    (key : string * string) : result (@matrix float) :=
  mask1 ← name_mask self key.1;
  mask2 ← name_mask self key.2;
  a ← raw_get self feature;
  m ← (match a with Arr2 m => Ok m | _ => Raise IndexError end);
  mask_2d m mask1 mask2.

(** The world after [np.save(self.path(name), a)] for a logical name that
    [path] resolves under the root. *)
Definition saved_as (self : @Features float) (name : string) (a : @ndarray float)
    (w : @world float) : @world float :=
  {| fs := <[root self ++ "/" ++ name ++ ".npy" := Npy a]> (fs w);
     trace := (trace w ++ [Saved (root self ++ "/" ++ name ++ ".npy") a])%list |}.

(** The world after the merged arrays of the collection [c] are saved under
    the tag [tag] ([1] or [2]), and the events of saving them. *)
Definition merged_saved (self : @Features float) (tag : string) (c : @loaded float)
    (w : @world float) : @world float :=
  saved_as self ("name" ++ tag) (ArrS (l_names c))
    (saved_as self ("gscore" ++ tag) (Arr1 (l_gscores c))
       (saved_as self ("rmsd" ++ tag) (Arr1 (l_rmsds c)) w)).

Definition merged_events (self : @Features float) (tag : string) (c : @loaded float)
  : list (@event float) :=
  [Saved (root self ++ "/" ++ ("rmsd" ++ tag) ++ ".npy") (Arr1 (l_rmsds c));
   Saved (root self ++ "/" ++ ("gscore" ++ tag) ++ ".npy") (Arr1 (l_gscores c));
   Saved (root self ++ "/" ++ ("name" ++ tag) ++ ".npy") (ArrS (l_names c))].

(** What the similarity providers are asked for the collections [c1] and
    [c2]: the matrix of an interaction type, of the shape family and of the
    substructure family. *)
Definition tanimoto_of (c1 c2 : @loaded float) (feature : string) (processes : Z)
  : result (@matrix float) :=
  if bool_decide (processes ≠ 1%Z)
  then ifp_tanimoto_mp (l_ifps c1) (l_ifps c2) feature processes
  else ifp_tanimoto (l_ifps c1) (l_ifps c2) feature.

Definition shape_of (self : @Features float) (c1 c2 : @loaded float)
  : result (@matrix float) :=
  transpose <$> shape (l_poses c2) (l_poses c1) (shape_version self).

Definition mcss_of (self : @Features float) (c1 c2 : @loaded float) (processes : Z)
  : result (@matrix float) :=
  if bool_decide (processes ≠ 1%Z)
  then mcss_mp (l_poses c1) (l_poses c2) (mcss_file self) processes
  else mcss (l_poses c1) (l_poses c2) (mcss_file self).

(** What the similarity part of [compute_pair_features] may print, start
    and save for the collections [c1] and [c2]. *)
Definition pair_event (self : @Features float) (processes : Z) (c1 c2 : @loaded float)
    (e : @event float) : Prop :=
  match e with
  | Printed _ => True
  | Saved out a =>
      (∃ feature m, feature ∈ ifp_features self
                    ∧ out = root self ++ "/" ++ feature ++ ".npy"
                    ∧ tanimoto_of c1 c2 feature processes = Ok m ∧ a = Arr2 m)
      ∨ (∃ m, out = root self ++ "/shape.npy" ∧ shape_of self c1 c2 = Ok m ∧ a = Arr2 m)
      ∨ (∃ m, out = root self ++ "/mcss.npy" ∧ mcss_of self c1 c2 processes = Ok m
              ∧ a = Arr2 m)
  | CallIfpPair ifps1 ifps2 feature out =>
      ifps1 = l_ifps c1 ∧ ifps2 = l_ifps c2 ∧ feature ∈ ifp_features self
      ∧ out = root self ++ "/" ++ feature ++ ".npy"
  | CallShape poses1 poses2 out =>
      poses1 = l_poses c1 ∧ poses2 = l_poses c2 ∧ out = root self ++ "/shape.npy"
  | CallMcss poses1 poses2 out =>
      poses1 = l_poses c1 ∧ poses2 = l_poses c2 ∧ out = root self ++ "/mcss.npy"
  | _ => False
  end.

(** The three similarity blocks that end [compute_pair_features], for the
    collections [c1] and [c2]. *)
Definition pair_blocks (self : @Features float) (c1 c2 : @loaded float)
    (ifp shape_wanted mcss_wanted : bool) (processes : Z) : M (@world float) unit :=
  _ ← when_ ifp
        (_ ← print "Computing interaction similarities.";
         for_each (ifp_features self) (λ feature,
           out ← lift (path_of self feature);
           cached ← exists_ out;
           when_not cached
             (compute_ifp_pair ifp_tanimoto ifp_tanimoto_mp
                (l_ifps c1) (l_ifps c2) feature out processes)));
  _ ← when_ shape_wanted
        (_ ← print "Computing shape similarities.";
         out ← lift (path_of self "shape");
         cached ← exists_ out;
         when_not cached (compute_shape shape self (l_poses c1) (l_poses c2) out));
  when_ mcss_wanted
    (_ ← print "Computing mcss similarities.";
     out ← lift (path_of self "mcss");
     cached ← exists_ out;
     when_not cached
       (compute_mcss mcss mcss_mp self (l_poses c1) (l_poses c2) out processes)).

(** The files [load_single_features] opens for the source [pv]: the three
    arrays and the fingerprint table at the paths [path] gives, and the pose
    file itself. *)
Definition artifacts_on_disk (self : @Features float) (store : gmap string (@file float))
    (pv : string) : Prop :=
  ∃ p_r p_g p_n p_i a_r a_g a_n table poses,
    path_pv self "rmsd" pv = Ok p_r ∧ store !! p_r = Some (Npy a_r)
    ∧ path_pv self "gscore" pv = Ok p_g ∧ store !! p_g = Some (Npy a_g)
    ∧ path_pv self "name" pv = Ok p_n ∧ store !! p_n = Some (Npy a_n)
    ∧ path_pv self "ifp" pv = Ok p_i ∧ store !! p_i = Some (Csv table)
    ∧ table ≠ []
    ∧ store !! pv = Some (SdfGz poses).

(** The store after the saves of a trace, in order. *)
Definition replay (evs : list (@event float)) (store : gmap string (@file float))
  : gmap string (@file float) :=
  foldl (λ s e, match e with
                | Saved out a => <[npy_name out := Npy a]> s
                | _ => s
                end) store evs.

(** The files change by the saves of the trace and by nothing else. *)
Definition files_follow_trace {A} (m : M (@world float) A) : Prop :=
  ∀ w, ∃ evs, trace (m w).1 = (trace w ++ evs)%list ∧ fs (m w).1 = replay evs (fs w).

(** What a self-comparison over the collection [c1] prints, starts and
    saves once the merged arrays are saved: pairwise computations between
    [c1] and itself, and square matrices with one row and one column per
    pose. *)
Definition self_matrix_event (self : @Features float) (c1 : @loaded float)
    (e : @event float) : Prop :=
  match e with
  | Printed _ => True
  | Saved out a =>
      ∃ m, a = Arr2 m ∧ pair_path self out
           ∧ nrows m = length (l_poses c1) ∧ ncols m = length (l_poses c1)
  | CallIfpPair ifps1 ifps2 _ out =>
      ifps1 = l_ifps c1 ∧ ifps2 = l_ifps c1 ∧ pair_path self out
  | CallShape poses1 poses2 out | CallMcss poses1 poses2 out =>
      poses1 = l_poses c1 ∧ poses2 = l_poses c1 ∧ pair_path self out
  | _ => False
  end.

(** One similarity block: the matrix is computed unless it is on disk. *)
Definition matrix_step (self : @Features float) (name : string)
    (compute : string → M (@world float) unit) : M (@world float) unit :=
  out ← lift (path_of self name);
  cached ← exists_ out;
  when_not cached (compute out).

End Store.

End Features.

(* ===================================================================== *)
(** * dock/dock.py *)
(* ===================================================================== *)

Module Dock.
Import Py PyStr.

Definition GNINA : string :=
  " -l {lig} -o {out} --exhaustiveness {exh} --num_modes 200 > {log} " ++ nl.

(** A path of the file system holds a text file or a directory. *)
Inductive node :=
| File (content : string)
| Dir.

(** What a call does besides changing files. *)
Inductive event :=
| Printed (line : string)
| System (command : string)                     (* [os.system] *)
| RunGninaDocking (gnina_dock_file : string)    (* [run_gnina_docking] *)
| SetupSlurm (gnina_in : string) (ligands : list string)
             (receptor abox : string).          (* [setup_slurm] *)

Record world := World {
  fs : gmap string node;
  trace : list event;
}.

Definition emit (e : event) : M world unit :=
  modify (λ w, {| fs := fs w; trace := (trace w ++ [e])%list |}).

Definition print (line : string) : M world unit := emit (Printed line).

(** [os.path.exists(p)] *)
Definition exists_ (p : string) : M world bool :=
  gets (λ w, bool_decide (is_Some (fs w !! p))).

(** [open(p).read()].  A file holds the text that reading it gives: bytes
    that do not decode are outside the model. *)
Definition read_text (p : string) : M world string := λ w,
  (w, match fs w !! p with
      | None => Raise FileNotFoundError
      | Some Dir => Raise OSError
      | Some (File content) => Ok content
      end).

(** [open(p, 'w')]: the file is created, or emptied. *)
Definition open_w (p : string) : M world unit := λ w,
  match fs w !! p with
  | Some Dir => (w, Raise OSError)
  | _ => ({| fs := <[p := File ""]> (fs w); trace := trace w |}, Ok tt)
  end.

(** [fp.write(text)] on the file opened at [p]. *)
Definition fp_write (p text : string) : M world unit :=
  modify (λ w, {| fs := alter (λ n, match n with
                                    | File content => File (content ++ text)
                                    | Dir => Dir
                                    end) p (fs w);
                  trace := trace w |}).

(** [os.system('mkdir {}'.format(d))], taken to create the directory, as
    the command does for a name without blanks whose parent exists. *)
Definition system_mkdir (d : string) : M world unit :=
  _ ← emit (System ("mkdir " ++ d));
  modify (λ w, {| fs := <[d := Dir]> (fs w); trace := trace w |}).

(** [assert cond] *)
Definition assert (cond : bool) : M world unit :=
  if cond then mret tt else lift (Raise AssertionError).

(** [docking_failed]: the list of failure phrases is still empty. *)
Definition docking_failed (gnina_log : string) : M world bool :=
  found ← exists_ gnina_log;
  if negb (found : bool) then mret false
  else
    logtxt ← read_text gnina_log;
    let phrases : list string := [] in
    mret (existsb (λ phrase, contains phrase logtxt) phrases).

Definition exh_warning : string :=
  "Warning: your docking line does not contain {exh}" ++ nl ++
  "                Docking will use either your specified exhaustiveness " ++
  "                (if specified) or the default GNINA exchaustiveness of 8".

(** [check_dock_line] *)
Definition check_dock_line (infile : string) : M world string :=
  let infile := if endswith nl infile then infile else infile ++ nl in
  _ ← assert (contains "{lig}" infile);
  _ ← assert (contains "{out}" infile);
  _ ← assert (contains "{log}" infile);
  _ ← when_not (contains "{exh}" infile) (print exh_warning);
  mret infile.

(** How one turn of the loop over the ligands ends: it goes on to the next
    ligand, or it executes [return]. *)
Inductive turn :=
| Continue
| Returned.

(** The template of the output path, and the first word after the last
    occurrence of an option in the docking template. *)
Definition outfile : string := "docked/{inlig}-docked.sdf.gz".

(** The output path of the ligand [n]. *)
Definition docked_path (n : string) : string := "docked/" ++ n ++ "-docked.sdf.gz".

Definition option_value (opt dock_template : string) : string :=
  first_piece (split " " (strip (last_piece (split opt dock_template)))).

(** A turn ends. *)
Definition finish (t : turn) : M world turn := mret t.

(** The body of the loop of [dock] for one [(lig, _r, n)]. *)
Definition dock_turn (dock_line recname gnina_in : string) (exh : Z)
    (enhanced : bool) (item : string * (string * string)) : M world turn :=
  let '(lig, (_r, n)) := item in
  out ← lift (or_raise KeyError (format outfile [("inlig", n)]));
  let gnina_log := recname ++ "_" ++ n ++ ".log" in
  docked ← exists_ outfile;
  if (docked : bool) then finish Returned
  else
    failed ← (if enhanced then docking_failed gnina_log else mret false);
    if enhanced && (failed : bool) then finish Returned
    else
      have_root ← exists_ _r;
      _ ← when_not have_root (system_mkdir _r);
      line ← lift (or_raise KeyError
                     (format dock_line [("lig", lig); ("out", out);
                                        ("exh", str_of_Z exh);
                                        ("log", gnina_log)]));
      _ ← fp_write gnina_in line;
      finish Continue.

(** [for lig, _r, n in zip(ligands, root, name): ...] *)
Fixpoint dock_loop (dock_line recname gnina_in : string) (exh : Z)
    (enhanced : bool) (items : list (string * (string * string)))
  : M world turn :=
  match items with
  | [] => mret Continue
  | item :: rest =>
      t ← dock_turn dock_line recname gnina_in exh enhanced item;
      match t with
      | Returned => mret Returned
      | Continue => dock_loop dock_line recname gnina_in exh enhanced rest
      end
  end.

(** [dock]; [run_gnina_docking] and [setup_slurm] start external processes
    and are recorded as events. *)
Definition dock (template : string) (ligands root name : list string)
    (enhanced : bool) (infile : option string) (reference : option string)
    (slurm now : bool) : M world unit :=
  infile ← match infile with
           | None => mret GNINA
           | Some line => check_dock_line line
           end;
  let exh : Z := (if enhanced then 16 else 8)%Z in
  text ← read_text template;
  first ← lift (or_raise IndexError (head (readlines (text : string))));
  let dock_template := strip_nl first in
  let recname := splitext_root (basename (option_value "-r" dock_template)) in
  let dock_line := dock_template ++ (infile : string) in
  let dock_line :=
    if slurm then replace ">" "--cpu 1 >" dock_line else dock_line in
  let gnina_in := recname ++ "_docking_file.txt" in
  _ ← open_w gnina_in;
  t ← dock_loop dock_line recname gnina_in exh enhanced
                (zip ligands (zip root name));
  match t with
  | Returned => mret tt
  | Continue =>
      if now then emit (RunGninaDocking gnina_in)
      else if slurm then
        let receptor := option_value "-r" dock_template in
        let abox := option_value "--autobox_ligand" dock_template in
        emit (SetupSlurm gnina_in ligands receptor abox)
      else mret tt
  end.


(** ** The loop of [run_gnina_docking], and the vocabulary of further
    properties *)

(** What one turn of the loop of [run_gnina_docking] takes from a command
    line: the arguments of the process and the path of its log file.
    Unpacking the split raises [ValueError] unless the line holds exactly
    one [>]. *)
Definition command_parts (gnina_cmd : string) : result (list string * string) :=
  match split ">" gnina_cmd with
  | [gnina_run; logfile] => Ok (split_ws (strip gnina_run), strip logfile)
  | _ => Raise ValueError
  end.

(** The three placeholders a docking line must hold. *)
Definition placeholders (infile : string) : bool :=
  contains "{lig}" infile && contains "{out}" infile && contains "{log}" infile.

(** The line with its line feed. *)
Definition with_newline (infile : string) : string :=
  if endswith nl infile then infile else infile ++ nl.

(** The log file of the ligand [n]. *)
Definition gnina_log_of (recname n : string) : string :=
  recname ++ "_" ++ n ++ ".log".

(** What [dock] writes before the [>] of a default command, and the whole
    command. *)
Definition gnina_run_of (dock_template lig out : string) (exh : Z) (slurm : bool)
  : string :=
  dock_template ++ " -l " ++ lig ++ " -o " ++ out ++ " --exhaustiveness "
  ++ str_of_Z exh ++ " --num_modes 200 " ++ (if slurm then "--cpu 1 " else "").

Definition gnina_command (dock_template lig out log : string) (exh : Z)
    (slurm : bool) : string :=
  dock_template ++ " -l " ++ lig ++ " -o " ++ out ++ " --exhaustiveness "
  ++ str_of_Z exh ++ " --num_modes 200 "
  ++ (if slurm then "--cpu 1 " else "") ++ "> " ++ log ++ " " ++ nl.

(** The command [dock] writes for one [(lig, _r, n)] with the default
    docking line. *)
Definition command_of (dock_template recname : string) (exh : Z) (slurm : bool)
    (item : string * (string * string)) : string :=
  gnina_command dock_template item.1 (docked_path item.2.2)
                (gnina_log_of recname item.2.2) exh slurm.

(** A text without braces. *)
Definition brace_free (s : string) : Prop :=
  contains "{" s = false ∧ contains "}" s = false.

(** Texts written one after the other. *)
Definition written (texts : list string) : string := foldr String.append "" texts.

(** The default docking line after the template, as [dock] builds it. *)
Definition default_dock_line (dock_template : string) (slurm : bool) : string :=
  let dock_line := dock_template ++ GNINA in
  if slurm then replace ">" "--cpu 1 >" dock_line else dock_line.

(** [fp.write(line)] on the content of a file. *)
Definition appended (line : string) (n : node) : node :=
  match n with File content => File (content ++ line) | Dir => Dir end.

(** A log that [open(gnina_log).read()] reads, if it exists: a file of
    plain text. *)
Definition plain_log (n : option node) : Prop :=
  match n with
  | None => True
  | Some (File content) => plain_text content = true
  | Some Dir => False
  end.
End Dock.


(* ===================================================================== *)
(** * Concrete stores, instances and tools *)
(* ===================================================================== *)

Module Examples.
Import Py PyStr Features.

(** Floats of the examples are written as integers, in tenths. *)
Definition no_float (text : string) : option Z := None.

(** A structure with a title and a docking score. *)
Definition titled (title score : string) : pose :=
  {| props := {[ "_Name" := title; "CNNaffinity" := score ]}; molblock := "" |}.

(** The pose source of the spec's scenario: three poses of ligand [A], then
    two of ligand [B], docked to [X]. *)
Definition pv : string := "/r/docking/A-to-X.sdf.gz".

Definition poses5 : list pose :=
  [titled "A" "5.0"; titled "A" "4.0"; titled "A" "3.0";
   titled "B" "6.0"; titled "B" "5.5"].

(** An instance as the constructor builds it with the default [pv_root], for
    a cap of [cap] poses. *)
Definition instance (cap : Z) : @Features Z :=
  {| root := "/r"; pv_root := Some "/r/docking";
     ifp_version := "rd1"; shape_version := "pharm_max";
     mcss_version := "mcss16"; mcss_file := "/opt/combind/features/mcss16.typ";
     max_poses := cap; ifp_features := ["hbond"; "saltbridge"; "contact"];
     raw := ∅ |}.

(** Only the pose source is on disk. *)
Definition fresh_world : @world Z :=
  {| fs := {[ pv := SdfGz poses5 ]}; trace := [] |}.

(** The source with its four per-source artifacts, the name array holding
    the ligand names. *)
Definition table5 : list ifp_row :=
  [IfpRow 0%Z ["hbond"]; IfpRow 1%Z ["hbond"]; IfpRow 2%Z ["contact"];
   IfpRow 3%Z ["hbond"]; IfpRow 4%Z ["saltbridge"]].

Definition cached_store : gmap string (@file Z) :=
  {[ pv := SdfGz poses5;
     "/r/docking/A-to-X_rmsd.npy" :=
       Npy (Arr1 [NFloat 12%Z; NFloat 25%Z; NFloat 31%Z; NFloat 8%Z; NFloat 40%Z]);
     "/r/docking/A-to-X_gscore.npy" :=
       Npy (Arr1 [NFloat 50%Z; NFloat 40%Z; NFloat 30%Z; NFloat 60%Z; NFloat 55%Z]);
     "/r/docking/A-to-X_name.npy" := Npy (ArrS ["A"; "A"; "A"; "B"; "B"]);
     "/r/docking/A-to-X_ifp_rd1.csv" := Csv table5 ]}.

(** What the loader returns for it under a cap of two poses per ligand. *)
Definition loaded4 : @loaded Z :=
  {| l_rmsds := [NFloat 12%Z; NFloat 25%Z; NFloat 8%Z; NFloat 40%Z];
     l_gscores := [NFloat 50%Z; NFloat 40%Z; NFloat 60%Z; NFloat 55%Z];
     l_poses := [titled "A" "5.0"; titled "A" "4.0";
                 titled "B" "6.0"; titled "B" "5.5"];
     l_names := ["A"; "A"; "B"; "B"];
     l_ifps := [[IfpRow 0%Z ["hbond"]]; [IfpRow 1%Z ["hbond"]];
                [IfpRow 3%Z ["hbond"]]; [IfpRow 4%Z ["saltbridge"]]] |}.

(** Similarity providers that return a matrix of zeros of the right shape. *)
Definition zeros (rows cols : nat) : @matrix Z :=
  {| nrows := rows; ncols := cols; cell := λ _ _, NInt 0%Z |}.

Definition tanimoto (a b : list (list ifp_row)) (feature : string)
  : result (@matrix Z) := Ok (zeros (length a) (length b)).
Definition tanimoto_mp (a b : list (list ifp_row)) (feature : string) (n : Z)
  : result (@matrix Z) := Ok (zeros (length a) (length b)).
Definition overlay (a b : list pose) (version : string)
  : result (@matrix Z) := Ok (zeros (length a) (length b)).
Definition overlay_mp (a b : list pose) (version : string) (n : Z)
  : result (@matrix Z) := Ok (zeros (length a) (length b)).

(** A whole feature store: the cached source, the merged arrays of
    [loaded4] and the five pairwise matrices. *)
Definition full_store : gmap string (@file Z) :=
  <["/r/rmsd1.npy" := Npy (Arr1 (l_rmsds loaded4))]>
  (<["/r/gscore1.npy" := Npy (Arr1 (l_gscores loaded4))]>
  (<["/r/name1.npy" := Npy (ArrS (l_names loaded4))]>
  (<["/r/hbond.npy" := Npy (Arr2 (zeros 4 4))]>
  (<["/r/saltbridge.npy" := Npy (Arr2 (zeros 4 4))]>
  (<["/r/contact.npy" := Npy (Arr2 (zeros 4 4))]>
  (<["/r/shape.npy" := Npy (Arr2 (zeros 4 4))]>
  (<["/r/mcss.npy" := Npy (Arr2 (zeros 4 4))]> cached_store))))))).

Definition full_world : @world Z := {| fs := full_store; trace := [] |}.

(** The world with the cached source and nothing else. *)
Definition cached_world : @world Z := {| fs := cached_store; trace := [] |}.

(** Where the RMSDs of the source are cached. *)
Definition rmsd_out : string := "/r/docking/A-to-X_rmsd.npy".

(** Where the names of the source are cached. *)
Definition name_out : string := "/r/docking/A-to-X_name.npy".

(** What the constructor returns when it is given [pv_root = "/pv"]. *)
Definition unset_instance : @Features Z :=
  {| root := "/r"; pv_root := None;
     ifp_version := "rd1"; shape_version := "pharm_max";
     mcss_version := "mcss16"; mcss_file := "/opt/combind/features/mcss16.typ";
     max_poses := 10000%Z; ifp_features := ["hbond"; "saltbridge"; "contact"];
     raw := ∅ |}.

(** A fingerprint engine that returns the table of the example. *)
Definition fingerprints (settings : ifp_settings) (sts : list pose) (cap : Z)
  : list ifp_row := table5.

(** A geometry-comparison tool that fails, and a reference table that
    knows ligand [A]. *)
Definition obrms_fails (store : gmap string (@file Z)) (native pv : string)
  : result string := Raise ToolError.

Definition natives : gmap string string := {[ "A" := "/r/structures/A_lig.sdf" ]}.

(** The store before the RMSDs of the source are computed. *)
Definition before_rmsd : @world Z :=
  {| fs := delete "/r/docking/A-to-X_rmsd.npy" cached_store; trace := [] |}.

(** An instance whose loaded store holds the merged arrays of [loaded4]. *)
Definition viewer : @Features Z :=
  {| root := "/r"; pv_root := Some "/r/docking";
     ifp_version := "rd1"; shape_version := "pharm_max";
     mcss_version := "mcss16"; mcss_file := "/opt/combind/features/mcss16.typ";
     max_poses := 2%Z; ifp_features := ["hbond"; "saltbridge"; "contact"];
     raw := {[ "name1" := ArrS (l_names loaded4);
               "gscore1" := Arr1 (l_gscores loaded4);
               "rmsd1" := Arr1 (l_rmsds loaded4);
               "shape" := Arr2 (zeros 4 4) ]} |}.

(** The environment of the constructor. *)
Definition environ : gmap string string := {[ "COMBINDHOME" := "/opt/combind" ]}.

(** A docking template, a world where ligand [L1] is already docked, and one
    where a file is named like the output template itself. *)
Definition template_text : string :=
  "gnina -r structures/rec.pdb --autobox_ligand lig.sdf" ++ nl.

Definition docked_world : Dock.world :=
  {| Dock.fs := {[ "tmpl.txt" := Dock.File template_text;
                   "docked" := Dock.Dir;
                   "docked/L1-docked.sdf.gz" := Dock.File "poses" ]};
     Dock.trace := [] |}.

(** The docking line of the template with the default GNINA options. *)
Definition dock_line : string :=
  "gnina -r structures/rec.pdb --autobox_ligand lig.sdf" ++ Dock.GNINA.

Definition literal_world : Dock.world :=
  {| Dock.fs := {[ "tmpl.txt" := Dock.File template_text;
                   "docked" := Dock.Dir;
                   "docked/{inlig}-docked.sdf.gz" := Dock.File "" ]};
     Dock.trace := [] |}.


(** A parser for the floats of the examples: one digit, a point and one
    digit, read in tenths. *)
Definition tenths (text : string) : option Z :=
  match text with
  | String a (String "." (String b EmptyString)) =>
      let da := (Z.of_nat (nat_of_ascii a) - 48)%Z in
      let db := (Z.of_nat (nat_of_ascii b) - 48)%Z in
      if bool_decide (0 ≤ da ≤ 9 ∧ 0 ≤ db ≤ 9)%Z then Some (10 * da + db)%Z else None
  | _ => None
  end.

(** A pose source whose path holds no [.sdf.gz], in a world where it and
    nothing else exists. *)
Definition plain_pv : string := "/r/poses.sdf".

Definition plain_world : @world Z :=
  {| fs := {[ plain_pv := SdfGz poses5 ]}; trace := [] |}.

(** The cached store with a fingerprint table that lacks the row of the
    last pose. *)
Definition short_table_store : gmap string (@file Z) :=
  <["/r/docking/A-to-X_ifp_rd1.csv" := Csv (take 4 table5)]> cached_store.

(** What the loader returns for the cached source under the filter [B]. *)
Definition loaded_B : @loaded Z :=
  {| l_rmsds := [NFloat 8%Z; NFloat 40%Z];
     l_gscores := [NFloat 60%Z; NFloat 55%Z];
     l_poses := [titled "B" "6.0"; titled "B" "5.5"];
     l_names := ["B"; "B"];
     l_ifps := [[IfpRow 3%Z ["hbond"]]; [IfpRow 4%Z ["saltbridge"]]] |}.

(** An instance of a fingerprint version that the settings table lacks. *)
Definition instance_rd2 : @Features Z :=
  {| root := "/r"; pv_root := Some "/r/docking";
     ifp_version := "rd2"; shape_version := "pharm_max";
     mcss_version := "mcss16"; mcss_file := "/opt/combind/features/mcss16.typ";
     max_poses := 10%Z; ifp_features := ["hbond"; "saltbridge"; "contact"];
     raw := ∅ |}.

(** A geometry-comparison tool that prints one line per pose. *)
Definition rmsd_lines : list string := ["RMSD A:A 1.2"; "RMSD A:A 2.5"].

Definition obrms_lines (store : gmap string (@file Z)) (native pv : string)
  : result string := Ok (String.concat nl rmsd_lines ++ nl).

(** A directory listing: the paths of the store that match a pattern with
    one [*], which stands for a file name without a slash. *)
Definition listing (store : gmap string (@file Z)) (pattern : string) : list string :=
  match split "*" pattern with
  | [pre; suf] =>
      filter (λ p, Is_true
                (String.prefix pre p && endswith suf p
                 && (String.length pre + String.length suf <=? String.length p)%nat
                 && negb (contains "/" (String.substring (String.length pre)
                                          (String.length p - String.length pre) p))))
             (map_to_list store).*1
  | _ => []
  end.

(** A docking world that holds a template and the directory of the
    outputs, and nothing else. *)
Definition template_world : Dock.world :=
  {| Dock.fs := {[ "tmpl.txt" := Dock.File template_text;
                   "docked" := Dock.Dir ]};
     Dock.trace := [] |}.
(** An instance whose only interaction type is named [rmsd2]. *)
Definition instance_rmsd2_type : @Features Z :=
  {| root := "/r"; pv_root := Some "/r/docking";
     ifp_version := "rd1"; shape_version := "pharm_max";
     mcss_version := "mcss16"; mcss_file := "/opt/combind/features/mcss16.typ";
     max_poses := 2%Z; ifp_features := ["rmsd2"];
     raw := ∅ |}.
End Examples.

(* ===================================================================== *)
(** * Facts about results, runs and strings *)
(* ===================================================================== *)

Module PyFacts.
Import Py PyStr.

(** ** Inversion of successful results *)

Lemma bind_Ok_inv {A B} (r : result A) (f : A → result B) (b : B) :
  r ≫= f = Ok b → ∃ a, r = Ok a ∧ f a = Ok b.
Proof. destruct r as [a|e]; [eauto | discriminate]. Qed.

Lemma fmap_Ok_inv {A B} (r : result A) (f : A → B) (b : B) :
  f <$> r = Ok b → ∃ a, r = Ok a ∧ b = f a.
Proof. destruct r as [a|e]; [|discriminate]. intros [= <-]. eauto. Qed.

Ltac bind_inv H :=
  repeat match type of H with
  | _ ≫= _ = Ok _ =>
      let a := fresh "a" in let Ha := fresh "H" a in
      apply bind_Ok_inv in H as (a & Ha & H)
  end.

Lemma mapM_Ok_inv {A B} (f : A → result B) (xs : list A) (ys : list B) :
  mapM f xs = Ok ys → Forall2 (λ x y, f x = Ok y) xs ys.
Proof.
  revert ys. induction xs as [|x xs IH]; intros ys H; simpl in H.
  - injection H as <-. constructor.
  - apply bind_Ok_inv in H as (y & Hy & H).
    apply bind_Ok_inv in H as (k & Hk & H).
    injection H as <-. constructor; auto.
Qed.

Lemma fold_result_raises {A B} (step : B → A → result B) (xs : list A) (x : A) (acc : B) :
  x ∈ xs → (∀ b, is_ok (step b x) = false) → is_ok (fold_result step xs acc) = false.
Proof.
  intros Hx Hstep. revert acc. induction xs as [|y xs IH]; intros acc.
  - by apply elem_of_nil in Hx.
  - cbn [fold_result]. apply elem_of_cons in Hx as [<-|Hx].
    + specialize (Hstep acc). destruct (step acc x); [discriminate | done].
    + destruct (step acc y); [by apply IH | done].
Qed.

(** ** Running a computation step by step *)

Lemma run_bind {W A B} (m : M W A) (f : A → M W B) (w w' : W) (a : A) :
  m w = (w', Ok a) → (m ≫= f) w = f a w'.
Proof. intros H. unfold mbind, M_bind. by rewrite H. Qed.

Lemma run_bind_raise {W A B} (m : M W A) (f : A → M W B) (w w' : W) (e : exn) :
  m w = (w', Raise e) → (m ≫= f) w = (w', Raise e).
Proof. intros H. unfold mbind, M_bind. by rewrite H. Qed.

Ltac step := cbv beta zeta iota; erewrite run_bind; [| reflexivity]; cbv beta zeta iota.

Lemma run_bind_inv {W A B} (m : M W A) (f : A → M W B) (w w' : W) (b : B) :
  (m ≫= f) w = (w', Ok b) → ∃ w1 a, m w = (w1, Ok a) ∧ f a w1 = (w', Ok b).
Proof.
  unfold mbind, M_bind. destruct (m w) as [w1 [a|e]]; [eauto | discriminate].
Qed.

Lemma run_try_ok {W A} (m handler : M W A) (w w' : W) (a : A) :
  m w = (w', Ok a) → try_except m handler w = (w', Ok a).
Proof. intros H. unfold try_except. by rewrite H. Qed.

Lemma run_try_raise {W A} (m handler : M W A) (w w' : W) (e : exn) :
  m w = (w', Raise e) → try_except m handler w = handler w'.
Proof. intros H. unfold try_except. by rewrite H. Qed.

(** ** Strings *)

Lemma string_length_app (s t : string) :
  String.length (s ++ t) = (String.length s + String.length t)%nat.
Proof. induction s as [|c s IH]; simpl; [done|]. by rewrite IH. Qed.

Lemma string_app_inj_r (s1 s2 t : string) : s1 ++ t = s2 ++ t → s1 = s2.
Proof.
  revert s2. induction s1 as [|c s1 IH]; intros [|c2 s2] H; simpl in H.
  - done.
  - apply (f_equal String.length) in H.
    rewrite !string_length_app in H. simpl in H. lia.
  - apply (f_equal String.length) in H.
    rewrite !string_length_app in H. simpl in H. lia.
  - injection H as -> H. f_equal. by apply IH.
Qed.

Lemma endswith_app (s suf : string) : endswith suf (s ++ suf) = true.
Proof.
  induction s as [|c s IH]; simpl.
  - destruct suf; simpl; [done|]. rewrite Ascii.eqb_refl, String.eqb_refl. done.
  - rewrite IH. apply orb_true_r.
Qed.

Lemma endswith_app_r (a b suf : string) :
  endswith suf b = true → endswith suf (a ++ b) = true.
Proof.
  intros Hb. induction a as [|c a IH]; simpl; [done|].
  rewrite IH. apply orb_true_r.
Qed.

End PyFacts.

(* ===================================================================== *)
(** * Properties of the feature pipeline *)
(* ===================================================================== *)

Module FeaturesSpec.
Import Py PyStr PyFacts Features.

Lemma take_at_spec {A} (a : list A) (idx : list nat) (r : list A) :
  take_at a idx = Ok r → Forall2 (λ i x, a !! i = Some x) idx r.
Proof.
  intros H. apply mapM_Ok_inv in H.
  eapply Forall2_impl; [exact H|].
  intros i x Hx. simpl in Hx. destruct (a !! i); [by injection Hx as -> | discriminate].
Qed.

Lemma hstack_Ok_inv {A} (arrays : list (list A)) (r : list A) :
  hstack arrays = Ok r → r = concat arrays.
Proof. destruct arrays; [discriminate|]. by intros [= <-]. Qed.

Lemma npy_name_path (r name : string) :
  npy_name (r ++ "/" ++ name ++ ".npy") = r ++ "/" ++ name ++ ".npy".
Proof.
  unfold npy_name. rewrite endswith_app_r; [done|].
  apply endswith_app_r, endswith_app.
Qed.

Lemma count_eq_snoc names x n :
  count_eq (names ++ [x]) n = (count_eq names n + (if decide (x = n) then 1 else 0))%nat.
Proof.
  unfold count_eq. rewrite filter_app, length_app. f_equal.
  rewrite filter_cons, filter_nil. by destruct (decide (x = n)).
Qed.

Lemma count_eq_nil n : count_eq [] n = 0%nat.
Proof. done. Qed.

(** Changing a summand at one point of a duplicate-free list. *)
Lemma sumZ_update (f g : string → Z) (ls : list string) (x : string) :
  NoDup ls → x ∈ ls → (∀ n, n ≠ x → g n = f n) →
  sumZ (g <$> ls) = (sumZ (f <$> ls) + (g x - f x))%Z.
Proof.
  intros Hnd Hx Hfg. induction Hnd as [|y ls Hy Hnd IH]; [by apply elem_of_nil in Hx|].
  csimpl. destruct (decide (y = x)) as [->|Hne].
  - assert (sumZ (g <$> ls) = sumZ (f <$> ls)) as ->; [|lia].
    f_equal. apply list_fmap_ext. intros i n Hn. apply Hfg.
    intros ->. apply Hy. by eapply list_elem_of_lookup_2.
  - rewrite (Hfg y Hne). apply elem_of_cons in Hx as [->|Hx]; [done|].
    rewrite (IH Hx). lia.
Qed.

Lemma sumZ_zero (f : string → Z) (ls : list string) :
  (∀ n, n ∈ ls → f n = 0%Z) → sumZ (f <$> ls) = 0%Z.
Proof.
  induction ls as [|y ls IH]; intros H; csimpl; [done|].
  rewrite H by (by left). rewrite IH; [done|]. intros n Hn. apply H. by right.
Qed.

(** ** The selection of the loader *)

Section Keep.
Context {float : Type}.
Implicit Types (self : @Features float) (names : list string).

Lemma keep_fold self names ligands (l : list nat) (acc : list nat) :
  fold_left (λ keep i, if keep_test self names ligands i then (keep ++ [i])%list else keep) l acc
  = (acc ++ filter (λ i, keep_test self names ligands i = true) l)%list.
Proof.
  revert acc. induction l as [|i l IH]; intros acc; simpl.
  - by rewrite app_nil_r.
  - rewrite IH. destruct (keep_test self names ligands i) eqn:E.
    + rewrite filter_cons_True by done. by rewrite <- app_assoc.
    + rewrite filter_cons_False; [done|]. by rewrite E.
Qed.

Lemma keep_indices_filter self names ligands :
  keep_indices self names ligands
  = filter (λ i, keep_test self names ligands i = true) (seq 0 (length names)).
Proof. unfold keep_indices. by rewrite keep_fold. Qed.

Lemma keep_test_true self names ligands i :
  keep_test self names ligands i = true ↔
  ∃ n, names !! i = Some n
       ∧ (ligands = None ∨ ∃ ls, ligands = Some ls ∧ n ∈ ls)
       ∧ (Z.of_nat (count_eq (take i names) n) < max_poses self)%Z.
Proof.
  unfold keep_test. destruct (names !! i) as [n|]; [|split; [discriminate | by intros (? & ? & _)]].
  rewrite andb_true_iff, bool_decide_eq_true. split.
  - intros [Hl Hc]. exists n. split; [done|]. split; [|done].
    destruct ligands as [ls|]; [right | by left].
    exists ls. split; [done|]. by apply bool_decide_eq_true in Hl.
  - intros (n' & [= <-] & Hl & Hc). split; [|done].
    destruct Hl as [-> | (ls & -> & Hin)]; [done|]. by apply bool_decide_eq_true.
Qed.

Lemma elem_of_keep_indices self names ligands i :
  i ∈ keep_indices self names ligands ↔
  ∃ n, names !! i = Some n
       ∧ (ligands = None ∨ ∃ ls, ligands = Some ls ∧ n ∈ ls)
       ∧ (Z.of_nat (count_eq (take i names) n) < max_poses self)%Z.
Proof.
  rewrite keep_indices_filter, list_elem_of_filter, keep_test_true.
  split; [by intros [? _]|]. intros H. split; [done|].
  destruct H as (n & Hn & _). apply elem_of_seq. apply lookup_lt_Some in Hn. lia.
Qed.

Lemma filter_seq_sorted (P : nat → Prop) `{∀ i, Decision (P i)} (j n : nat) :
  StronglySorted lt (filter P (seq j n)).
Proof.
  revert j. induction n as [|n IH]; intros j; simpl; [constructor|].
  rewrite filter_cons. destruct (decide (P j)); [|apply IH].
  constructor; [apply IH|].
  apply Forall_forall. intros k Hk. apply list_elem_of_filter in Hk as [_ Hk].
  apply elem_of_seq in Hk. lia.
Qed.

Lemma keep_indices_sorted self names ligands :
  StronglySorted lt (keep_indices self names ligands).
Proof. rewrite keep_indices_filter. apply filter_seq_sorted. Qed.

End Keep.

Section Count.
Context {float : Type}.
Implicit Types (self : @Features float) (names : list string).

Lemma filter_length_ext (P Q : nat → Prop) `{∀ i, Decision (P i)} `{∀ i, Decision (Q i)}
    (l : list nat) :
  (∀ i, i ∈ l → P i ↔ Q i) → filter P l = filter Q l.
Proof.
  induction l as [|i l IH]; intros Hext; [done|].
  rewrite !filter_cons.
  assert (filter P l = filter Q l) as -> by (apply IH; intros; apply Hext; by right).
  destruct (decide (P i)) as [HP|HP], (decide (Q i)) as [HQ|HQ]; try done.
  - exfalso. apply HQ, Hext; [by left | done].
  - exfalso. apply HP, Hext; [by left | done].
Qed.

Lemma keep_test_snoc_old self names x i :
  (i < length names)%nat →
  keep_test self (names ++ [x]) None i = keep_test self names None i.
Proof.
  intros Hi. unfold keep_test.
  rewrite lookup_app_l by done. destruct (names !! i); [|done].
  by rewrite take_app_le by lia.
Qed.

Lemma keep_test_snoc_new self names x :
  keep_test self (names ++ [x]) None (length names)
  = bool_decide (Z.of_nat (count_eq names x) < max_poses self)%Z.
Proof.
  unfold keep_test. rewrite lookup_app_r by done.
  rewrite Nat.sub_diag. simpl.
  by rewrite take_app_length.
Qed.

Lemma keep_indices_snoc self names x :
  keep_indices self (names ++ [x]) None
  = (keep_indices self names None ++
    (if bool_decide (Z.of_nat (count_eq names x) < max_poses self)%Z then [length names] else []))%list.
Proof.
  rewrite !keep_indices_filter, length_app. simpl.
  rewrite Nat.add_1_r, seq_S, filter_app. simpl. f_equal.
  - apply filter_length_ext. intros i Hi. apply elem_of_seq in Hi.
    rewrite keep_test_snoc_old by lia. done.
  - rewrite filter_cons, filter_nil, keep_test_snoc_new.
    destruct (bool_decide _) eqn:E.
    + by rewrite decide_True.
    + by rewrite decide_False.
Qed.

Lemma keep_indices_length_sum self names (ls : list string) :
  (0 ≤ max_poses self)%Z → NoDup ls → names ⊆ ls →
  Z.of_nat (length (keep_indices self names None))
  = sumZ ((λ n, Z.min (Z.of_nat (count_eq names n)) (max_poses self)) <$> ls).
Proof.
  intros Hcap Hnd. induction names as [|x names IH] using rev_ind; intros Hsub.
  - rewrite sumZ_zero; [done|]. intros n _. rewrite count_eq_nil. lia.
  - rewrite keep_indices_snoc, length_app, Nat2Z.inj_add.
    rewrite IH by (intros n Hn; apply Hsub, elem_of_app; by left).
    rewrite (sumZ_update
               (λ n, Z.min (Z.of_nat (count_eq names n)) (max_poses self))
               (λ n, Z.min (Z.of_nat (count_eq (names ++ [x]) n)) (max_poses self))
               ls x Hnd).
    + f_equal. rewrite count_eq_snoc, decide_True by done.
      case_bool_decide; simpl; lia.
    + apply Hsub, elem_of_app. right. by left.
    + intros n Hne. rewrite count_eq_snoc, decide_False by done.
      by rewrite Nat.add_0_r.
Qed.

Lemma keep_indices_length self names :
  (0 ≤ max_poses self)%Z →
  Z.of_nat (length (keep_indices self names None)) = capped_count (max_poses self) names.
Proof.
  intros Hcap. unfold capped_count. apply keep_indices_length_sum; [done| |].
  - apply NoDup_remove_dups.
  - intros n Hn. by apply elem_of_remove_dups.
Qed.
End Count.

Section Loader.
Context {float : Type}.
Implicit Types (self : @Features float) (names : list string) (L : @loaded float)
  (src : @source float) (store : gmap string (@file float)).

Lemma select_source_spec self ligands src L :
  select_source self ligands src = Ok L →
  rows_at src (keep_indices self (s_names src) ligands) L.
Proof.
  unfold select_source. intros H. bind_inv H. injection H as <-. simpl.
  repeat split; by apply take_at_spec.
Qed.

Lemma load_source_spec self store ligands pv L :
  load_source self store ligands pv = Ok L →
  ∃ src, read_source self store pv = Ok src
         ∧ rows_at src (keep_indices self (s_names src) ligands) L.
Proof.
  unfold load_source. intros H. apply bind_Ok_inv in H as (src & Hsrc & H).
  exists src. split; [done|]. by apply select_source_spec.
Qed.

Lemma rows_at_same_lengths src keep L : rows_at src keep L → same_lengths L.
Proof.
  intros (Hr & Hg & Hp & Hn & Hi).
  apply Forall2_length in Hr, Hg, Hp, Hn, Hi. unfold same_lengths. lia.
Qed.

Lemma rows_at_lookup src keep L o :
  rows_at src keep L → (o < length (l_names L))%nat →
  ∃ i, keep !! o = Some i
       ∧ l_rmsds L !! o = s_rmsds src !! i
       ∧ l_gscores L !! o = s_gscores src !! i
       ∧ l_poses L !! o = s_poses src !! i
       ∧ l_names L !! o = s_names src !! i
       ∧ l_ifps L !! o = s_ifps src !! i.
Proof.
  intros (Hr & Hg & Hp & Hn & Hi) Ho.
  destruct (lookup_lt_is_Some_2 keep o) as [i Hk].
  { apply Forall2_length in Hn. lia. }
  exists i. split; [done|].
  repeat split.
  - destruct (Forall2_lookup_l _ _ _ _ _ Hr Hk) as (x & -> & ->). done.
  - destruct (Forall2_lookup_l _ _ _ _ _ Hg Hk) as (x & -> & ->). done.
  - destruct (Forall2_lookup_l _ _ _ _ _ Hp Hk) as (x & -> & ->). done.
  - destruct (Forall2_lookup_l _ _ _ _ _ Hn Hk) as (x & -> & ->). done.
  - destruct (Forall2_lookup_l _ _ _ _ _ Hi Hk) as (x & -> & ->). done.
Qed.

(** Position [j] of the merged sequences is position [o] of one part, the same
    part and position for all five. *)
Lemma concat_lookup_aligned (parts : list (@loaded float)) (j : nat) :
  Forall same_lengths parts →
  (j < length (concat (l_names <$> parts)))%nat →
  ∃ p L o, parts !! p = Some L ∧ (o < length (l_names L))%nat
    ∧ concat (l_rmsds <$> parts) !! j = l_rmsds L !! o
    ∧ concat (l_gscores <$> parts) !! j = l_gscores L !! o
    ∧ concat (l_poses <$> parts) !! j = l_poses L !! o
    ∧ concat (l_names <$> parts) !! j = l_names L !! o
    ∧ concat (l_ifps <$> parts) !! j = l_ifps L !! o.
Proof.
  intros Hall. revert j. induction Hall as [|L parts HL Hall IH]; intros j Hj; csimpl in *.
  { lia. }
  destruct HL as (Hr & Hg & Hp & Hi).
  destruct (decide (j < length (l_names L))%nat) as [Hlt|Hge].
  - exists 0%nat, L, j. split; [done|]. split; [done|].
    rewrite !lookup_app_l by lia. done.
  - rewrite length_app in Hj.
    destruct (IH (j - length (l_names L))%nat) as (p & L' & o & HL' & Ho & E1 & E2 & E3 & E4 & E5); [lia|].
    exists (S p), L', o. split; [done|]. split; [done|].
    rewrite !lookup_app_r by lia.
    rewrite Hr, Hg, Hp, Hi. done.
Qed.

Lemma concat_same_lengths (parts : list (@loaded float)) :
  Forall same_lengths parts →
  same_lengths {| l_rmsds := concat (l_rmsds <$> parts);
                  l_gscores := concat (l_gscores <$> parts);
                  l_poses := concat (l_poses <$> parts);
                  l_names := concat (l_names <$> parts);
                  l_ifps := concat (l_ifps <$> parts) |}.
Proof.
  unfold same_lengths. simpl.
  induction 1 as [|L parts (Hr & Hg & Hp & Hi) _ IH]; csimpl; [done|].
  rewrite !length_app. lia.
Qed.

Lemma load_single_features_parts self store pvs ligands L :
  load_single_features self store pvs ligands = Ok L →
  ∃ parts, Forall2 (λ pv part, load_source self store ligands pv = Ok part) pvs parts
    ∧ L = {| l_rmsds := concat (l_rmsds <$> parts);
             l_gscores := concat (l_gscores <$> parts);
             l_poses := concat (l_poses <$> parts);
             l_names := concat (l_names <$> parts);
             l_ifps := concat (l_ifps <$> parts) |}.
Proof.
  unfold load_single_features. intros H.
  apply bind_Ok_inv in H as (parts & Hparts & H).
  apply bind_Ok_inv in H as (r & Hr & H).
  apply bind_Ok_inv in H as (n & Hn & H).
  apply bind_Ok_inv in H as (g & Hg & H).
  apply hstack_Ok_inv in Hr, Hn, Hg. subst. injection H as <-.
  exists parts. split; [|done]. by apply mapM_Ok_inv.
Qed.

Lemma parts_same_lengths self store pvs ligands (parts : list (@loaded float)) :
  Forall2 (λ pv part, load_source self store ligands pv = Ok part) pvs parts →
  Forall same_lengths parts.
Proof.
  induction 1 as [|pv part pvs parts H _ IH]; constructor; [|done].
  apply load_source_spec in H as (src & _ & H). by eapply rows_at_same_lengths.
Qed.

Lemma load_single_features_lengths self store pvs ligands L :
  load_single_features self store pvs ligands = Ok L → same_lengths L.
Proof.
  intros H. apply load_single_features_parts in H as (parts & Hparts & ->).
  apply concat_same_lengths. by eapply parts_same_lengths.
Qed.

Lemma parts_total_length self store pvs (parts : list (@loaded float)) :
  (0 ≤ max_poses self)%Z →
  Forall2 (λ pv part, load_source self store None pv = Ok part) pvs parts →
  Z.of_nat (length (concat (l_names <$> parts)))
  = sumZ ((λ pv, capped_count (max_poses self) (stored_names self store pv)) <$> pvs).
Proof.
  intros Hcap. induction 1 as [|pv part pvs parts H _ IH]; csimpl; [done|].
  rewrite length_app, Nat2Z.inj_add, IH. f_equal.
  apply load_source_spec in H as (src & Hsrc & (_ & _ & _ & Hn & _)).
  unfold stored_names. rewrite Hsrc.
  apply Forall2_length in Hn. rewrite <- Hn.
  by apply keep_indices_length.
Qed.

(** The selection of one turn of the loop of [load_single_features]. *)
Lemma load_source_selection self store ligands pv L :
  load_source self store ligands pv = Ok L →
  ∃ src,
    read_source self store pv = Ok src ∧
    let keep := keep_indices self (s_names src) ligands in
    (∀ i, i ∈ keep ↔
          ∃ n, s_names src !! i = Some n
               ∧ (ligands = None ∨ ∃ ls, ligands = Some ls ∧ n ∈ ls)
               ∧ (Z.of_nat (count_eq (take i (s_names src)) n) < max_poses self)%Z)
    ∧ StronglySorted lt keep
    ∧ rows_at src keep L.
Proof.
  intros H. apply load_source_spec in H as (src & Hsrc & Hrows).
  exists src. split; [done|]. simpl. split; [|split; [|done]].
  - intros i. apply elem_of_keep_indices.
  - apply keep_indices_sorted.
Qed.

(** C3.  Whenever [load_single_features] returns, what it returns is, source
    by source in the order given, the entries at the retained positions of
    the source.  The pose at position [i] of a source is retained if and only
    if its name in the source's name array is in the ligand filter, or no
    filter was given, and strictly fewer than [max_poses] earlier positions
    of the same source hold the same name.  The retained positions stay in
    file order, and each of the five outputs holds the entries at exactly
    these positions. *)
Theorem load_single_features_keeps_first_per_ligand self store pvs ligands L :
  load_single_features self store pvs ligands = Ok L →
  ∃ parts,
    Forall2
      (λ pv part,
         ∃ src,
           read_source self store pv = Ok src ∧
           let keep := keep_indices self (s_names src) ligands in
           (∀ i, i ∈ keep ↔
                 ∃ n, s_names src !! i = Some n
                      ∧ (ligands = None ∨ ∃ ls, ligands = Some ls ∧ n ∈ ls)
                      ∧ (Z.of_nat (count_eq (take i (s_names src)) n)
                         < max_poses self)%Z)
           ∧ StronglySorted lt keep
           ∧ rows_at src keep part)
      pvs parts
    ∧ l_rmsds L = concat (l_rmsds <$> parts)
    ∧ l_gscores L = concat (l_gscores <$> parts)
    ∧ l_poses L = concat (l_poses <$> parts)
    ∧ l_names L = concat (l_names <$> parts)
    ∧ l_ifps L = concat (l_ifps <$> parts).
Proof.
  intros H. apply load_single_features_parts in H as (parts & Hparts & ->).
  exists parts. split; [|done].
  eapply Forall2_impl; [exact Hparts|].
  intros pv part Hload. by apply load_source_selection.
Qed.

(** C4.  Whenever [load_single_features] returns, its five sequences have
    the same length and are aligned: position [j] of each holds the entry of
    one and the same retained position [i] of one and the same source.
    Without a ligand filter, and for a cap that is not negative, that length
    is the sum, over the sources and over the distinct names of each source's
    name array, of [min(number of occurrences, max_poses)]. *)
Theorem load_single_features_aligned self store pvs ligands L :
  load_single_features self store pvs ligands = Ok L →
  (length (l_rmsds L) = length (l_names L)
   ∧ length (l_gscores L) = length (l_names L)
   ∧ length (l_poses L) = length (l_names L)
   ∧ length (l_ifps L) = length (l_names L))
  ∧ (∀ j, (j < length (l_names L))%nat →
       ∃ pv src i,
         pv ∈ pvs ∧ read_source self store pv = Ok src
         ∧ i ∈ keep_indices self (s_names src) ligands
         ∧ is_Some (l_names L !! j)
         ∧ l_rmsds L !! j = s_rmsds src !! i
         ∧ l_gscores L !! j = s_gscores src !! i
         ∧ l_poses L !! j = s_poses src !! i
         ∧ l_names L !! j = s_names src !! i
         ∧ l_ifps L !! j = s_ifps src !! i)
  ∧ (ligands = None → (0 ≤ max_poses self)%Z →
     Z.of_nat (length (l_names L))
     = sumZ ((λ pv, capped_count (max_poses self) (stored_names self store pv)) <$> pvs)).
Proof.
  intros H. split; [by eapply load_single_features_lengths|].
  apply load_single_features_parts in H as (parts & Hparts & ->). simpl. split.
  - intros j Hj.
    destruct (concat_lookup_aligned parts j) as (p & part & o & Hp & Ho & E1 & E2 & E3 & E4 & E5);
      [by eapply parts_same_lengths | done |].
    destruct (Forall2_lookup_r _ _ _ _ _ Hparts Hp) as (pv & Hpv & Hload).
    apply load_source_spec in Hload as (src & Hsrc & Hrows).
    destruct (rows_at_lookup _ _ _ o Hrows Ho) as (i & Hi & F1 & F2 & F3 & F4 & F5).
    exists pv, src, i.
    split; [by eapply list_elem_of_lookup_2|]. split; [done|].
    split; [by eapply list_elem_of_lookup_2|].
    split; [by apply lookup_lt_is_Some_2|].
    rewrite E1, E2, E3, E4, E5. done.
  - intros -> Hcap. by eapply parts_total_length.
Qed.

End Loader.

(** ** Names *)

Section Names.
Context {float : Type}.
Implicit Types (self : @Features float) (w : @world float).

Lemma name_loop_spec self d (sts : list pose) (k : nat) (acc : list string) :
  length acc = k →
  Forall (λ st, is_Some (props st !! "_Name")) sts →
  name_loop self d (imap (λ i st, ((k + i)%nat, st)) sts) acc
  = Ok (acc ++ imap (λ i, name_entry d (k + i))
               (if bool_decide (Z.of_nat k < max_poses self)%Z
                then take (Z.to_nat (max_poses self) - k) sts else sts))%list.
Proof.
  intros Hk Hall. revert k acc Hk.
  induction Hall as [|st sts [n Hn] Hall IH]; intros k acc Hk.
  - rewrite take_nil. destruct (bool_decide _); simpl; by rewrite app_nil_r.
  - cbn [imap name_loop]. unfold GetProp. rewrite Hn. cbn [or_raise mbind result_bind].
    rewrite length_app. cbn [length]. rewrite Nat.add_0_r, Hk.
    assert (name_entry d k st = n ++ "_" ++ str_of_nat k ++ "-to-" ++ d) as Hentry.
    { unfold name_entry, pose_name. by rewrite Hn. }
    rewrite <- Hentry.
    case_bool_decide as Hbreak.
    + assert (Z.of_nat k < max_poses self)%Z as Hlt by lia.
      rewrite (bool_decide_eq_true_2 _ Hlt).
      rewrite <- Hbreak, Nat2Z.id.
      replace (k + 1 - k)%nat with 1%nat by lia.
      cbn [take imap]. rewrite take_0. cbn [imap]. by rewrite Nat.add_0_r.
    + rewrite (imap_ext _ (λ i st, ((S k + i)%nat, st))) by (intros i x _; simpl; f_equal; lia).
      rewrite (IH (S k)) by (rewrite length_app; simpl; lia).
      rewrite <- app_assoc. f_equal. f_equal.
      destruct (decide (Z.of_nat k < max_poses self)%Z) as [Hlt|Hge].
      * assert (Z.of_nat (S k) < max_poses self)%Z as Hlt' by lia.
        rewrite (bool_decide_eq_true_2 _ Hlt), (bool_decide_eq_true_2 _ Hlt').
        replace (Z.to_nat (max_poses self) - k)%nat
          with (S (Z.to_nat (max_poses self) - S k)) by lia.
        cbn [take imap]. rewrite Nat.add_0_r. f_equal.
        apply imap_ext. intros i x _. simpl. f_equal. lia.
      * assert (¬ (Z.of_nat (S k) < max_poses self)%Z) as Hge' by lia.
        rewrite (bool_decide_eq_false_2 _ Hge), (bool_decide_eq_false_2 _ Hge').
        cbn [imap]. rewrite Nat.add_0_r. f_equal.
        apply imap_ext. intros i x _. simpl. f_equal. lia.
Qed.

Lemma name_loop_all self d (sts : list pose) :
  Forall (λ st, is_Some (props st !! "_Name")) sts →
  name_loop self d (imap pair sts) [] = Ok (imap (name_entry d) (named_poses self sts)).
Proof.
  intros Hall.
  change (imap pair sts) with (imap (λ i st, ((0 + i)%nat, st)) sts).
  rewrite (name_loop_spec self d sts 0 [] eq_refl Hall). cbn [app].
  unfold named_poses. rewrite Nat.sub_0_r.
  destruct (decide (1 ≤ max_poses self)%Z) as [H1|H1].
  - assert (Z.of_nat 0 < max_poses self)%Z as H0 by lia.
    by rewrite (bool_decide_eq_true_2 _ H1), (bool_decide_eq_true_2 _ H0).
  - assert (¬ (Z.of_nat 0 < max_poses self)%Z) as H0 by lia.
    by rewrite (bool_decide_eq_false_2 _ H1), (bool_decide_eq_false_2 _ H0).
Qed.

(** C2, amended.  For a pose source whose structures all have a title,
    [compute_name] saves one identity string per structure it gets to (all of
    them, or the first [max_poses] when the cap is positive), of the form
    [<title>_<idx>-to-<docked-to>] where [<idx>] is the 0-based position of
    the structure in the source: the rank runs over the whole source and does
    not restart at a new ligand. *)
Theorem compute_name_writes_source_positions self pv out w sts :
  fs w !! pv = Some (SdfGz sts) →
  Forall (λ st, is_Some (props st !! "_Name")) sts →
  let names := imap (name_entry (docked_to_of pv)) (named_poses self sts) in
  compute_name self pv out w
  = ({| fs := <[npy_name out := Npy (ArrS names)]> (fs w);
        trace := (trace w ++ [CallName pv out; Saved out (ArrS names)])%list |},
     Ok tt).
Proof.
  intros Hpv Hall names.
  pose proof (name_loop_all self (docked_to_of pv) sts Hall) as Hloop.
  unfold compute_name. step.
  erewrite run_bind; [| unfold read, read_sdf; cbn [fs]; rewrite Hpv; reflexivity].
  erewrite run_bind; [| unfold lift; rewrite Hloop; reflexivity].
  unfold np_save. step. unfold emit, modify. cbn [fs trace].
  by rewrite <- app_assoc.
Qed.

End Names.

(** ** Reference RMSDs, and the constructor *)

Section Rmsd.
Context {float : Type}.
Variable float_of_string : string → option float.
Variable obrms : gmap string (@file float) → string → string → result string.
Implicit Types (self : @Features float) (w : @world float).

Local Abbreviation compute_rmsd := (compute_rmsd float_of_string obrms).

Lemma run_read_lift {A B} (g : gmap string (@file float) → result A)
    (h : A → result B) w :
  (read g ≫= λ o, lift (h o)) w = (w, g (fs w) ≫= h).
Proof.
  unfold read, lift, mbind at 1, M_bind. by destruct (g (fs w)).
Qed.

(** C6.  For a pose source whose ligand name, read off its file name, has no
    entry in the reference table, [compute_rmsd] saves an array of exactly
    [max_poses] copies of [-1] (for a cap that is not negative), after
    printing the name twice. *)
Theorem compute_rmsd_without_reference self pv native_poses out w :
  native_poses !! rmsd_name pv = None →
  (0 ≤ max_poses self)%Z →
  let rmsds := replicate (Z.to_nat (max_poses self)) (NInt (-1)) in
  compute_rmsd self pv native_poses out w
  = ({| fs := <[npy_name out := Npy (Arr1 rmsds)]> (fs w);
        trace := (trace w ++ [CallRmsd pv out; Printed (rmsd_name pv);
                              Printed (rmsd_name pv); Saved out (Arr1 rmsds)])%list |},
     Ok tt)
  ∧ Z.of_nat (length rmsds) = max_poses self
  ∧ Forall (λ x, x = NInt (-1)) rmsds.
Proof.
  intros Hnone Hcap rmsds. split; [|split].
  - unfold Features.compute_rmsd. step. step. rewrite Hnone. step.
    unfold np_save. step. unfold emit, modify. cbn [fs trace].
    by rewrite <- !app_assoc.
  - unfold rmsds. rewrite length_replicate. lia.
  - apply Forall_replicate. done.
Qed.

(** What [compute_rmsd] does when the [try] block raises. *)
Lemma compute_rmsd_try_fails self pv native_poses out w native e :
  native_poses !! rmsd_name pv = Some native →
  (obrms (fs w) native pv ≫= parse_rmsds float_of_string) = Raise e →
  compute_rmsd self pv native_poses out w
  = ({| fs := <[npy_name out := Npy (Arr1 [])]> (fs w);
        trace := (trace w ++ [CallRmsd pv out; Printed (rmsd_name pv);
                              Printed ("RMSD failed for " ++ rmsd_name pv);
                              Saved out (Arr1 [])])%list |},
     Ok tt).
Proof.
  intros Hnative Hfail.
  unfold Features.compute_rmsd. step. step. rewrite Hnative. cbv beta iota.
  erewrite run_bind.
  2:{ erewrite run_try_raise.
      - step. reflexivity.
      - rewrite run_read_lift. cbn [fs]. rewrite Hfail. reflexivity. }
  unfold np_save. step. unfold emit, modify. cbn [fs trace].
  by rewrite <- !app_assoc.
Qed.
End Rmsd.

Section Init.
Context {float : Type}.
Variable abspath : string → string.
Variable environ : gmap string string.

(** C9, amended.  On an instance constructed with an explicit [pv_root], the
    attribute [pv_root] is never assigned, and every call of [path] with
    [base] unset raises an attribute-lookup error; a call with [base] set
    returns [root/name] before the attribute is looked up. *)
Theorem init_with_pv_root_leaves_attribute_unset
    (root_arg iv sv mv : string) (cap : Z) (pvr : string) (feats : list string)
    (self : @Features float) :
  init abspath environ root_arg iv sv mv cap (Some pvr) feats = Ok self →
  pv_root self = None
  ∧ (∀ name pv pv2, path self name false pv pv2 = Raise AttributeError)
  ∧ (∀ name pv pv2, path self name true pv pv2 = Ok (root self ++ "/" ++ name)).
Proof.
  unfold init. intros H. apply bind_Ok_inv in H as (home & _ & H).
  injection H as <-. repeat split.
Qed.

End Init.

(** ** Feature View *)

Section View.
Context {float : Type}.
Implicit Types (self : @Features float) (data : gmap string (@view_dict float))
  (a : @ndarray float).

Lemma select_length {A} (l : list A) (mask : list bool) :
  length mask = length l → length (select l mask) = mask_sum mask.
Proof.
  unfold mask_sum. revert mask. induction l as [|x l IH]; intros [|b mask] Hlen; try done.
  simpl in Hlen. injection Hlen as Hlen. destruct b; cbn [select].
  - rewrite filter_cons_True by done. cbn [length]. by rewrite IH.
  - rewrite filter_cons_False by done. by rewrite IH.
Qed.

Lemma mask_positions_length (mask : list bool) :
  length (mask_positions mask) = mask_sum mask.
Proof. unfold mask_positions. apply select_length. by rewrite length_seq. Qed.

Lemma mask_array_length a mask b :
  mask_array a mask = Ok b → array_length b = mask_sum mask.
Proof.
  destruct a as [l|l|m]; simpl.
  - unfold mask_1d. destruct (Nat.eqb_spec (length mask) (length l)); [|discriminate].
    intros [= <-]. simpl. by apply select_length.
  - unfold mask_1d. destruct (Nat.eqb_spec (length mask) (length l)); [|discriminate].
    intros [= <-]. simpl. by apply select_length.
  - destruct (Nat.eqb_spec (length mask) (nrows m)); [|discriminate].
    intros [= <-]. simpl. apply mask_positions_length.
Qed.

Lemma mask_sum_names (names : list string) (ligand : string) :
  mask_sum ((λ n, bool_decide (n = ligand)) <$> names) = count_eq names ligand.
Proof.
  unfold mask_sum, count_eq. induction names as [|n names IH]; [done|].
  csimpl. rewrite !filter_cons. case_bool_decide as Hn.
  - rewrite decide_True by done. rewrite (decide_True (P:=n = ligand)) by done.
    simpl. by rewrite IH.
  - rewrite decide_False by done. rewrite (decide_False (P:=n = ligand)) by done. done.
Qed.

Lemma name_mask_inv self ligand mask :
  name_mask self ligand = Ok mask →
  ∃ names, raw self !! "name1" = Some (ArrS names)
           ∧ mask = (λ n, bool_decide (n = ligand)) <$> names.
Proof.
  unfold name_mask, raw_get. intros H.
  destruct (raw self !! "name1") as [[l|l|m]|]; try discriminate.
  injection H as <-. eauto.
Qed.

Lemma view_ligand_step self data ligand data' seen :
  ligands_viewed self seen data →
  view_ligand self data ligand = Ok data' →
  ligands_viewed self (ligand :: seen) data'.
Proof.
  intros (dg & dr & Hdg & Hdr & Hseen) H. unfold view_ligand in H.
  apply bind_Ok_inv in H as (mask & Hmask & H).
  destruct (Nat.eqb_spec (mask_sum mask) 0) as [|Hsum]; [discriminate|].
  cbn [mbind result_bind] in H.
  apply bind_Ok_inv in H as (g1 & Hg1 & H).
  apply bind_Ok_inv in H as (g & Hg & H).
  apply bind_Ok_inv in H as (r1 & Hr1 & H).
  apply bind_Ok_inv in H as (r & Hr & H).
  injection H as <-.
  exists (set_ligand ligand g dg), (set_ligand ligand r dr).
  split; [|split].
  - rewrite lookup_alter_ne by done. rewrite lookup_alter_eq, Hdg. done.
  - rewrite lookup_alter_eq. rewrite lookup_alter_ne by done. by rewrite Hdr.
  - intros l Hl. destruct (decide (l = ligand)) as [->|Hne].
    + exists mask, g, r. simpl. rewrite !lookup_insert_eq.
      repeat split; try done; by eapply mask_array_length.
    + apply elem_of_cons in Hl as [?|Hl]; [done|].
      destruct (Hseen l Hl) as (mask' & g' & r' & ? & ? & ? & ? & ? & ?).
      exists mask', g', r'. simpl. rewrite !lookup_insert_ne by done. done.
Qed.

Lemma view_ligand_fold self (ligands seen : list string) data data' :
  ligands_viewed self seen data →
  fold_result (view_ligand self) ligands data = Ok data' →
  ligands_viewed self (rev ligands ++ seen) data'.
Proof.
  revert seen data. induction ligands as [|l ligands IH]; intros seen data Hinv H.
  - injection H as <-. done.
  - cbn [fold_result] in H. apply bind_Ok_inv in H as (d1 & Hd1 & H).
    cbn [rev]. rewrite <- app_assoc. cbn [app].
    eapply IH; [|done]. by eapply view_ligand_step.
Qed.

(** The second loop only touches the dictionaries of the features. *)
Lemma view_pair_frame self feature data key data' k :
  view_pair self feature data key = Ok data' → k ≠ feature →
  data' !! k = data !! k.
Proof.
  unfold view_pair. intros H Hk. bind_inv H. injection H as <-.
  by rewrite lookup_alter_ne.
Qed.

Lemma view_pairs_frame self feature (keys : list (string * string)) data data' k :
  fold_result (view_pair self feature) keys data = Ok data' → k ≠ feature →
  data' !! k = data !! k.
Proof.
  revert data. induction keys as [|key keys IH]; intros data H Hk.
  - by injection H as <-.
  - cbn [fold_result] in H. apply bind_Ok_inv in H as (d1 & Hd1 & H).
    rewrite (IH _ H Hk). by eapply view_pair_frame.
Qed.

Lemma view_features_frame self ligands (features : list string) data data' k :
  fold_result (view_feature self ligands) features data = Ok data' →
  k ∉ features → data' !! k = data !! k.
Proof.
  revert data. induction features as [|f features IH]; intros data H Hk.
  - by injection H as <-.
  - cbn [fold_result] in H. apply bind_Ok_inv in H as (d1 & Hd1 & H).
    apply not_elem_of_cons in Hk as [Hne Hk].
    rewrite (IH _ H Hk). unfold view_feature in Hd1.
    rewrite (view_pairs_frame _ _ _ _ _ k Hd1 Hne).
    by rewrite lookup_insert_ne.
Qed.


End View.

(** ** Paths *)

Section Paths.
Context {float : Type}.
Implicit Types (self : @Features float).

Lemma path_of_plain self name :
  pv_root self = Some (root self ++ "/docking") → plain_name name →
  path_of self name = Ok (root self ++ "/" ++ name ++ ".npy").
Proof.
  intros Hpv (H1 & H2 & H3 & H4). unfold path_of, path. rewrite Hpv.
  cbn [or_raise mbind result_bind].
  rewrite (bool_decide_eq_false_2 (_ ≠ _)) by (intros H; by apply H).
  cbn [mbind result_bind].
  rewrite !bool_decide_eq_false_2 by done.
  case_bool_decide as Hs; [by subst|].
  case_bool_decide as Hm; [by subst|]. done.
Qed.

Lemma path_of_Ok_inv self name out :
  path_of self name = Ok out →
  plain_name name ∧ out = root self ++ "/" ++ name ++ ".npy".
Proof.
  unfold path_of, path. intros H.
  apply bind_Ok_inv in H as (pvr & _ & H).
  apply bind_Ok_inv in H as (u & _ & H).
  repeat (case_bool_decide; [discriminate|]).
  case_bool_decide as Hs; [|case_bool_decide as Hm];
    injection H as <-; (split; [by repeat split|]); by subst.
Qed.

End Paths.

(** ** Cache hits *)

Section Quiet.
Context {float : Type}.
Implicit Types (self : @Features float) (w : @world float) (e : @event float).

Lemma quiet_ret {A} (a : A) w : runs_quietly (mret a) w a.
Proof. exists []. split; [|constructor]. destruct w. cbn. by rewrite app_nil_r. Qed.

Lemma quiet_bind {A B} (m : M world A) (f : A → M world B) w a b :
  runs_quietly m w a →
  (∀ w', fs w' = fs w → runs_quietly (f a) w' b) →
  runs_quietly (m ≫= f) w b.
Proof.
  intros (evs1 & Hm & H1) Hf.
  destruct (Hf {| fs := fs w; trace := (trace w ++ evs1)%list |} eq_refl) as (evs2 & Hfa & H2).
  exists (evs1 ++ evs2)%list. split; [|by apply Forall_app].
  erewrite run_bind by exact Hm. rewrite Hfa. cbn [fs trace]. by rewrite app_assoc.
Qed.

Lemma quiet_emit e w : is_call e = false → runs_quietly (emit e) w tt.
Proof. intros He. exists [e]. split; [done|]. by constructor. Qed.

Lemma quiet_lift {A} (r : result A) w a : r = Ok a → runs_quietly (lift r) w a.
Proof. intros ->. apply (quiet_ret a). Qed.

Lemma quiet_read {A} (g : gmap string file → result A) w a :
  g (fs w) = Ok a → runs_quietly (read g) w a.
Proof.
  intros Hg. exists []. split; [|constructor]. unfold read. rewrite Hg.
  destruct w. cbn. by rewrite app_nil_r.
Qed.

Lemma quiet_exists p w :
  runs_quietly (exists_ p) w (bool_decide (is_Some (fs w !! p))).
Proof.
  exists []. split; [|constructor]. destruct w. cbn. by rewrite app_nil_r.
Qed.

Lemma quiet_np_save out a w :
  fs w !! npy_name out = Some (Npy a) → runs_quietly (np_save out a) w tt.
Proof.
  intros Hout. exists [Saved out a]. split; [|by constructor].
  unfold np_save. step. unfold emit, modify. cbn [fs trace].
  by rewrite insert_id.
Qed.

Lemma quiet_for_each {A} (xs : list A) (body : A → M world unit) w :
  (∀ x w', x ∈ xs → fs w' = fs w → runs_quietly (body x) w' tt) →
  runs_quietly (for_each xs body) w tt.
Proof.
  revert w. induction xs as [|x xs IH]; intros w Hbody; cbn [for_each].
  - apply (quiet_ret tt).
  - eapply quiet_bind.
    + apply Hbody; [by left | done].
    + intros w' Hw'. apply IH. intros y w'' Hy Hw''.
      apply Hbody; [by right | congruence].
Qed.

Lemma quiet_skip (m : M world unit) w : runs_quietly (when_not true m) w tt.
Proof. apply (quiet_ret tt). Qed.

End Quiet.

Section Cached.
Context {float : Type}.
Variable float_of_string : string → option float.
Variable abspath : string → string.
Variable obrms : gmap string (@file float) → string → string → result string.
Variable ifp_rows : ifp_settings → list pose → Z → list (@ifp_row).
Variable ifp_tanimoto :
  list (list ifp_row) → list (list ifp_row) → string → result (@matrix float).
Variable ifp_tanimoto_mp :
  list (list ifp_row) → list (list ifp_row) → string → Z → result (@matrix float).
Variable shape : list pose → list pose → string → result (@matrix float).
Variable mcss : list pose → list pose → string → result (@matrix float).
Variable mcss_mp : list pose → list pose → string → Z → result (@matrix float).
Implicit Types (self : @Features float) (w : @world float) (store : gmap string (@file float)).

Local Abbreviation compute_single_features :=
  (compute_single_features float_of_string abspath obrms ifp_rows).
Local Abbreviation compute_pair_features :=
  (compute_pair_features ifp_tanimoto ifp_tanimoto_mp shape mcss mcss_mp).

Lemma unless_cached_quiet self name pv compute w :
  (∃ out, path_pv self name pv = Ok out ∧ is_Some (fs w !! out)) →
  runs_quietly (unless_cached self name pv compute) w tt.
Proof.
  intros (out & Hout & Hsome). unfold unless_cached.
  eapply quiet_bind; [by apply quiet_lift|]. intros w1 Hw1.
  eapply quiet_bind; [apply quiet_exists|]. intros w2 Hw2.
  rewrite Hw1, bool_decide_eq_true_2 by done. apply quiet_skip.
Qed.

Lemma save_as_quiet self name a w :
  pv_root self = Some (root self ++ "/docking") → plain_name name →
  fs w !! (root self ++ "/" ++ name ++ ".npy") = Some (Npy a) →
  runs_quietly (save_as self name a) w tt.
Proof.
  intros Hpv Hname Hfile. unfold save_as.
  eapply quiet_bind; [apply quiet_lift; by apply path_of_plain|].
  intros w1 Hw1. apply quiet_np_save.
  by rewrite Hw1, npy_name_path.
Qed.

(** C1.  Calling an extractor when its artifacts are cached changes no file
    and starts no feature computation.  For [compute_single_features]: the
    four artifacts of every source exist.  For [compute_pair_features]: the
    merged arrays on disk are those the loader yields (as a call saves them)
    and the matrices of the requested families exist; the merged arrays
    are saved again, with the content they already have. *)
Theorem cached_features_are_not_recomputed self w :
  (∀ pvs native_poses flat,
     flatten_pvs pvs = Ok flat →
     Forall (λ pv, single_cached self (fs w) (abspath pv)) flat →
     ∃ evs,
       compute_single_features self pvs native_poses w
       = ({| fs := fs w; trace := (trace w ++ evs)%list |}, Ok tt)
       ∧ Forall (λ e, is_call e = false) evs)
  ∧
  (∀ pvs pvs2 ifp shape mcss processes c1,
     pv_root self = Some (root self ++ "/docking") →
     load_single_features self (fs w) pvs None = Ok c1 →
     merged_cached self (fs w) "1" c1 →
     (∀ p2, pvs2 = Some p2 →
        ∃ c2, load_single_features self (fs w) p2 None = Ok c2
              ∧ merged_cached self (fs w) "2" c2) →
     pair_cached self (fs w) ifp shape mcss →
     ∃ evs,
       compute_pair_features self pvs pvs2 ifp shape mcss processes w
       = ({| fs := fs w; trace := (trace w ++ evs)%list |}, Ok tt)
       ∧ Forall (λ e, is_call e = false) evs).
Proof.
  split.
  - intros pvs native_poses flat Hflat Hcached.
    change (runs_quietly (compute_single_features self pvs native_poses) w tt).
    unfold Features.compute_single_features.
    assert (∀ name compute w',
              name ∈ ["gscore"; "name"; "rmsd"; "ifp"] → fs w' = fs w →
              runs_quietly
                (for_each (abspath <$> flat) (λ pv, unless_cached self name pv compute)) w' tt)
      as Hloop.
    { intros name compute w' Hname Hw'. apply quiet_for_each.
      intros pv w'' Hpv Hw''. apply unless_cached_quiet.
      apply list_elem_of_fmap in Hpv as (pv0 & -> & Hpv0).
      rewrite Forall_forall in Hcached. rewrite Hw'', Hw'. by apply Hcached. }
    eapply quiet_bind; [by apply quiet_lift|]. intros w1 Hw1.
    eapply quiet_bind; [by apply quiet_emit|]. intros w2 Hw2.
    eapply quiet_bind; [apply (Hloop "gscore"); [set_solver | congruence]|]. intros w3 Hw3.
    eapply quiet_bind; [by apply quiet_emit|]. intros w4 Hw4.
    eapply quiet_bind; [apply (Hloop "name"); [set_solver | congruence]|]. intros w5 Hw5.
    eapply quiet_bind; [by apply quiet_emit|]. intros w6 Hw6.
    eapply quiet_bind.
    { apply (Hloop "rmsd" (λ pv out, Features.compute_rmsd float_of_string obrms self pv native_poses out));
        [set_solver | congruence]. }
    intros w7 Hw7.
    eapply quiet_bind; [by apply quiet_emit|]. intros w8 Hw8.
    apply (Hloop "ifp"); [set_solver | congruence].
  - intros pvs pvs2 ifp0 shape0 mcss0 processes c1 Hpv Hc1 (Hr1 & Hg1 & Hn1) Hc2 (Hifp & Hshape & Hmcss).
    change (runs_quietly (compute_pair_features self pvs pvs2 ifp0 shape0 mcss0 processes) w tt).
    unfold Features.compute_pair_features.
    eapply quiet_bind; [apply (quiet_ret tt)|]. intros w1 Hw1.
    eapply quiet_bind; [apply quiet_read; by rewrite Hw1|]. intros w2 Hw2.
    eapply quiet_bind; [apply save_as_quiet; [done | by repeat split | by rewrite Hw2, Hw1]|].
    intros w3 Hw3.
    eapply quiet_bind; [apply save_as_quiet; [done | by repeat split | by rewrite Hw3, Hw2, Hw1]|].
    intros w4 Hw4.
    eapply quiet_bind; [apply save_as_quiet; [done | by repeat split | by rewrite Hw4, Hw3, Hw2, Hw1]|].
    intros w5 Hw5.
    assert (fs w5 = fs w) as E5 by congruence.
    eapply (quiet_bind _ _ _ (match pvs2 with None => c1 | Some p2 =>
              match load_single_features self (fs w) p2 None with Ok c2 => c2 | Raise _ => c1 end end)).
    { destruct pvs2 as [p2|]; [|apply (quiet_ret c1)].
      destruct (Hc2 p2 eq_refl) as (c2 & Hload2 & Hr2 & Hg2 & Hn2). rewrite Hload2.
      eapply quiet_bind; [apply quiet_read; by rewrite E5|]. intros v1 Hv1.
      eapply quiet_bind; [apply save_as_quiet; [done | by repeat split | by rewrite Hv1, E5]|].
      intros v2 Hv2.
      eapply quiet_bind; [apply save_as_quiet; [done | by repeat split | by rewrite Hv2, Hv1, E5]|].
      intros v3 Hv3.
      eapply quiet_bind; [apply save_as_quiet; [done | by repeat split | by rewrite Hv3, Hv2, Hv1, E5]|].
      intros v4 Hv4. apply (quiet_ret c2). }
    intros w6 Hw6. assert (fs w6 = fs w) as E6 by congruence.
    set (c2 := match pvs2 with None => c1 | Some _ => _ end). clearbody c2.
    eapply quiet_bind.
    { destruct ifp0; cbn [when_]; [|apply (quiet_ret tt)].
      eapply quiet_bind; [by apply quiet_emit|]. intros v1 Hv1.
      apply quiet_for_each. intros feature v2 Hf Hv2.
      destruct (Hifp eq_refl feature Hf) as (out & Hout & Hsome).
      eapply quiet_bind; [by apply quiet_lift|]. intros v3 Hv3.
      eapply quiet_bind; [apply quiet_exists|]. intros v4 Hv4.
      rewrite bool_decide_eq_true_2 by (by rewrite Hv3, Hv2, Hv1, E6).
      apply quiet_skip. }
    intros w7 Hw7. assert (fs w7 = fs w) as E7 by congruence.
    eapply quiet_bind.
    { destruct shape0; cbn [when_]; [|apply (quiet_ret tt)].
      eapply quiet_bind; [by apply quiet_emit|]. intros v1 Hv1.
      eapply quiet_bind; [apply quiet_lift; by apply (path_of_plain self "shape")|]. intros v2 Hv2.
      eapply quiet_bind; [apply quiet_exists|]. intros v3 Hv3.
      rewrite bool_decide_eq_true_2 by (rewrite Hv2, Hv1, E7; by apply Hshape).
      apply quiet_skip. }
    intros w8 Hw8. assert (fs w8 = fs w) as E8 by congruence.
    destruct mcss0; cbn [when_]; [|apply (quiet_ret tt)].
    eapply quiet_bind; [by apply quiet_emit|]. intros v1 Hv1.
    eapply quiet_bind; [apply quiet_lift; by apply (path_of_plain self "mcss")|]. intros v2 Hv2.
    eapply quiet_bind; [apply quiet_exists|]. intros v3 Hv3.
    rewrite bool_decide_eq_true_2 by (rewrite Hv2, Hv1, E8; by apply Hmcss).
    apply quiet_skip.
Qed.

End Cached.

(** ** Self-comparison *)

Section Confined.
Context {float : Type}.
Implicit Types (self : @Features float) (w : @world float) (e : @event float).

Context (P : @event float → Prop) (S : string → Prop).

Lemma confined_pure {A} (f : @world float → result A) : confined P S (λ w, (w, f w)).
Proof.
  intros w. split; [|done]. exists []. split; [|constructor]. cbn. by rewrite app_nil_r.
Qed.

Lemma confined_ret {A} (a : A) : confined P S (mret a).
Proof. apply (confined_pure (λ _, Ok a)). Qed.

Lemma confined_lift {A} (r : result A) : confined P S (lift r).
Proof. apply (confined_pure (λ _, r)). Qed.

Lemma confined_exists p : confined P S (exists_ p).
Proof. apply (confined_pure (λ w, Ok (bool_decide (is_Some (fs w !! p))))). Qed.

Lemma confined_bind {A B} (m : M world A) (f : A → M world B) :
  confined P S m →
  (∀ w a, (m w).2 = Ok a → confined P S (f a)) →
  confined P S (m ≫= f).
Proof.
  intros Hm Hf w. destruct (Hm w) as [(evs1 & Ht1 & H1) Hfs1].
  unfold mbind, M_bind. destruct (m w) as [w1 [a|e]] eqn:Hmw; cbn [fst snd] in *.
  - assert ((m w).2 = Ok a) as Ha by (by rewrite Hmw).
    destruct (Hf w a Ha w1) as [(evs2 & Ht2 & H2) Hfs2].
    split.
    + exists (evs1 ++ evs2)%list. split; [|by apply Forall_app].
      by rewrite Ht2, Ht1, app_assoc.
    + intros p Hp. by rewrite Hfs2, Hfs1.
  - split; [by exists evs1|done].
Qed.

Lemma confined_emit e : P e → confined P S (emit e).
Proof.
  intros He w. split; [|done]. exists [e]. split; [done|]. by constructor.
Qed.

Lemma confined_np_save out a :
  P (Saved out a) → S (npy_name out) → confined P S (np_save out a).
Proof.
  intros He Hout. unfold np_save. apply confined_bind; [|intros _ _ _; by apply confined_emit].
  intros w. split.
  - exists []. split; [|constructor]. cbn. by rewrite app_nil_r.
  - intros p Hp. cbn. rewrite lookup_insert_ne; [done|]. by intros <-.
Qed.

Lemma confined_for_each {A} (xs : list A) (body : A → M world unit) :
  (∀ x, x ∈ xs → confined P S (body x)) → confined P S (for_each xs body).
Proof.
  induction xs as [|x xs IH]; intros Hbody; cbn [for_each].
  - apply confined_ret.
  - apply confined_bind; [apply Hbody; by left|].
    intros _ _ _. apply IH. intros y Hy. apply Hbody. by right.
Qed.

Lemma confined_when_not (b : bool) (m : M world unit) :
  (b = false → confined P S m) → confined P S (when_not b m).
Proof. destruct b; intros Hm; [apply confined_ret | by apply Hm]. Qed.

Lemma confined_when (b : bool) (m : M world unit) :
  (b = true → confined P S m) → confined P S (when_ b m).
Proof. destruct b; intros Hm; [by apply Hm | apply confined_ret]. Qed.

End Confined.


(** ** The theorems at the concrete store of [Examples] *)

Section AtExamples.
Import Examples.

(** C1, at a store that holds every artifact: neither extractor starts a
    computation or changes a file. *)
Lemma cached_features_are_not_recomputed_example :
  (∃ evs,
     compute_single_features no_float id obrms_fails fingerprints (instance 2)
       (Flat [pv]) natives full_world
     = ({| fs := fs full_world; trace := (trace full_world ++ evs)%list |}, Ok tt)
     ∧ Forall (λ e, is_call e = false) evs)
  ∧ (∃ evs,
       compute_pair_features tanimoto tanimoto_mp overlay overlay overlay_mp
         (instance 2) [pv] None true true true 1 full_world
       = ({| fs := fs full_world; trace := (trace full_world ++ evs)%list |}, Ok tt)
       ∧ Forall (λ e, is_call e = false) evs).
Proof.
  destruct (cached_features_are_not_recomputed no_float id obrms_fails fingerprints
              tanimoto tanimoto_mp overlay overlay overlay_mp (instance 2) full_world)
    as [Hsingle Hpair].
  split.
  - apply (Hsingle (Flat [pv]) natives [pv]); [reflexivity|].
    constructor; [|constructor]. intros name Hname.
    repeat (apply elem_of_cons in Hname as [->|Hname];
            [eexists; split; [vm_compute; reflexivity | vm_compute; eexists; reflexivity]|]).
    by apply elem_of_nil in Hname.
  - apply (Hpair [pv] None true true true 1%Z loaded4).
    + reflexivity.
    + vm_compute. reflexivity.
    + repeat split; vm_compute; reflexivity.
    + intros p2 Hp2. discriminate Hp2.
    + split; [|split; intros _; vm_compute; eexists; reflexivity].
      intros _ feature Hfeature.
      repeat (apply elem_of_cons in Hfeature as [->|Hfeature];
              [eexists; split; [vm_compute; reflexivity | vm_compute; eexists; reflexivity]|]).
      by apply elem_of_nil in Hfeature.
Defined.


(** C2, counterexample: in the scenario of the spec (three poses of [A], then
    two of [B]) the ranks of [B] go on from the ranks of [A]; the name array
    is not the one the claim gives. *)
Lemma compute_name_rank_does_not_restart :
  fs (compute_name (instance 10) pv name_out fresh_world).1 !! name_out
  = Some (Npy (ArrS ["A_0-to-X"; "A_1-to-X"; "A_2-to-X"; "B_3-to-X"; "B_4-to-X"]))
  ∧ ["A_0-to-X"; "A_1-to-X"; "A_2-to-X"; "B_3-to-X"; "B_4-to-X"]
    ≠ ["A_0-to-X"; "A_1-to-X"; "A_2-to-X"; "B_0-to-X"; "B_1-to-X"].
Proof. split; [vm_compute; reflexivity | discriminate]. Qed.

(** C2, the amended claim at the scenario of the spec. *)
Lemma compute_name_scenario :
  fs fresh_world !! pv = Some (SdfGz poses5)
  ∧ Forall (λ st, is_Some (props st !! "_Name")) poses5
  ∧ compute_name (instance 10) pv name_out fresh_world
    = ({| fs := <[name_out :=
                    Npy (ArrS ["A_0-to-X"; "A_1-to-X"; "A_2-to-X";
                               "B_3-to-X"; "B_4-to-X"])]> (fs fresh_world);
          trace := [CallName pv name_out;
                    Saved name_out
                      (ArrS ["A_0-to-X"; "A_1-to-X"; "A_2-to-X";
                             "B_3-to-X"; "B_4-to-X"])] |},
       Ok tt).
Proof.
  assert (fs fresh_world !! pv = Some (SdfGz poses5)) as Hpv
    by (vm_compute; reflexivity).
  assert (Forall (λ st, is_Some (props st !! "_Name")) poses5) as Hall.
  { repeat constructor; vm_compute; eexists; reflexivity. }
  split; [done|]. split; [done|].
  pose proof (compute_name_writes_source_positions
                (instance 10) pv name_out fresh_world poses5 Hpv Hall) as H.
  cbv zeta in H. rewrite H. vm_compute. reflexivity.
Defined.

(** C3, at the cached source under a cap of two poses per ligand: the
    third pose of [A] is dropped, the other four are returned in file
    order. *)
Lemma load_single_features_keeps_two_per_ligand :
  load_single_features (instance 2) cached_store [pv] None = Ok loaded4
  ∧ ∃ src,
      read_source (instance 2) cached_store pv = Ok src
      ∧ keep_indices (instance 2) (s_names src) None = [0; 1; 3; 4]%nat
      ∧ rows_at src [0; 1; 3; 4]%nat loaded4.
Proof.
  assert (load_single_features (instance 2) cached_store [pv] None = Ok loaded4)
    as Hload by (vm_compute; reflexivity).
  split; [done|].
  destruct (load_single_features_keeps_first_per_ligand _ _ _ _ _ Hload)
    as (parts & Hparts & Hr & Hg & Hp & Hn & Hi).
  apply Forall2_cons_inv_l in Hparts
    as (part & rest & (src & Hsrc & _ & _ & Hrows) & Hrest & ->).
  apply Forall2_nil_inv_l in Hrest as ->.
  assert (part = loaded4) as ->.
  { destruct part. simpl in Hr, Hg, Hp, Hn, Hi.
    rewrite app_nil_r in Hr, Hg, Hp, Hn, Hi. by subst. }
  exists src. split; [done|].
  vm_compute in Hsrc. injection Hsrc as <-.
  split; [vm_compute; reflexivity | exact Hrows].
Defined.

(** C4, at the cached source under a cap of two poses per ligand: four of
    the five poses are returned, [min 3 2 + min 2 2]. *)
Lemma load_single_features_aligned_example :
  load_single_features (instance 2) cached_store [pv] None = Ok loaded4
  ∧ (0 ≤ max_poses (instance 2))%Z
  ∧ length (l_poses loaded4) = length (l_names loaded4)
  ∧ Z.of_nat (length (l_names loaded4)) = 4%Z
  ∧ sumZ ((λ pv, capped_count (max_poses (instance 2))
                   (stored_names (instance 2) cached_store pv)) <$> [pv]) = 4%Z.
Proof.
  assert (load_single_features (instance 2) cached_store [pv] None = Ok loaded4)
    as Hload by (vm_compute; reflexivity).
  assert (0 ≤ max_poses (instance 2))%Z as Hcap by (vm_compute; discriminate).
  split; [done|]. split; [done|].
  destruct (load_single_features_aligned _ _ _ _ _ Hload)
    as ((_ & _ & Hposes & _) & _ & Hcount).
  split; [done|]. split; [reflexivity|].
  by rewrite <- (Hcount eq_refl Hcap).
Defined.

(** C5: with a reference for ligand [A] and a failing tool, [compute_rmsd]
    reports the failure and returns, but the array it saves is empty, not
    [max_poses] copies of [-1]; the loader then fails on the source. *)
Theorem compute_rmsd_tool_failure_saves_empty_array :
  natives !! rmsd_name pv = Some "/r/structures/A_lig.sdf"
  ∧ compute_rmsd no_float obrms_fails (instance 10) pv natives rmsd_out before_rmsd
    = ({| fs := <[rmsd_out := Npy (Arr1 [])]> (fs before_rmsd);
          trace := [CallRmsd pv rmsd_out; Printed "A";
                    Printed "RMSD failed for A"; Saved rmsd_out (Arr1 [])] |},
       Ok tt)
  ∧ (Arr1 [] : @ndarray Z)
    ≠ Arr1 (replicate (Z.to_nat (max_poses (instance 10))) (NInt (-1)))
  ∧ load_single_features (instance 10)
      (fs (compute_rmsd no_float obrms_fails (instance 10) pv natives rmsd_out
             before_rmsd).1)
      [pv] None
    = Raise IndexError.
Proof.
  assert (natives !! rmsd_name pv = Some "/r/structures/A_lig.sdf") as Hnative
    by (vm_compute; reflexivity).
  split; [done|].
  rewrite (compute_rmsd_try_fails no_float obrms_fails (instance 10) pv natives
             rmsd_out before_rmsd _ ToolError Hnative eq_refl).
  split; [vm_compute; reflexivity|].
  split; [discriminate|]. vm_compute. reflexivity.
Qed.

(** C6, at a source whose ligand has no reference, under a cap of three. *)
Lemma compute_rmsd_without_reference_example :
  (∅ : gmap string string) !! rmsd_name pv = None
  ∧ (0 ≤ max_poses (instance 3))%Z
  ∧ fs (compute_rmsd no_float obrms_fails (instance 3) pv ∅ rmsd_out before_rmsd).1
      !! rmsd_out
    = Some (Npy (Arr1 [NInt (-1); NInt (-1); NInt (-1)])).
Proof.
  assert ((∅ : gmap string string) !! rmsd_name pv = None) as Hnone by reflexivity.
  assert (0 ≤ max_poses (instance 3))%Z as Hcap by (vm_compute; discriminate).
  split; [done|]. split; [done|].
  destruct (compute_rmsd_without_reference no_float obrms_fails
              (instance 3) pv ∅ rmsd_out before_rmsd Hnone Hcap) as (Hrun & _ & _).
  rewrite Hrun. vm_compute. reflexivity.
Defined.


(** C9, counterexample: on an instance built with [pv_root = "/pv"], a call
    of [path] with [base] set returns a path. *)
Lemma path_with_base_does_not_raise :
  init id environ "/r" "rd1" "pharm_max" "mcss16" 10000 (Some "/pv")
       ["hbond"; "saltbridge"; "contact"] = Ok unset_instance
  ∧ path unset_instance "shape.npy" true None None = Ok "/r/shape.npy".
Proof. split; vm_compute; reflexivity. Qed.

(** C9, the amended claim at that instance. *)
Lemma init_with_pv_root_example :
  init id environ "/r" "rd1" "pharm_max" "mcss16" 10000 (Some "/pv")
       ["hbond"; "saltbridge"; "contact"] = Ok unset_instance
  ∧ pv_root unset_instance = None
  ∧ path unset_instance "shape" false None None = Raise AttributeError
  ∧ path unset_instance "rmsd" false (Some pv) None = Raise AttributeError.
Proof.
  assert (init id environ "/r" "rd1" "pharm_max" "mcss16" 10000 (Some "/pv")
            ["hbond"; "saltbridge"; "contact"] = Ok unset_instance) as Hinit
    by (vm_compute; reflexivity).
  split; [done|].
  destruct (init_with_pv_root_leaves_attribute_unset id environ _ _ _ _ _ _ _ _ Hinit)
    as (Hunset & Hraise & _).
  split; [done|]. split; apply Hraise.
Defined.

End AtExamples.

End FeaturesSpec.

(* ===================================================================== *)
(** * Properties of the docking batch writer *)
(* ===================================================================== *)

Module DockSpec.
Import Py PyStr PyFacts Dock.

Section DockFacts.
Implicit Types (w : Dock.world) (item : string * (string * string)).

Lemma format_outfile (n : string) :
  format outfile [("inlig", n)] = Some (docked_path n).
Proof. reflexivity. Qed.

Lemma docking_failed_never gnina_log w w' (b : bool) :
  docking_failed gnina_log w = (w', Ok b) → b = false ∧ w' = w.
Proof.
  unfold docking_failed. erewrite run_bind by reflexivity.
  destruct (bool_decide (is_Some (fs w !! gnina_log))); cbn [negb].
  - unfold read_text, mbind, M_bind.
    destruct (fs w !! gnina_log) as [[content|]|]; intros H; try discriminate.
    by injection H as <- <-.
  - intros H. by injection H as <- <-.
Qed.

Lemma dock_turn_returns_iff dock_line recname gnina_in exh enhanced item w w' t :
  dock_turn dock_line recname gnina_in exh enhanced item w = (w', Ok t) →
  t = Returned ↔ is_Some (fs w !! outfile).
Proof.
  destruct item as [lig [r n]]. unfold dock_turn.
  rewrite format_outfile. erewrite run_bind by reflexivity.
  erewrite run_bind by reflexivity.
  case_bool_decide as Hout.
  - intros [= <- <-]. done.
  - intros H. split; [|done]. intros ->. exfalso.
    apply run_bind_inv in H as (w1 & failed & Hfailed & H).
    assert (enhanced && failed = false) as Hnot.
    { destruct enhanced; [|done]. by apply docking_failed_never in Hfailed as [-> _]. }
    rewrite Hnot in H.
    apply run_bind_inv in H as (w2 & have_root & _ & H).
    apply run_bind_inv in H as (w3 & [] & _ & H).
    apply run_bind_inv in H as (w4 & line & _ & H).
    apply run_bind_inv in H as (w5 & [] & _ & H).
    discriminate.
Qed.

Lemma dock_loop_abandons_rest dock_line recname gnina_in exh enhanced
    (before rest : list (string * (string * string))) item w w1 w2 :
  dock_loop dock_line recname gnina_in exh enhanced before w = (w1, Ok Continue) →
  dock_turn dock_line recname gnina_in exh enhanced item w1 = (w2, Ok Returned) →
  dock_loop dock_line recname gnina_in exh enhanced (before ++ item :: rest) w
  = (w2, Ok Returned).
Proof.
  revert w. induction before as [|x before IH]; intros w Hbefore Hturn.
  - injection Hbefore as <-. cbn [app dock_loop]. by erewrite run_bind by exact Hturn.
  - cbn [app dock_loop] in *.
    apply run_bind_inv in Hbefore as (w' & t & Hx & Hbefore).
    erewrite run_bind by exact Hx. destruct t; [|discriminate]. by apply IH.
Qed.

Lemma dock_loop_returns_at_once dock_line recname gnina_in exh enhanced item rest w :
  is_Some (fs w !! outfile) →
  dock_loop dock_line recname gnina_in exh enhanced (item :: rest) w = (w, Ok Returned).
Proof.
  intros Hout. destruct item as [lig [r n]]. cbn [dock_loop]. unfold dock_turn.
  rewrite format_outfile.
  erewrite run_bind.
  2:{ erewrite run_bind by reflexivity. erewrite run_bind by reflexivity.
      rewrite bool_decide_eq_true_2 by done. reflexivity. }
  reflexivity.
Qed.

Lemma dock_returns_when_template_exists template ligands root name enhanced
    reference slurm now w text first item rest :
  fs w !! template = Some (File text) →
  head (readlines text) = Some first →
  is_Some (fs w !! outfile) →
  zip ligands (zip root name) = item :: rest →
  fs w !! (splitext_root (basename (option_value "-r" (strip_nl first)))
           ++ "_docking_file.txt") ≠ Some Dir →
  dock template ligands root name enhanced None reference slurm now w
  = ({| fs := <[splitext_root (basename (option_value "-r" (strip_nl first)))
                ++ "_docking_file.txt" := File ""]> (fs w);
        trace := trace w |}, Ok tt).
Proof.
  intros Htemplate Hfirst Hout Hzip Hdir. unfold dock.
  erewrite run_bind by reflexivity. cbv beta zeta.
  erewrite run_bind by (unfold read_text; rewrite Htemplate; reflexivity).
  erewrite run_bind by (unfold lift; rewrite Hfirst; reflexivity).
  set (gnina_in := splitext_root _ ++ "_docking_file.txt") in *.
  erewrite run_bind.
  2:{ unfold open_w. destruct (fs w !! gnina_in) as [[content|]|]; [reflexivity|done|reflexivity]. }
  rewrite Hzip. erewrite run_bind.
  2:{ apply dock_loop_returns_at_once. cbn [fs].
      destruct (decide (gnina_in = outfile)) as [->|Hne].
      - rewrite lookup_insert_eq. by eexists.
      - by rewrite lookup_insert_ne. }
  reflexivity.
Qed.


(** C10.  A turn of the loop of [dock] executes [return] exactly when the
    literal template ["docked/{inlig}-docked.sdf.gz"] exists as a path (the
    failed-log check of the enhanced mode never fires: its phrase list is
    empty).  So a ligand whose own output exists is not skipped; and when a
    turn returns, the loop returns with it, whatever ligands remain; when the
    literal exists at the start, [dock] leaves an empty command file and
    runs nothing. *)
Theorem dock_skip_check_tests_template_literal :
  (∀ dock_line recname gnina_in exh enhanced item w w' t,
     dock_turn dock_line recname gnina_in exh enhanced item w = (w', Ok t) →
     t = Returned ↔ is_Some (fs w !! "docked/{inlig}-docked.sdf.gz"))
  ∧
  (∀ dock_line recname gnina_in exh enhanced lig r n w w' t,
     is_Some (fs w !! docked_path n) →
     fs w !! "docked/{inlig}-docked.sdf.gz" = None →
     dock_turn dock_line recname gnina_in exh enhanced (lig, (r, n)) w = (w', Ok t) →
     t = Continue)
  ∧
  (∀ dock_line recname gnina_in exh enhanced before item rest w w1 w2,
     dock_loop dock_line recname gnina_in exh enhanced before w = (w1, Ok Continue) →
     dock_turn dock_line recname gnina_in exh enhanced item w1 = (w2, Ok Returned) →
     dock_loop dock_line recname gnina_in exh enhanced (before ++ item :: rest) w
     = (w2, Ok Returned))
  ∧
  (∀ template ligands root name enhanced reference slurm now w text first item rest,
     fs w !! template = Some (File text) →
     head (readlines text) = Some first →
     is_Some (fs w !! "docked/{inlig}-docked.sdf.gz") →
     zip ligands (zip root name) = item :: rest →
     fs w !! (splitext_root (basename (option_value "-r" (strip_nl first)))
              ++ "_docking_file.txt") ≠ Some Dir →
     dock template ligands root name enhanced None reference slurm now w
     = ({| fs := <[splitext_root (basename (option_value "-r" (strip_nl first)))
                   ++ "_docking_file.txt" := File ""]> (fs w);
           trace := trace w |}, Ok tt)).
Proof.
  split; [|split; [|split]].
  - intros. by eapply dock_turn_returns_iff.
  - intros dock_line recname gnina_in exh enhanced lig r n w w' t _ Hnone Hturn.
    apply dock_turn_returns_iff in Hturn. destruct t; [done|].
    destruct Hturn as [Hturn _]. specialize (Hturn eq_refl).
    unfold outfile in Hturn. rewrite Hnone in Hturn. by destruct Hturn.
  - intros. by eapply dock_loop_abandons_rest.
  - intros. by eapply dock_returns_when_template_exists.
Qed.

End DockFacts.

(** ** The theorem at the worlds of [Examples] *)

Section AtExamples.
Import Examples.

(** C10, at a world where the output of ligand [L1] exists: its docking line
    is written all the same; and at a world where a file is named like the
    template: nothing is written for either ligand and docking is not run,
    although [now] is set. *)
Lemma dock_skip_check_example :
  (is_Some (fs docked_world !! docked_path "L1")
   ∧ fs docked_world !! "docked/{inlig}-docked.sdf.gz" = None
   ∧ ∃ w', dock_turn dock_line "rec" "rec_docking_file.txt" 8 false
             ("a.sdf", ("docked", "L1")) docked_world = (w', Ok Continue))
  ∧ dock "tmpl.txt" ["a.sdf"; "b.sdf"] ["docked"; "docked"] ["L1"; "L2"]
         false None None false true literal_world
    = ({| fs := <["rec_docking_file.txt" := File ""]> (fs literal_world);
          trace := [] |}, Ok tt).
Proof.
  destruct dock_skip_check_tests_template_literal as (_ & Hturn & _ & Hdock).
  split.
  - assert (is_Some (fs docked_world !! docked_path "L1")) as Hout
      by (vm_compute; eexists; reflexivity).
    assert (fs docked_world !! "docked/{inlig}-docked.sdf.gz" = None) as Hnone
      by (vm_compute; reflexivity).
    split; [done|]. split; [done|].
    destruct (dock_turn dock_line "rec" "rec_docking_file.txt" 8 false
                ("a.sdf", ("docked", "L1")) docked_world) as [w' [t|e]] eqn:Hrun;
      [|vm_compute in Hrun; discriminate Hrun].
    exists w'. by rewrite (Hturn _ _ _ _ _ _ _ _ _ _ _ Hout Hnone Hrun).
  - etransitivity.
    + apply (Hdock "tmpl.txt" ["a.sdf"; "b.sdf"] ["docked"; "docked"] ["L1"; "L2"]
               false None false true literal_world template_text template_text
               ("a.sdf", ("docked", "L1")) [("b.sdf", ("docked", "L2"))]).
      * vm_compute. reflexivity.
      * vm_compute. reflexivity.
      * vm_compute. eexists. reflexivity.
      * reflexivity.
      * vm_compute. discriminate.
    + vm_compute. reflexivity.
Defined.

End AtExamples.

End DockSpec.

(* ===================================================================== *)
(** * Further properties of the code *)
(* ===================================================================== *)

Module StrFacts.
Import PyStr Py PyFacts.

(** ** Endings and prefixes *)

Lemma prefix_empty_r (p : string) : String.prefix p "" = true → p = "".
Proof. by destruct p. Qed.

Lemma prefix_snoc_ne (c : ascii) (p t : string) :
  not_ending c p → String.prefix p (t ++ String c "") = String.prefix p t.
Proof.
  revert p. induction t as [|b t IH]; intros p [Hne Hend].
  - destruct p as [|a p]; [by destruct Hne|]. simpl.
    destruct (ascii_dec a c) as [->|]; [|done].
    destruct p; [|done]. exfalso. by apply (Hend "").
  - destruct p as [|a p]; [by destruct Hne|]. simpl.
    destruct (ascii_dec a b) as [->|]; [|done].
    destruct p as [|a' p]; [by destruct t|]. apply IH. split; [done|].
    intros q Hq. apply (Hend (String b q)). simpl. by rewrite Hq.
Qed.

Lemma contains_snoc_ne (c : ascii) (p s : string) :
  not_ending c p → contains p (s ++ String c "") = contains p s.
Proof.
  intros Hp. induction s as [|b s IH].
  - pose proof (prefix_snoc_ne c p "" Hp) as H.
    change ("" ++ String c "") with (String c "") in *.
    cbn [contains]. rewrite H. apply orb_diag.
  - change (String b s ++ String c "") with (String b (s ++ String c "")).
    cbn [contains]. rewrite IH.
    change (String b (s ++ String c "")) with (String b s ++ String c "").
    by rewrite prefix_snoc_ne.
Qed.

Lemma not_ending_by_endswith (c : ascii) (p : string) :
  p ≠ "" → endswith (String c "") p = false → not_ending c p.
Proof.
  intros Hne Hend. split; [done|]. intros q ->.
  by rewrite endswith_app in Hend.
Qed.


(** ** Texts without a given character *)
Lemma str_prefix_nil (s : string) : String.prefix "" s = true.
Proof. by destruct s. Qed.

Lemma prefix_char (c d : ascii) (s : string) :
  String.prefix (String c "") (String d s) = bool_decide (c = d).
Proof.
  simpl. destruct (ascii_dec c d) as [->|Hne].
  - by rewrite str_prefix_nil, bool_decide_eq_true_2.
  - by rewrite bool_decide_eq_false_2.
Qed.

Lemma contains_char_cons (c d : ascii) (s : string) :
  contains (String c "") (String d s) = false ↔
  c ≠ d ∧ contains (String c "") s = false.
Proof.
  cbn [contains]. rewrite prefix_char, orb_false_iff, bool_decide_eq_false. done.
Qed.

Lemma string_app_assoc (a b c : string) : (a ++ b) ++ c = a ++ (b ++ c).
Proof.
  induction a as [|x a IH]; [done|].
  change (String x ((a ++ b) ++ c) = String x (a ++ (b ++ c))). by rewrite IH.
Qed.

Lemma string_app_nil_r (a : string) : a ++ "" = a.
Proof.
  induction a as [|x a IH]; [done|].
  change (String x (a ++ "") = String x a). by rewrite IH.
Qed.

(** Formatting copies a prefix without braces. *)
Lemma format_go_brace_free kw (a b : string) :
  contains "{" a = false → contains "}" a = false →
  format_go kw None (a ++ b) = (λ r, a ++ r) <$> format_go kw None b.
Proof.
  induction a as [|c a IH]; intros Ho Hc.
  - change ("" ++ b) with b. by destruct (format_go kw None b).
  - apply contains_char_cons in Ho as [Ho1 Ho], Hc as [Hc1 Hc].
    change (String c a ++ b) with (String c (a ++ b)). cbn [format_go].
    rewrite (proj2 (Ascii.eqb_neq c "{")) by done.
    rewrite (proj2 (Ascii.eqb_neq c "}")) by done.
    rewrite IH by done. by destruct (format_go kw None b).
Qed.

(** Replacing a character leaves a prefix without it as it is. *)
Lemma replace_go_char_free (c : ascii) (new a b : string) :
  contains (String c "") a = false →
  replace_go (String c "") new 0 (a ++ b) = a ++ replace_go (String c "") new 0 b.
Proof.
  induction a as [|d a IH]; intros Ha; [done|].
  apply contains_char_cons in Ha as [Hne Ha].
  change (String d a ++ b) with (String d (a ++ b)). cbn [replace_go].
  rewrite prefix_char, bool_decide_eq_false_2 by done.
  by rewrite IH.
Qed.


(** ** Replacing the pose-file suffix *)
Lemma prefix_length (p t : string) :
  String.prefix p t = true → (String.length p ≤ String.length t)%nat.
Proof.
  revert p. induction t as [|b t IH]; intros [|a p] H; simpl in *; try done; try lia.
  destruct (ascii_dec a b); [|done]. apply IH in H. lia.
Qed.

Lemma prefix_snoc_cases (p t : string) (z : ascii) :
  String.prefix p (t ++ String z "") = true →
  String.prefix p t = true ∨ p = t ++ String z "".
Proof.
  revert p. induction t as [|b t IH]; intros [|a p] H.
  - by left.
  - simpl in H. destruct (ascii_dec a z) as [->|]; [|done]. destruct p; [by right | done].
  - by left.
  - change (String b t ++ String z "") with (String b (t ++ String z "")) in *.
    simpl in H |- *. destruct (ascii_dec a b) as [->|]; [|done].
    destruct (IH p H) as [?| ->]; [by left | by right].
Qed.

Lemma replace_go_absent (old new s : string) :
  contains old s = false → replace_go old new 0 s = s.
Proof.
  induction s as [|c s IH]; [done|]. cbn [contains replace_go].
  intros [Hp Hc]%orb_false_iff. rewrite Hp. by rewrite IH.
Qed.

(** A source path without [.sdf.gz] is left as it is. *)
Lemma replace_sdf_gz_absent (new s : string) :
  contains ".sdf.gz" s = false → replace ".sdf.gz" new s = s.
Proof. apply replace_go_absent. Qed.

(** A source path whose only [.sdf.gz] is at its end. *)
Lemma replace_sdf_gz_end (new stem : string) :
  contains ".sdf.gz" (stem ++ ".sdf.g") = false →
  replace ".sdf.gz" new (stem ++ ".sdf.gz") = stem ++ new.
Proof.
  unfold replace. induction stem as [|c stem IH]; intros H.
  - simpl. apply string_app_nil_r.
  - change (String c stem ++ ".sdf.g") with (String c (stem ++ ".sdf.g")) in H.
    cbn [contains] in H. apply orb_false_iff in H as [Hp Hc].
    change (String c stem ++ ".sdf.gz") with (String c (stem ++ ".sdf.gz")).
    cbn [replace_go].
    destruct (String.prefix ".sdf.gz" (String c (stem ++ ".sdf.gz"))) eqn:E.
    + exfalso.
      assert (String c (stem ++ ".sdf.gz") = String c (stem ++ ".sdf.g") ++ "z") as Hz.
      { change (String c (stem ++ ".sdf.g") ++ "z")
          with (String c ((stem ++ ".sdf.g") ++ "z")).
        by rewrite string_app_assoc. }
      rewrite Hz in E. apply prefix_snoc_cases in E as [E|E]; [congruence|].
      apply (f_equal String.length) in E.
      rewrite string_length_app in E. simpl in E.
      rewrite string_length_app in E. simpl in E. lia.
    + by rewrite IH.
Qed.


(** ** Decimal numerals and the pieces of a split *)
Lemma contains_char_nil (c : ascii) : contains (String c "") "" = false.
Proof. done. Qed.

Lemma contains_char_app (c : ascii) (a b : string) :
  contains (String c "") (a ++ b) = false ↔
  contains (String c "") a = false ∧ contains (String c "") b = false.
Proof.
  induction a as [|d a IH].
  - change ("" ++ b) with b. rewrite contains_char_nil. tauto.
  - change (String d a ++ b) with (String d (a ++ b)).
    rewrite !contains_char_cons, IH. tauto.
Qed.

(** The decimal digits of a number hold no underscore. *)
Lemma string_of_uint_no_underscore (d : Decimal.uint) :
  contains "_" (NilEmpty.string_of_uint d) = false.
Proof.
  induction d; cbn [NilEmpty.string_of_uint]; [done|..];
    by apply contains_char_cons.
Qed.

Lemma str_of_nat_no_underscore (n : nat) : contains "_" (str_of_nat n) = false.
Proof.
  unfold str_of_nat, NilZero.string_of_uint.
  destruct (Nat.to_uint n); try apply string_of_uint_no_underscore. done.
Qed.

Lemma to_uint_not_nil (n : nat) : Nat.to_uint n ≠ Decimal.Nil.
Proof.
  intros E. pose proof (Unsigned.of_to n) as H. rewrite E in H. cbn in H. by subst n.
Qed.

Lemma str_of_nat_inj (i j : nat) : str_of_nat i = str_of_nat j → i = j.
Proof.
  unfold str_of_nat. intros E.
  pose proof (NilZero.usu (Nat.to_uint i) (to_uint_not_nil i)) as Hi.
  pose proof (NilZero.usu (Nat.to_uint j) (to_uint_not_nil j)) as Hj.
  rewrite E in Hi. rewrite Hi in Hj. injection Hj as Hj.
  by apply Unsigned.to_uint_inj.
Qed.

(** What follows the last occurrence of a character. *)
Lemma after_last_char (c : ascii) (a b x y : string) :
  contains (String c "") x = false → contains (String c "") y = false →
  a ++ String c x = b ++ String c y → x = y.
Proof.
  intros Hx Hy. revert b. induction a as [|d a IH]; intros [|e b] E.
  - by injection E.
  - change ("" ++ String c x) with (String c x) in E.
    change (String e b ++ String c y) with (String e (b ++ String c y)) in E.
    injection E as _ E. exfalso. subst x.
    apply contains_char_app in Hx as [_ Hx]. by apply contains_char_cons in Hx as [? _].
  - change ("" ++ String c y) with (String c y) in E.
    change (String d a ++ String c x) with (String d (a ++ String c x)) in E.
    injection E as _ E. exfalso. subst y.
    apply contains_char_app in Hy as [_ Hy]. by apply contains_char_cons in Hy as [? _].
  - change (String d a ++ String c x) with (String d (a ++ String c x)) in E.
    change (String e b ++ String c y) with (String e (b ++ String c y)) in E.
    injection E as _ E. by eapply IH.
Qed.

(** The pieces of a split at a character. *)
Lemma split_go_char_no_sep (c : ascii) (cur s : string) :
  contains (String c "") cur = false →
  Forall (λ piece, contains (String c "") piece = false)
         (split_go (String c "") 0 cur s).
Proof.
  revert cur. induction s as [|d s IH]; intros cur Hcur.
  - by constructor.
  - cbn [split_go]. rewrite prefix_char. case_bool_decide as Hcd.
    + constructor; [done|]. cbn. by apply IH.
    + apply IH. apply contains_char_app. split; [done|].
      apply contains_char_cons. by split.
Qed.

Lemma split_go_char_free (c d : ascii) (cur s : string) :
  contains (String d "") cur = false → contains (String d "") s = false →
  Forall (λ piece, contains (String d "") piece = false)
         (split_go (String c "") 0 cur s).
Proof.
  revert cur. induction s as [|e s IH]; intros cur Hcur Hs.
  - by constructor.
  - apply contains_char_cons in Hs as [Hde Hs].
    cbn [split_go]. rewrite prefix_char. case_bool_decide as Hce.
    + constructor; [done|]. cbn. by apply IH.
    + apply IH; [|done]. apply contains_char_app. split; [done|].
      apply contains_char_cons. by split.
Qed.

Lemma split_go_not_nil (sep : string) (skip : nat) (cur s : string) :
  split_go sep skip cur s ≠ [].
Proof.
  revert skip cur. induction s as [|d s IH]; intros skip cur; [done|].
  cbn [split_go]. destruct skip; [|apply IH].
  destruct (String.prefix sep (String d s)); [done | apply IH].
Qed.

Lemma last_piece_in (l : list string) : l ≠ [] → last_piece l ∈ l.
Proof.
  unfold last_piece. induction l as [|x l IH]; [done|]. intros _.
  destruct l as [|y l]; [by left|]. right. by apply IH.
Qed.

Lemma first_piece_in (l : list string) : l ≠ [] → first_piece l ∈ l.
Proof. destruct l; [done|]. intros _. by left. Qed.


(** ** File names *)
Lemma substring_prefix (a b : string) :
  String.substring 0 (String.length a) (a ++ b) = a.
Proof.
  induction a as [|c a IH]; [by destruct b|].
  change (String c a ++ b) with (String c (a ++ b)). cbn. by rewrite IH.
Qed.

Lemma drop_last_app (a b : string) : drop_last (String.length b) (a ++ b) = a.
Proof.
  unfold drop_last. rewrite string_length_app.
  replace (String.length a + String.length b - String.length b)%nat
    with (String.length a) by lia.
  apply substring_prefix.
Qed.

Lemma split_go_char_absent (c : ascii) (cur s : string) :
  contains (String c "") s = false →
  split_go (String c "") 0 cur s = [cur ++ s].
Proof.
  revert cur. induction s as [|d s IH]; intros cur Hs.
  - by rewrite string_app_nil_r.
  - apply contains_char_cons in Hs as [Hne Hs].
    cbn [split_go]. rewrite prefix_char, bool_decide_eq_false_2 by done.
    rewrite IH by done. by rewrite string_app_assoc.
Qed.

Lemma split_go_char_last (c : ascii) (cur a b : string) :
  contains (String c "") b = false →
  last_piece (split_go (String c "") 0 cur (a ++ String c b)) = b.
Proof.
  intros Hb. revert cur. induction a as [|d a IH]; intros cur.
  - change ("" ++ String c b) with (String c b). cbn [split_go].
    rewrite prefix_char, bool_decide_eq_true_2 by done. cbn [String.length Nat.sub].
    rewrite split_go_char_absent by done. done.
  - change (String d a ++ String c b) with (String d (a ++ String c b)). cbn [split_go].
    rewrite prefix_char. case_bool_decide.
    + cbn [String.length Nat.sub]. unfold last_piece in *. cbn [List.last].
      specialize (IH ""). destruct (split_go _ 0 "" _) eqn:E; [|exact IH].
      by apply split_go_not_nil in E.
    + apply IH.
Qed.


(** ** White space *)
Lemma lstrip_length (p : ascii → bool) (s : string) :
  (String.length (lstrip p s) ≤ String.length s)%nat.
Proof.
  induction s as [|c s IH]; [done|]. cbn [lstrip]. destruct (p c); cbn; lia.
Qed.

Lemma rstrip_length (p : ascii → bool) (s : string) :
  (String.length (rstrip p s) ≤ String.length s)%nat.
Proof.
  induction s as [|c s IH]; [done|]. cbn [rstrip].
  destruct (rstrip p s); [destruct (p c)|]; cbn in *; lia.
Qed.

Lemma rstrip_snoc_keep (p : ascii → bool) (s : string) (c : ascii) :
  p c = false → rstrip p (s ++ String c "") = s ++ String c "".
Proof.
  intros Hc. induction s as [|d s IH].
  - change ("" ++ String c "") with (String c ""). cbn [rstrip]. by rewrite Hc.
  - change (String d s ++ String c "") with (String d (s ++ String c "")).
    cbn [rstrip]. rewrite IH. by destruct s.
Qed.

Lemma rstrip_snoc_drop (p : ascii → bool) (s : string) (c : ascii) :
  p c = true → rstrip p (s ++ String c "") = rstrip p s.
Proof.
  intros Hc. induction s as [|d s IH].
  - change ("" ++ String c "") with (String c ""). cbn [rstrip]. by rewrite Hc.
  - change (String d s ++ String c "") with (String d (s ++ String c "")).
    cbn [rstrip]. by rewrite IH.
Qed.

Lemma string_snoc_cases (s : string) : s = "" ∨ ∃ t c, s = t ++ String c "".
Proof.
  induction s as [|d s IH]; [by left|]. right.
  destruct IH as [-> | (t & c & ->)].
  - by exists "", d.
  - by exists (String d t), c.
Qed.

(** A trimmed text starts and ends with a character that is not white
    space. *)
Lemma strip_fixed_head (s : string) :
  s ≠ "" → strip s = s → ∃ c t, s = String c t ∧ isspace c = false.
Proof.
  intros Hne Hs. destruct s as [|c t]; [done|]. exists c, t. split; [done|].
  destruct (isspace c) eqn:Hc; [|done]. exfalso.
  unfold strip, strip_with in Hs. cbn [lstrip] in Hs. rewrite Hc in Hs.
  apply (f_equal String.length) in Hs.
  pose proof (rstrip_length isspace (lstrip isspace t)).
  pose proof (lstrip_length isspace t). cbn in Hs. lia.
Qed.

Lemma strip_fixed_last (s : string) :
  s ≠ "" → strip s = s → ∃ t c, s = t ++ String c "" ∧ isspace c = false.
Proof.
  intros Hne Hs. destruct (strip_fixed_head s Hne Hs) as (c0 & t0 & -> & Hc0).
  unfold strip, strip_with in Hs. cbn [lstrip] in Hs. rewrite Hc0 in Hs.
  destruct (string_snoc_cases (String c0 t0)) as [? | (t & c & E)]; [done|].
  exists t, c. split; [done|].
  destruct (isspace c) eqn:Hc; [|done]. exfalso.
  rewrite E, rstrip_snoc_drop in Hs by done.
  apply (f_equal String.length) in Hs.
  pose proof (rstrip_length isspace t).
  rewrite string_length_app in Hs. cbn in Hs. lia.
Qed.

Lemma lstrip_head (p : ascii → bool) (c : ascii) (t : string) :
  p c = false → lstrip p (String c t) = String c t.
Proof. intros Hc. cbn. by rewrite Hc. Qed.


Lemma rstrip_app_all_space (s t : string) :
  all_space t = true → rstrip isspace (s ++ t) = rstrip isspace s.
Proof.
  revert s. induction t as [|c t IH]; intros s Ht.
  - by rewrite string_app_nil_r.
  - cbn in Ht. apply andb_true_iff in Ht as [Hc Ht].
    change (s ++ String c t) with (s ++ (String c "" ++ t)).
    rewrite <- string_app_assoc, IH by done. by apply rstrip_snoc_drop.
Qed.

Lemma lstrip_app_all_space (s t : string) :
  all_space s = true → lstrip isspace (s ++ t) = lstrip isspace t.
Proof.
  induction s as [|c s IH]; intros Hs; [done|].
  cbn in Hs. apply andb_true_iff in Hs as [Hc Hs].
  change (String c s ++ t) with (String c (s ++ t)). cbn [lstrip]. rewrite Hc. by apply IH.
Qed.

Lemma strip_between_space (a s b : string) :
  all_space a = true → all_space b = true → trimmed s →
  strip (a ++ s ++ b) = s.
Proof.
  intros Ha Hb [Hne Hs]. unfold strip, strip_with.
  rewrite lstrip_app_all_space by done.
  destruct (strip_fixed_head s Hne Hs) as (c & t & -> & Hc).
  change (String c t ++ b) with (String c (t ++ b)). rewrite lstrip_head by done.
  change (String c (t ++ b)) with (String c t ++ b).
  rewrite rstrip_app_all_space by done.
  destruct (strip_fixed_last (String c t) Hne Hs) as (t' & c' & E & Hc').
  rewrite E. by apply rstrip_snoc_keep.
Qed.

(** Splitting at the first occurrence of a character. *)
Lemma split_go_char_first (c : ascii) (cur a b : string) :
  contains (String c "") a = false →
  split_go (String c "") 0 cur (a ++ String c b)
  = (cur ++ a) :: split_go (String c "") 0 "" b.
Proof.
  revert cur. induction a as [|d a IH]; intros cur Ha.
  - change ("" ++ String c b) with (String c b). cbn [split_go].
    rewrite prefix_char, bool_decide_eq_true_2 by done. cbn [String.length Nat.sub].
    by rewrite string_app_nil_r.
  - apply contains_char_cons in Ha as [Hne Ha].
    change (String d a ++ String c b) with (String d (a ++ String c b)). cbn [split_go].
    rewrite prefix_char, bool_decide_eq_false_2 by done.
    rewrite IH by done. by rewrite string_app_assoc.
Qed.

Lemma strip_fixed_intro (s t t' : string) (c c' : ascii) :
  s = String c t → isspace c = false → s = t' ++ String c' "" → isspace c' = false →
  strip s = s.
Proof.
  intros Hs Hc Hs' Hc'. unfold strip, strip_with.
  rewrite Hs, lstrip_head by done. rewrite <- Hs, Hs'. by apply rstrip_snoc_keep.
Qed.

Lemma concat_cons2 (sep x y : string) (rest : list string) :
  String.concat sep (x :: y :: rest) = x ++ sep ++ String.concat sep (y :: rest).
Proof. done. Qed.

(** The lines of a text whose lines are joined by line feeds. *)
Lemma split_concat_nl (lines : list string) :
  lines ≠ [] → Forall (λ r, contains nl r = false) lines →
  split nl (String.concat nl lines) = lines.
Proof.
  unfold split, nl. intros Hne Hall. induction Hall as [|x lines Hx Hall IH]; [done|].
  destruct lines as [|y rest].
  - cbn [String.concat]. by rewrite split_go_char_absent.
  - rewrite concat_cons2.
    change (String "010" "" ++ String.concat (String "010" "") (y :: rest))
      with (String "010" (String.concat (String "010" "") (y :: rest))).
    rewrite split_go_char_first by done. by rewrite IH.
Qed.

Lemma trimmed_concat_nl (lines : list string) :
  lines ≠ [] → Forall trimmed lines → trimmed (String.concat nl lines).
Proof.
  intros Hne Hall.
  assert ((∃ c t, String.concat nl lines = String c t ∧ isspace c = false)
          ∧ (∃ t c, String.concat nl lines = t ++ String c "" ∧ isspace c = false))
    as [(c & t & Hhead & Hc) (t' & c' & Hlast & Hc')].
  { induction Hall as [|x lines [Hx Hsx] Hall IH]; [done|].
    destruct (strip_fixed_head x Hx Hsx) as (c & t & Ex & Hc).
    destruct lines as [|y rest].
    - cbn [String.concat]. split; [by exists c, t|]. by apply strip_fixed_last.
    - rewrite concat_cons2. destruct IH as [_ (t' & c' & E' & Hc')]; [done|].
      split.
      + exists c, (t ++ nl ++ String.concat nl (y :: rest)). by rewrite Ex.
      + exists (x ++ nl ++ t'), c'. split; [|done].
        by rewrite E', !string_app_assoc. }
  split.
  - rewrite Hhead. done.
  - by eapply strip_fixed_intro.
Qed.


End StrFacts.

Module FeaturesProps.
Import PyStr Py PyFacts StrFacts Features FeaturesSpec.

(** Membership in a list that is written out. *)
Ltac in_list := first [apply list_elem_of_here | apply list_elem_of_further; in_list].

(** ** What the loader needs and returns *)
Section Loader.
Context {float : Type}.
Implicit Types (self : @Features float) (names : list string) (L : @loaded float)
  (src : @source float) (store : gmap string (@file float)).

Lemma np_load_inv store p a : np_load store p = Ok a → store !! p = Some (Npy a).
Proof. unfold np_load. destruct (store !! p) as [[]|]; by intros [= <-]. Qed.

Lemma read_csv_inv store p t : read_csv store p = Ok t → store !! p = Some (Csv t).
Proof. unfold read_csv. destruct (store !! p) as [[]|]; by intros [= <-]. Qed.

Lemma read_sdf_inv store p sts : read_sdf store p = Ok sts → store !! p = Some (SdfGz sts).
Proof. unfold read_sdf. destruct (store !! p) as [[]|]; by intros [= <-]. Qed.

Lemma as_nums_inv (a : @ndarray float) l : as_nums a = Ok l → a = Arr1 l.
Proof. destruct a; by intros [= <-]. Qed.

Lemma as_strs_inv (a : @ndarray float) l : as_strs a = Ok l → a = ArrS l.
Proof. destruct a; by intros [= <-]. Qed.

Lemma read_source_inv self store pv src :
  read_source self store pv = Ok src → artifacts_of self store pv src.
Proof.
  unfold read_source. intros H.
  apply bind_Ok_inv in H as (rmsds & Hr & H).
  apply bind_Ok_inv in H as (gscores & Hg & H).
  apply bind_Ok_inv in H as (names & Hn & H).
  apply bind_Ok_inv in H as (ifps & Hi & H).
  apply bind_Ok_inv in H as (poses & Hp & H).
  injection H as <-. cbn.
  apply bind_Ok_inv in Hr as (p_r & Hpr & Hr). apply bind_Ok_inv in Hr as (a_r & Har & Hr).
  apply bind_Ok_inv in Hg as (p_g & Hpg & Hg). apply bind_Ok_inv in Hg as (a_g & Hag & Hg).
  apply bind_Ok_inv in Hn as (p_n & Hpn & Hn). apply bind_Ok_inv in Hn as (a_n & Han & Hn).
  apply bind_Ok_inv in Hi as (p_i & Hpi & Hi). apply bind_Ok_inv in Hi as (t & Ht & Hi).
  apply as_nums_inv in Hr as ->. apply as_nums_inv in Hg as ->. apply as_strs_inv in Hn as ->.
  apply np_load_inv in Har, Hag, Han. apply read_csv_inv in Ht. apply read_sdf_inv in Hp.
  exists p_r, p_g, p_n, p_i, t. cbn. repeat split; try done.
  intros ->. discriminate Hi.
Qed.

Lemma read_source_on_disk self store pv src :
  read_source self store pv = Ok src → artifacts_on_disk self store pv.
Proof.
  intros H. apply read_source_inv in H
    as (p_r & p_g & p_n & p_i & t & Hr & Sr & Hg & Sg & Hn & Sn & Hi & Si & Ht & _ & Sp).
  exists p_r, p_g, p_n, p_i. eexists _, _, _, t, _. repeat split; done.
Qed.

(** X1.  [load_single_features] returns only for a list of sources that is
    not empty ([np.hstack] refuses an empty list) and for which every source
    has on disk its pose file, its three array files and its fingerprint
    table, the table holding at least one row. *)
Theorem load_single_features_needs_every_artifact self store pvs ligands L :
  load_single_features self store pvs ligands = Ok L →
  pvs ≠ [] ∧ ∀ pv, pv ∈ pvs → artifacts_on_disk self store pv.
Proof.
  intros H. split.
  - intros ->. discriminate H.
  - apply load_single_features_parts in H as (parts & Hparts & _).
    intros pv Hpv. apply list_elem_of_lookup in Hpv as [i Hi].
    destruct (Forall2_lookup_l _ _ _ _ _ Hparts Hi) as (part & _ & Hload).
    apply load_source_spec in Hload as (src & Hsrc & _).
    by eapply read_source_on_disk.
Qed.
Lemma keep_test_passes self names ligands i :
  keep_test self names ligands i
  = match names !! i with
    | None => false
    | Some n => passes ligands n
                && bool_decide (Z.of_nat (count_eq (take i names) n) < max_poses self)%Z
    end.
Proof. done. Qed.

Lemma keep_indices_snoc_filtered self names ligands x :
  keep_indices self (names ++ [x]) ligands
  = (keep_indices self names ligands ++
     if passes ligands x && bool_decide (Z.of_nat (count_eq names x) < max_poses self)%Z
     then [length names] else [])%list.
Proof.
  rewrite !keep_indices_filter, length_app. simpl.
  rewrite Nat.add_1_r, seq_S, filter_app. simpl. f_equal.
  - apply filter_length_ext. intros i Hi. apply elem_of_seq in Hi.
    rewrite !keep_test_passes, lookup_app_l by lia.
    destruct (names !! i); [|done]. by rewrite take_app_le by lia.
  - rewrite filter_cons, filter_nil, keep_test_passes.
    rewrite lookup_app_r by done. rewrite Nat.sub_diag. cbn [lookup list_lookup].
    rewrite take_app_length.
    destruct (passes ligands x && bool_decide _) eqn:E.
    + by rewrite decide_True.
    + by rewrite decide_False.
Qed.

Lemma keep_indices_bound self names ligands i :
  i ∈ keep_indices self names ligands → (i < length names)%nat.
Proof.
  intros Hi. apply elem_of_keep_indices in Hi as (n & Hn & _).
  by apply lookup_lt_Some in Hn.
Qed.

Lemma omap_ext_in {A B} (f g : A → option B) (l : list A) :
  (∀ x, x ∈ l → f x = g x) → omap f l = omap g l.
Proof.
  induction l as [|x l IH]; intros H; [done|]. cbn.
  rewrite (H x) by (by left). rewrite IH; [done|]. intros y Hy. apply H. by right.
Qed.

(** The names the selection retains. *)
Lemma retained_names self names ligands (out : list string) :
  Forall2 (λ i x, names !! i = Some x) (keep_indices self names ligands) out →
  out = omap (λ i, names !! i) (keep_indices self names ligands).
Proof.
  generalize (keep_indices self names ligands). intros keep.
  induction 1 as [|i x keep out Hx _ IH]; [done|].
  cbn. rewrite Hx. by f_equal.
Qed.

Lemma count_eq_app names1 names2 n :
  count_eq (names1 ++ names2) n = (count_eq names1 n + count_eq names2 n)%nat.
Proof. unfold count_eq. by rewrite filter_app, length_app. Qed.

Lemma retained_count self names ligands n :
  Z.of_nat (count_eq (omap (λ i, names !! i) (keep_indices self names ligands)) n)
  = kept_count self ligands names n.
Proof.
  induction names as [|x names IH] using rev_ind.
  - unfold kept_count. cbn. destruct (passes ligands n); lia.
  - rewrite keep_indices_snoc_filtered, omap_app, count_eq_app, Nat2Z.inj_add.
    assert (omap (λ i, (names ++ [x])%list !! i) (keep_indices self names ligands)
            = omap (λ i, names !! i) (keep_indices self names ligands)) as ->.
    { apply omap_ext_in. intros i Hi.
      apply keep_indices_bound in Hi. by rewrite lookup_app_l. }
    rewrite IH. unfold kept_count. rewrite count_eq_snoc.
    destruct (passes ligands x && bool_decide _) eqn:E.
    + apply andb_true_iff in E as [Hp Hc]. apply bool_decide_eq_true in Hc.
      cbn [omap list_omap]. rewrite (list_lookup_middle names [] x) by done.
      unfold count_eq at 2. rewrite filter_cons, filter_nil.
      destruct (decide (x = n)) as [->|Hne]; cbn [length].
      * rewrite Hp. lia.
      * destruct (passes ligands n); lia.
    + cbn [omap list_omap]. rewrite count_eq_nil.
      destruct (decide (x = n)) as [->|Hne].
      * destruct (passes ligands n); [|lia]. cbn in E.
        apply bool_decide_eq_false in E. lia.
      * rewrite Nat.add_0_r. lia.
Qed.

Lemma count_eq_concat (parts : list (list string)) n :
  Z.of_nat (count_eq (concat parts) n)
  = sumZ ((λ part, Z.of_nat (count_eq part n)) <$> parts).
Proof.
  induction parts as [|part parts IH]; [done|].
  cbn [concat]. rewrite count_eq_app, Nat2Z.inj_add, IH. done.
Qed.

(** X2.  Whenever [load_single_features] returns, the number of returned
    poses named [n] is the sum over the sources of what the selection
    retains of each: none when a ligand filter is given and [n] is not in
    it, and otherwise the number of entries of the source's name array equal
    to [n], capped at [max_poses] (none for a cap that is not positive). *)
Theorem load_single_features_counts_per_name self store pvs ligands L n :
  load_single_features self store pvs ligands = Ok L →
  Z.of_nat (count_eq (l_names L) n)
  = sumZ ((λ pv, kept_count self ligands (stored_names self store pv) n) <$> pvs).
Proof.
  intros H. apply load_single_features_parts in H as (parts & Hparts & ->). cbn [l_names].
  rewrite count_eq_concat, <- list_fmap_compose.
  induction Hparts as [|pv part pvs parts Hload _ IH]; [done|].
  cbn [fmap list_fmap sumZ]. f_equal; [|exact IH]. cbn.
  apply load_source_spec in Hload as (src & Hsrc & (_ & _ & _ & Hnames & _)).
  unfold stored_names. rewrite Hsrc.
  apply retained_names in Hnames as ->. apply retained_count.
Qed.

(** X3.  With a ligand filter, [load_single_features] returns only poses
    whose name is in the filter; with an empty filter it returns five empty
    sequences. *)
Theorem load_single_features_respects_filter self store pvs ls L :
  load_single_features self store pvs (Some ls) = Ok L →
  Forall (λ n, n ∈ ls) (l_names L)
  ∧ (ls = [] → L = {| l_rmsds := []; l_gscores := []; l_poses := []; l_names := [];
                      l_ifps := [] |}).
Proof.
  intros H.
  assert (Forall (λ n, n ∈ ls) (l_names L)) as Hall.
  { apply load_single_features_parts in H as (parts & Hparts & ->). cbn [l_names].
    apply Forall_concat, Forall_fmap.
    induction Hparts as [|pv part pvs parts Hload _ IH]; constructor; [|exact IH].
    cbn. apply load_source_spec in Hload as (src & _ & (_ & _ & _ & Hnames & _)).
    apply Forall_forall. intros n Hn.
    apply list_elem_of_lookup in Hn as [o Ho].
    destruct (Forall2_lookup_r _ _ _ _ _ Hnames Ho) as (i & Hi & Hlook).
    apply list_elem_of_lookup_2 in Hi.
    apply elem_of_keep_indices in Hi as (n' & Hn' & [? | (ls' & [= <-] & Hin)] & _);
      [done|]. congruence. }
  split; [done|]. intros ->.
  pose proof (load_single_features_lengths _ _ _ _ _ H) as (Hr & Hg & Hp & Hi).
  destruct L as [rmsds gscores poses names ifps]. cbn in *.
  destruct names as [|n names]; [|apply Forall_cons in Hall as [Hn _]; by apply elem_of_nil in Hn].
  destruct rmsds, gscores, poses, ifps; try discriminate. done.
Qed.

Lemma take_at_in_bounds {A} (a : list A) (idx : list nat) :
  Forall (λ i, i < length a)%nat idx → is_ok (take_at a idx) = true.
Proof.
  unfold take_at. induction 1 as [|i idx Hi _ IH]; [done|]. cbn.
  destruct (lookup_lt_is_Some_2 a i Hi) as [x ->]. cbn.
  destruct (mapM _ idx); [done | discriminate IH].
Qed.

Lemma take_at_out_of_bounds {A} (a : list A) (idx : list nat) :
  Exists (λ i, length a ≤ i)%nat idx → take_at a idx = Raise IndexError.
Proof.
  unfold take_at. induction 1 as [i idx Hi|i idx _ IH]; cbn.
  - by rewrite lookup_ge_None_2.
  - destruct (a !! i); [|done]. cbn. by rewrite IH.
Qed.

Lemma take_at_raises {A} (a : list A) (idx : list nat) e :
  take_at a idx = Raise e → e = IndexError.
Proof.
  unfold take_at. induction idx as [|i idx IH]; [discriminate|]. cbn.
  destruct (a !! i); cbn; [|by intros [= <-]].
  destruct (mapM _ idx); cbn; [discriminate|]. intros [= <-]. by apply IH.
Qed.

Lemma select_source_raises self ligands src e :
  select_source self ligands src = Raise e → e = IndexError.
Proof.
  unfold select_source.
  destruct (take_at (s_rmsds src) _) eqn:E1; cbn; [|intros [= <-]; by eapply take_at_raises].
  destruct (take_at (s_gscores src) _) eqn:E2; cbn; [|intros [= <-]; by eapply take_at_raises].
  destruct (take_at (s_names src) _) eqn:E3; cbn; [|intros [= <-]; by eapply take_at_raises].
  destruct (take_at (s_poses src) _) eqn:E4; cbn; [|intros [= <-]; by eapply take_at_raises].
  destruct (take_at (s_ifps src) _) eqn:E5; cbn; [discriminate|intros [= <-]; by eapply take_at_raises].
Qed.

Lemma select_source_in_bounds self ligands src :
  Forall (λ i, i < shortest src)%nat (keep_indices self (s_names src) ligands) →
  is_ok (select_source self ligands src) = true.
Proof.
  intros Hall. unfold select_source, shortest in *.
  assert (∀ {A} (a : list A),
            (Nat.min (Nat.min (length (s_rmsds src)) (length (s_gscores src)))
                     (Nat.min (length (s_poses src)) (length (s_ifps src))) ≤ length a)%nat →
            ∃ r, take_at a (keep_indices self (s_names src) ligands) = Ok r) as Hok.
  { intros A a Hle. destruct (take_at a _) eqn:E; [by eexists|].
    exfalso. assert (is_ok (take_at a (keep_indices self (s_names src) ligands)) = true) as H.
    { apply take_at_in_bounds. eapply Forall_impl; [exact Hall|]. cbn. lia. }
    by rewrite E in H. }
  destruct (Hok _ (s_rmsds src)) as [r1 ->]; [lia|].
  destruct (Hok _ (s_gscores src)) as [r2 ->]; [lia|].
  destruct (Hok _ (s_poses src)) as [r4 ->]; [lia|].
  destruct (Hok _ (s_ifps src)) as [r5 ->]; [lia|].
  destruct (take_at (s_names src) _) eqn:E; [done|]. exfalso.
  assert (is_ok (take_at (s_names src) (keep_indices self (s_names src) ligands)) = true) as H.
  { apply take_at_in_bounds, Forall_forall. intros i Hi. by eapply keep_indices_bound. }
  by rewrite E in H.
Qed.

Lemma select_source_out_of_bounds self ligands src :
  Exists (λ i, shortest src ≤ i)%nat (keep_indices self (s_names src) ligands) →
  select_source self ligands src = Raise IndexError.
Proof.
  intros Hex. destruct (select_source self ligands src) as [L|e] eqn:E.
  - exfalso. apply select_source_spec in E as (Hr & Hg & Hp & _ & Hi).
    apply Exists_exists in Hex as (i & Hin & Hle).
    apply list_elem_of_lookup in Hin as [o Ho].
    destruct (Forall2_lookup_l _ _ _ _ _ Hr Ho) as (x1 & _ & H1).
    destruct (Forall2_lookup_l _ _ _ _ _ Hg Ho) as (x2 & _ & H2).
    destruct (Forall2_lookup_l _ _ _ _ _ Hp Ho) as (x3 & _ & H3).
    destruct (Forall2_lookup_l _ _ _ _ _ Hi Ho) as (x4 & _ & H4).
    apply lookup_lt_Some in H1, H2, H3, H4. unfold shortest in Hle. lia.
  - f_equal. by eapply select_source_raises.
Qed.

Lemma load_single_features_one self store ligands pv :
  load_single_features self store [pv] ligands
  = match load_source self store ligands pv with
    | Ok part => Ok {| l_rmsds := l_rmsds part ++ []; l_gscores := l_gscores part ++ [];
                       l_poses := l_poses part ++ []; l_names := l_names part ++ [];
                       l_ifps := l_ifps part ++ [] |}
    | Raise e => Raise e
    end%list.
Proof.
  unfold load_single_features. change (mapM ?f [pv]) with (y ← f pv; k ← mret []; mret (y :: k)).
  by destruct (load_source self store ligands pv).
Qed.

(** X4.  For a source whose files can be read, the selection of
    [load_single_features] succeeds exactly when every retained position is
    within the bounds of the RMSD array, the score array, the pose list and
    the list of fingerprint groups; a retained position beyond the shortest
    of them raises [IndexError], for any list of sources that holds this
    one. *)
Theorem load_single_features_index_bounds self store ligands pv src :
  read_source self store pv = Ok src →
  let keep := keep_indices self (s_names src) ligands in
  (Forall (λ i, i < shortest src)%nat keep →
     is_ok (load_single_features self store [pv] ligands) = true)
  ∧ (Exists (λ i, shortest src ≤ i)%nat keep →
       load_single_features self store [pv] ligands = Raise IndexError
       ∧ ∀ pvs, pv ∈ pvs → is_ok (load_single_features self store pvs ligands) = false).
Proof.
  intros Hsrc keep. split.
  - intros Hall. apply (select_source_in_bounds self ligands) in Hall.
    rewrite load_single_features_one. unfold load_source. rewrite Hsrc.
    cbn [mbind result_bind]. by destruct (select_source self ligands src).
  - intros Hex. apply (select_source_out_of_bounds self ligands) in Hex.
    assert (load_source self store ligands pv = Raise IndexError) as Hload.
    { unfold load_source. rewrite Hsrc. exact Hex. }
    split.
    + by rewrite load_single_features_one, Hload.
    + intros pvs Hpv. destruct (load_single_features self store pvs ligands) as [L|e] eqn:E; [|done].
      exfalso. apply load_single_features_parts in E as (parts & Hparts & _).
      apply list_elem_of_lookup in Hpv as [i Hi].
      destruct (Forall2_lookup_l _ _ _ _ _ Hparts Hi) as (part & _ & Hok). congruence.
Qed.

Lemma foldr_max_le (x : Z) (l : list Z) :
  (x ≤ foldr Z.max x l)%Z ∧ Forall (λ y, y ≤ foldr Z.max x l)%Z l.
Proof.
  induction l as [|y l [IH1 IH2]]; cbn; [split; [lia | constructor]|].
  split; [lia|]. constructor; [lia|]. eapply Forall_impl; [exact IH2|]. cbn. lia.
Qed.

Lemma foldr_max_in (x : Z) (l : list Z) : foldr Z.max x l ∈ x :: l.
Proof.
  induction l as [|y l IH]; cbn; [by left|].
  destruct (Z.max_spec y (foldr Z.max x l)) as [[_ ->] | [_ ->]].
  - apply elem_of_cons in IH as [-> | IH]; [by left | right; by right].
  - right. by left.
Qed.

Lemma ifp_groups_length (t : list (@ifp_row)) groups :
  ifp_groups t = Ok groups →
  ∃ top, top ∈ row_pose <$> t ∧ Forall (λ r, row_pose r ≤ top)%Z t
         ∧ length groups = Z.to_nat (top + 1).
Proof.
  unfold ifp_groups. destruct t as [|r t]; [discriminate|]. intros [= <-].
  exists (foldr Z.max (row_pose r) (row_pose <$> t)). split; [|split].
  - cbn [fmap list_fmap]. apply foldr_max_in.
  - destruct (foldr_max_le (row_pose r) (row_pose <$> t)) as [H1 H2].
    constructor; [done|]. apply Forall_forall. intros r' Hr'.
    rewrite Forall_forall in H2. apply H2, list_elem_of_fmap. eauto.
  - by rewrite length_map, length_seqZ.
Qed.

(** X5.  The fingerprint groups of a source are indexed by pose number up to
    the largest pose number of the table.  So when a retained pose has a
    number larger than every pose number of the fingerprint table (the last
    poses of the source have no fingerprint row), the loader raises
    [IndexError]. *)
Theorem load_single_features_needs_fingerprint_rows self store ligands pv src table p_i i :
  read_source self store pv = Ok src →
  path_pv self "ifp" pv = Ok p_i → store !! p_i = Some (Csv table) →
  i ∈ keep_indices self (s_names src) ligands →
  Forall (λ r, row_pose r < Z.of_nat i)%Z table →
  load_single_features self store [pv] ligands = Raise IndexError.
Proof.
  intros Hsrc Hpath Htable Hi Hrows.
  assert (ifp_groups table = Ok (s_ifps src)) as Hgroups.
  { apply read_source_inv in Hsrc as (p_r & p_g & p_n & p_i' & t & _ & _ & _ & _ & _ & _ & Hp & Ht & _ & Hg & _).
    congruence. }
  apply ifp_groups_length in Hgroups as (top & Htop & _ & Hlen).
  apply list_elem_of_fmap in Htop as (r & -> & Hr).
  rewrite Forall_forall in Hrows. specialize (Hrows r Hr).
  assert (Exists (λ j, shortest src ≤ j)%nat (keep_indices self (s_names src) ligands)) as Hex.
  { apply Exists_exists. exists i. split; [done|]. unfold shortest. lia. }
  rewrite load_single_features_one. unfold load_source. rewrite Hsrc.
  cbn [mbind result_bind].
  by rewrite (select_source_out_of_bounds self ligands src Hex).
Qed.

End Loader.

(** ** Artifact paths *)
Section Paths.
Context {float : Type}.
Implicit Types (self : @Features float).


Lemma path_pv_single self name pv :
  pv_root self = Some (root self ++ "/docking") →
  name ∈ ["gscore"; "name"; "rmsd"; "ifp"] →
  path_pv self name pv = Ok (replace ".sdf.gz" (artifact_suffix self name) pv).
Proof.
  intros Hpv Hname. unfold path_pv, path. rewrite Hpv.
  cbn [or_raise mbind result_bind].
  rewrite (bool_decide_eq_false_2 (_ ≠ _)) by (intros H; by apply H).
  cbn [mbind result_bind]. unfold artifact_suffix.
  repeat (apply elem_of_cons in Hname as [->|Hname]; [reflexivity|]).
  by apply elem_of_nil in Hname.
Qed.

Lemma path_pv_beside self stem name :
  pv_root self = Some (root self ++ "/docking") →
  contains ".sdf.gz" (stem ++ ".sdf.g") = false →
  name ∈ ["gscore"; "name"; "rmsd"; "ifp"] →
  path_pv self name (stem ++ ".sdf.gz") = Ok (stem ++ artifact_suffix self name).
Proof.
  intros Hpv Hstem Hname. rewrite path_pv_single by done.
  by rewrite replace_sdf_gz_end.
Qed.

Lemma npy_name_beside (stem name : string) :
  npy_name (stem ++ "_" ++ name ++ ".npy") = stem ++ "_" ++ name ++ ".npy".
Proof.
  unfold npy_name. rewrite endswith_app_r; [done|].
  apply endswith_app_r, endswith_app.
Qed.

(** X6.  On an instance with the default pose root, the four artifacts of a
    source [stem.sdf.gz] whose only [.sdf.gz] is its ending are cached beside
    it, at [stem_rmsd.npy], [stem_gscore.npy], [stem_name.npy] and
    [stem_ifp_<version>.csv].  These four paths and the source are pairwise
    different, and [np.save] writes the three arrays at exactly these paths
    (it appends no further [.npy]). *)
Theorem path_of_artifacts_beside_source self stem :
  pv_root self = Some (root self ++ "/docking") →
  contains ".sdf.gz" (stem ++ ".sdf.g") = false →
  let pv := stem ++ ".sdf.gz" in
  path_pv self "rmsd" pv = Ok (stem ++ "_rmsd.npy")
  ∧ path_pv self "gscore" pv = Ok (stem ++ "_gscore.npy")
  ∧ path_pv self "name" pv = Ok (stem ++ "_name.npy")
  ∧ path_pv self "ifp" pv = Ok (stem ++ "_ifp_" ++ ifp_version self ++ ".csv")
  ∧ NoDup [pv; stem ++ "_rmsd.npy"; stem ++ "_gscore.npy"; stem ++ "_name.npy";
           stem ++ "_ifp_" ++ ifp_version self ++ ".csv"]
  ∧ npy_name (stem ++ "_rmsd.npy") = stem ++ "_rmsd.npy"
  ∧ npy_name (stem ++ "_gscore.npy") = stem ++ "_gscore.npy"
  ∧ npy_name (stem ++ "_name.npy") = stem ++ "_name.npy".
Proof.
  intros Hpv Hstem pv.
  pose proof (path_pv_beside self stem) as Hpath.
  split; [apply (Hpath "rmsd"); [done | done | in_list]|].
  split; [apply (Hpath "gscore"); [done | done | in_list]|].
  split; [apply (Hpath "name"); [done | done | in_list]|].
  split; [apply (Hpath "ifp"); [done | done | in_list]|].
  split.
  - assert (∀ a b : string, a ≠ b → stem ++ a ≠ stem ++ b) as Hne.
    { intros a b Hab E. by apply (inj (String.app stem)) in E. }
    unfold pv. repeat constructor; rewrite ?not_elem_of_cons; repeat split;
      try apply not_elem_of_nil; apply Hne; discriminate.
  - split; [apply (npy_name_beside stem "rmsd")|].
    split; [apply (npy_name_beside stem "gscore") | apply (npy_name_beside stem "name")].
Qed.

End Paths.

(** ** Cached artifacts *)
Section Caching.
Context {float : Type}.
Variable float_of_string : string → option float.
Variable abspath : string → string.
Variable obrms : gmap string (@file float) → string → string → result string.
Variable ifp_rows : ifp_settings → list pose → Z → list (@ifp_row).
Implicit Types (self : @Features float) (w : @world float) (store : gmap string (@file float)).

Local Abbreviation compute_single_features :=
  (compute_single_features float_of_string abspath obrms ifp_rows).
Local Abbreviation compute_gscore := (compute_gscore float_of_string).
Local Abbreviation compute_rmsd := (compute_rmsd float_of_string obrms).

Lemma compute_single_features_quiet self pvs native_poses flat w :
  flatten_pvs pvs = Ok flat →
  Forall (λ pv, single_cached self (fs w) (abspath pv)) flat →
  runs_quietly (compute_single_features self pvs native_poses) w tt.
Proof.
  intros Hflat Hcached. unfold Features.compute_single_features.
  assert (∀ name compute w',
            name ∈ ["gscore"; "name"; "rmsd"; "ifp"] → fs w' = fs w →
            runs_quietly
              (for_each (abspath <$> flat) (λ pv, unless_cached self name pv compute)) w' tt)
    as Hloop.
  { intros name compute w' Hname Hw'. apply quiet_for_each.
    intros pv w'' Hpv Hw''. apply unless_cached_quiet.
    apply list_elem_of_fmap in Hpv as (pv0 & -> & Hpv0).
    rewrite Forall_forall in Hcached. rewrite Hw'', Hw'. by apply Hcached. }
  eapply quiet_bind; [by apply quiet_lift|]. intros w1 Hw1.
  eapply quiet_bind; [by apply quiet_emit|]. intros w2 Hw2.
  eapply quiet_bind; [apply (Hloop "gscore"); [in_list | congruence]|]. intros w3 Hw3.
  eapply quiet_bind; [by apply quiet_emit|]. intros w4 Hw4.
  eapply quiet_bind; [apply (Hloop "name"); [in_list | congruence]|]. intros w5 Hw5.
  eapply quiet_bind; [by apply quiet_emit|]. intros w6 Hw6.
  eapply quiet_bind.
  { apply (Hloop "rmsd" (λ pv out, compute_rmsd self pv native_poses out));
      [in_list | congruence]. }
  intros w7 Hw7.
  eapply quiet_bind; [by apply quiet_emit|]. intros w8 Hw8.
  apply (Hloop "ifp"); [in_list | congruence].
Qed.

(** X7.  A source whose path does not contain [.sdf.gz] has no artifact path
    of its own: [path] gives the source path itself for each of its four
    artifacts.  So when such a source exists, [compute_single_features]
    takes it as cached: it extracts nothing for it, changes no file and
    starts no feature computation. *)
Theorem sources_without_suffix_are_never_extracted self pvs native_poses flat w :
  pv_root self = Some (root self ++ "/docking") →
  flatten_pvs pvs = Ok flat →
  Forall (λ pv, contains ".sdf.gz" (abspath pv) = false
                ∧ is_Some (fs w !! abspath pv)) flat →
  (∀ pv name, pv ∈ flat → name ∈ ["gscore"; "name"; "rmsd"; "ifp"] →
     path_pv self name (abspath pv) = Ok (abspath pv))
  ∧ ∃ evs,
      compute_single_features self pvs native_poses w
      = ({| fs := fs w; trace := (trace w ++ evs)%list |}, Ok tt)
      ∧ Forall (λ e, is_call e = false) evs.
Proof.
  intros Hpv Hflat Hall.
  assert (∀ pv name, pv ∈ flat → name ∈ ["gscore"; "name"; "rmsd"; "ifp"] →
            path_pv self name (abspath pv) = Ok (abspath pv)) as Hpath.
  { intros pv name Hin Hname. rewrite path_pv_single by done.
    rewrite Forall_forall in Hall. destruct (Hall pv Hin) as [Habsent _].
    by rewrite replace_sdf_gz_absent. }
  split; [done|].
  apply (compute_single_features_quiet self pvs native_poses flat w Hflat).
  apply Forall_forall. intros pv Hin name Hname.
  exists (abspath pv). split; [by apply Hpath|].
  rewrite Forall_forall in Hall. by destruct (Hall pv Hin).
Qed.

End Caching.

Section Idempotence.
Context {float : Type}.
Variable float_of_string : string → option float.
Variable obrms : gmap string (@file float) → string → string → result string.
Implicit Types (self : @Features float) (w : @world float).

Local Abbreviation compute_gscore := (compute_gscore float_of_string).
Local Abbreviation compute_rmsd := (compute_rmsd float_of_string obrms).

Lemma np_save_run out (a : @ndarray float) w :
  np_save out a w
  = ({| fs := <[npy_name out := Npy a]> (fs w);
        trace := (trace w ++ [Saved out a])%list |}, Ok tt).
Proof. reflexivity. Qed.

(** A feature computation that ends by saving an array at [out]. *)
Lemma saves_at_end {A} (m : M world A) (f : A → @ndarray float) out w w' :
  (x ← m; np_save out (f x)) w = (w', Ok tt) →
  is_Some (fs w' !! npy_name out).
Proof.
  intros H. apply run_bind_inv in H as (w1 & x & _ & H).
  rewrite np_save_run in H. injection H as <-. cbn. rewrite lookup_insert_eq. by eexists.
Qed.

Lemma compute_gscore_saves self pv out w w' :
  compute_gscore self pv out w = (w', Ok tt) → is_Some (fs w' !! npy_name out).
Proof.
  unfold Features.compute_gscore. intros H.
  apply run_bind_inv in H as (w1 & [] & _ & H).
  apply run_bind_inv in H as (w2 & sts & _ & H).
  by apply (saves_at_end _ Arr1) in H.
Qed.

Lemma compute_name_saves self pv out w w' :
  compute_name self pv out w = (w', Ok tt) → is_Some (fs w' !! npy_name out).
Proof.
  unfold compute_name. intros H.
  apply run_bind_inv in H as (w1 & [] & _ & H).
  apply run_bind_inv in H as (w2 & sts & _ & H).
  by apply (saves_at_end _ ArrS) in H.
Qed.

Lemma compute_rmsd_saves self pv native_poses out w w' :
  compute_rmsd self pv native_poses out w = (w', Ok tt) → is_Some (fs w' !! npy_name out).
Proof.
  unfold Features.compute_rmsd. intros H.
  apply run_bind_inv in H as (w1 & [] & _ & H).
  apply run_bind_inv in H as (w2 & [] & _ & H).
  by apply (saves_at_end _ Arr1) in H.
Qed.

Lemma unless_cached_again self name pv out compute w w' :
  path_pv self name pv = Ok out →
  npy_name out = out →
  (∀ w1 w2, compute pv out w1 = (w2, Ok tt) → is_Some (fs w2 !! npy_name out)) →
  unless_cached self name pv compute w = (w', Ok tt) →
  is_Some (fs w' !! out)
  ∧ unless_cached self name pv compute w' = (w', Ok tt).
Proof.
  intros Hpath Hnpy Hsaves Hrun.
  assert (is_Some (fs w' !! out)) as Hout.
  { unfold unless_cached in Hrun.
    erewrite run_bind in Hrun by (unfold lift; rewrite Hpath; reflexivity).
    erewrite run_bind in Hrun by reflexivity.
    case_bool_decide as Hsome.
    - cbn in Hrun. by injection Hrun as <-.
    - cbn [when_not] in Hrun. rewrite <- Hnpy. by eapply Hsaves. }
  split; [done|]. unfold unless_cached.
  erewrite run_bind by (unfold lift; rewrite Hpath; reflexivity).
  erewrite run_bind by reflexivity.
  by rewrite bool_decide_eq_true_2.
Qed.

(** X8.  On an instance with the default pose root and for a source
    [stem.sdf.gz] whose only [.sdf.gz] is its ending, each of the three
    array-caching steps of [compute_single_features] (scores, names, RMSDs)
    is idempotent: once the step has returned, its artifact exists, and
    running the step again computes nothing and leaves the world exactly as
    it is. *)
Theorem cache_steps_are_idempotent self stem native_poses name compute w w' :
  pv_root self = Some (root self ++ "/docking") →
  contains ".sdf.gz" (stem ++ ".sdf.g") = false →
  (name = "gscore" ∧ compute = compute_gscore self)
  ∨ (name = "name" ∧ compute = compute_name self)
  ∨ (name = "rmsd" ∧ compute = λ pv out, compute_rmsd self pv native_poses out) →
  unless_cached self name (stem ++ ".sdf.gz") compute w = (w', Ok tt) →
  is_Some (fs w' !! (stem ++ "_" ++ name ++ ".npy"))
  ∧ unless_cached self name (stem ++ ".sdf.gz") compute w' = (w', Ok tt).
Proof.
  intros Hpv Hstem Hstep Hrun.
  assert (path_pv self name (stem ++ ".sdf.gz") = Ok (stem ++ "_" ++ name ++ ".npy"))
    as Hpath.
  { rewrite path_pv_beside by (try done; destruct Hstep as [[-> _] | [[-> _] | [-> _]]]; in_list).
    by destruct Hstep as [[-> _] | [[-> _] | [-> _]]]. }
  eapply unless_cached_again; [exact Hpath | apply npy_name_beside | | exact Hrun].
  intros w1 w2.
  destruct Hstep as [[_ ->] | [[_ ->] | [_ ->]]].
  - apply compute_gscore_saves.
  - apply compute_name_saves.
  - apply compute_rmsd_saves.
Qed.

End Idempotence.

(** ** Scores and names of a source *)
Section Extraction.
Context {float : Type}.
Variable float_of_string : string → option float.
Implicit Types (self : @Features float) (w : @world float) (st : pose).

Local Abbreviation compute_gscore := (compute_gscore float_of_string).
Local Abbreviation gscore_loop := (gscore_loop float_of_string).
Local Abbreviation pose_score := (pose_score float_of_string).


Lemma reached_nil self k : reached self k [] = [].
Proof. unfold reached. destruct (bool_decide _); [apply take_nil | done]. Qed.

Lemma reached_cons self k st sts :
  reached self k (st :: sts)
  = st :: if bool_decide (Z.of_nat (S k) = max_poses self) then [] else reached self (S k) sts.
Proof.
  unfold reached. destruct (decide (Z.of_nat k < max_poses self)%Z) as [Hlt|Hge].
  - rewrite (bool_decide_eq_true_2 _ Hlt).
    replace (Z.to_nat (max_poses self) - k)%nat
      with (S (Z.to_nat (max_poses self) - S k)) by lia.
    cbn [take]. f_equal. case_bool_decide as Hcap.
    + replace (Z.to_nat (max_poses self) - S k)%nat with 0%nat by lia. apply take_0.
    + assert (Z.of_nat (S k) < max_poses self)%Z as Hlt' by lia.
      by rewrite (bool_decide_eq_true_2 _ Hlt').
  - rewrite (bool_decide_eq_false_2 _ Hge). f_equal.
    assert (Z.of_nat (S k) ≠ max_poses self) as Hne by lia.
    assert (¬ (Z.of_nat (S k) < max_poses self)%Z) as Hge' by lia.
    by rewrite (bool_decide_eq_false_2 _ Hne), (bool_decide_eq_false_2 _ Hge').
Qed.

Lemma reached_named self sts : reached self 0 sts = named_poses self sts.
Proof.
  unfold reached, named_poses. rewrite Nat.sub_0_r.
  destruct (decide (1 ≤ max_poses self)%Z) as [H1|H1].
  - assert (Z.of_nat 0 < max_poses self)%Z as H0 by lia.
    by rewrite (bool_decide_eq_true_2 _ H1), (bool_decide_eq_true_2 _ H0).
  - assert (¬ (Z.of_nat 0 < max_poses self)%Z) as H0 by lia.
    by rewrite (bool_decide_eq_false_2 _ H1), (bool_decide_eq_false_2 _ H0).
Qed.

Lemma pose_score_Some st x :
  pose_score st = Some x →
  ∃ v, GetProp st "CNNaffinity" = Ok v ∧ float_of_string v = Some x.
Proof.
  unfold Features.pose_score, GetProp. destruct (props st !! "CNNaffinity") as [v|]; [|done].
  intros H. by exists v.
Qed.

Lemma gscore_loop_spec self (sts : list pose) (k : nat) (acc : list num) (xs : list float) :
  length acc = k →
  Forall2 (λ st x, pose_score st = Some x) (reached self k sts) xs →
  gscore_loop self sts acc = Ok (acc ++ (NFloat <$> xs))%list.
Proof.
  revert k acc xs. induction sts as [|st sts IH]; intros k acc xs Hk Hall.
  - rewrite reached_nil in Hall. apply Forall2_nil_inv_l in Hall as ->.
    cbn. by rewrite app_nil_r.
  - rewrite reached_cons in Hall.
    apply Forall2_cons_inv_l in Hall as (x & xs' & Hx & Hall & ->).
    apply pose_score_Some in Hx as (v & Hv & Hx).
    cbn [Features.gscore_loop]. rewrite Hv. cbn [mbind result_bind]. rewrite Hx.
    cbn [or_raise mbind result_bind].
    rewrite length_app. cbn [length]. rewrite Nat.add_1_r, Hk.
    destruct (bool_decide (Z.of_nat (S k) = max_poses self)).
    + by apply Forall2_nil_inv_l in Hall as ->.
    + rewrite (IH (S k) _ xs'); [|rewrite length_app; cbn; lia | done].
      by rewrite <- app_assoc.
Qed.

Lemma gscore_loop_fails self (sts : list pose) (k : nat) (acc : list num) :
  length acc = k →
  Exists (λ st, pose_score st = None) (reached self k sts) →
  gscore_loop self sts acc = Raise KeyError ∨ gscore_loop self sts acc = Raise ValueError.
Proof.
  revert k acc. induction sts as [|st sts IH]; intros k acc Hk Hex.
  - rewrite reached_nil in Hex. by apply Exists_nil in Hex.
  - rewrite reached_cons in Hex. cbn [Features.gscore_loop].
    unfold GetProp, Features.pose_score in *.
    destruct (props st !! "CNNaffinity") as [v|] eqn:Hv; [|by left].
    cbn [or_raise mbind result_bind option_bind] in *.
    destruct (float_of_string v) as [x|] eqn:Hx; [|by right].
    cbn [or_raise mbind result_bind].
    apply Exists_cons in Hex as [Hbad|Hex].
    { rewrite Hv in Hbad. cbn in Hbad. congruence. }
    rewrite length_app. cbn [length]. rewrite Nat.add_1_r, Hk.
    destruct (bool_decide (Z.of_nat (S k) = max_poses self)).
    + by apply Exists_nil in Hex.
    + apply (IH (S k)); [rewrite length_app; cbn; lia | done].
Qed.

Lemma compute_gscore_run self pv out w sts (xs : list float) :
  fs w !! pv = Some (SdfGz sts) →
  Forall2 (λ st x, pose_score st = Some x) (named_poses self sts) xs →
  compute_gscore self pv out w
  = ({| fs := <[npy_name out := Npy (Arr1 (NFloat <$> xs))]> (fs w);
        trace := (trace w ++ [CallGscore pv out; Saved out (Arr1 (NFloat <$> xs))])%list |},
     Ok tt).
Proof.
  intros Hpv Hall. rewrite <- reached_named in Hall.
  pose proof (gscore_loop_spec self sts 0 [] xs eq_refl Hall) as Hloop. cbn [app] in Hloop.
  unfold Features.compute_gscore. step.
  erewrite run_bind; [| unfold read, read_sdf; cbn [fs]; rewrite Hpv; reflexivity].
  erewrite run_bind; [| unfold lift; rewrite Hloop; reflexivity].
  unfold np_save. step. unfold emit, modify. cbn [fs trace].
  by rewrite <- app_assoc.
Qed.

(** X9.  For a pose source, [compute_gscore] saves one score per structure
    it gets to (all of them, or the first [max_poses] when the cap is
    positive), in file order: the float read from the structure's
    [CNNaffinity] property.  Structures after the cap are not looked at:
    they may lack the property. *)
Theorem compute_gscore_saves_scores_in_order self pv out w sts (xs : list float) :
  fs w !! pv = Some (SdfGz sts) →
  Forall2 (λ st x, pose_score st = Some x) (named_poses self sts) xs →
  compute_gscore self pv out w
  = ({| fs := <[npy_name out := Npy (Arr1 (NFloat <$> xs))]> (fs w);
        trace := (trace w ++ [CallGscore pv out; Saved out (Arr1 (NFloat <$> xs))])%list |},
     Ok tt)
  ∧ length xs = length (named_poses self sts)
  ∧ ((1 ≤ max_poses self)%Z → (Z.of_nat (length xs) ≤ max_poses self)%Z).
Proof.
  intros Hpv Hall. split; [by apply (compute_gscore_run self pv out w sts)|].
  apply Forall2_length in Hall. split; [done|].
  intros Hcap. rewrite <- Hall. unfold named_poses.
  rewrite (bool_decide_eq_true_2 _ Hcap), length_take. lia.
Qed.

(** X10.  [compute_gscore] and [compute_name] write nothing when they fail.
    When the pose source is missing they raise [FileNotFoundError]; and
    [compute_gscore] raises [KeyError] or [ValueError] when a structure it
    gets to has no [CNNaffinity] that parses as a float.  In each case the
    files are as they were and only the start of the computation is
    recorded. *)
Theorem extraction_failure_writes_nothing self pv out w :
  (fs w !! pv = None →
     compute_gscore self pv out w
     = ({| fs := fs w; trace := (trace w ++ [CallGscore pv out])%list |},
        Raise FileNotFoundError)
     ∧ compute_name self pv out w
       = ({| fs := fs w; trace := (trace w ++ [CallName pv out])%list |},
          Raise FileNotFoundError))
  ∧ (∀ sts, fs w !! pv = Some (SdfGz sts) →
       Exists (λ st, pose_score st = None) (named_poses self sts) →
       ∃ e, (e = KeyError ∨ e = ValueError)
            ∧ compute_gscore self pv out w
              = ({| fs := fs w; trace := (trace w ++ [CallGscore pv out])%list |}, Raise e)).
Proof.
  split.
  - intros Hnone. split.
    + unfold Features.compute_gscore. step.
      erewrite run_bind_raise; [done|]. unfold read, read_sdf. cbn [fs]. by rewrite Hnone.
    + unfold compute_name. step.
      erewrite run_bind_raise; [done|]. unfold read, read_sdf. cbn [fs]. by rewrite Hnone.
  - intros sts Hpv Hex. rewrite <- reached_named in Hex.
    destruct (gscore_loop_fails self sts 0 [] eq_refl Hex) as [Hloop|Hloop].
    + exists KeyError. split; [by left|].
      unfold Features.compute_gscore. step.
      erewrite run_bind; [| unfold read, read_sdf; cbn [fs]; rewrite Hpv; reflexivity].
      erewrite run_bind_raise; [done|]. unfold lift. by rewrite Hloop.
    + exists ValueError. split; [by right|].
      unfold Features.compute_gscore. step.
      erewrite run_bind; [| unfold read, read_sdf; cbn [fs]; rewrite Hpv; reflexivity].
      erewrite run_bind_raise; [done|]. unfold lift. by rewrite Hloop.
Qed.

(** X11.  For a pose source whose structures all have a title and a score,
    the name array and the score array that [compute_name] and
    [compute_gscore] save have the same length: the number of structures
    up to the cap, the whole source when the cap is not positive. *)
Theorem names_and_scores_have_one_length self pv out_n out_g w sts :
  fs w !! pv = Some (SdfGz sts) →
  Forall (λ st, is_Some (props st !! "_Name") ∧ is_Some (pose_score st)) sts →
  ∃ names gscores,
    fs (compute_name self pv out_n w).1 !! npy_name out_n = Some (Npy (ArrS names))
    ∧ fs (compute_gscore self pv out_g w).1 !! npy_name out_g = Some (Npy (Arr1 gscores))
    ∧ length names = length gscores
    ∧ length names = length (named_poses self sts)
    ∧ Z.of_nat (length names)
      = (if bool_decide (1 ≤ max_poses self)%Z
         then Z.min (max_poses self) (Z.of_nat (length sts))
         else Z.of_nat (length sts)).
Proof.
  intros Hpv Hall.
  assert (∃ xs, Forall2 (λ st x, pose_score st = Some x) (named_poses self sts) xs) as [xs Hxs].
  { assert (Forall (λ st, is_Some (pose_score st)) (named_poses self sts)) as Hsome.
    { unfold named_poses. destruct (bool_decide _); [apply Forall_take|];
        eapply Forall_impl; try exact Hall; by intros st [_ ?]. }
    induction Hsome as [|st l [x Hx] _ [xs IH]]; [by exists []|].
    exists (x :: xs). by constructor. }
  exists (imap (name_entry (docked_to_of pv)) (named_poses self sts)), (NFloat <$> xs).
  assert (Forall (λ st, is_Some (props st !! "_Name")) sts) as Hnames.
  { eapply Forall_impl; [exact Hall|]. by intros st [? _]. }
  pose proof (name_loop_all self (docked_to_of pv) sts Hnames) as Hloop.
  split; [|split; [|split; [|split]]].
  - unfold compute_name. step.
    erewrite run_bind; [| unfold read, read_sdf; cbn [fs]; rewrite Hpv; reflexivity].
    erewrite run_bind; [| unfold lift; rewrite Hloop; reflexivity].
    unfold np_save. step. unfold emit, modify. cbn [fs trace fst].
    by rewrite lookup_insert_eq.
  - rewrite (compute_gscore_run self pv out_g w sts xs Hpv Hxs). cbn [fst fs].
    by rewrite lookup_insert_eq.
  - rewrite length_imap, length_fmap. by apply Forall2_length in Hxs.
  - by rewrite length_imap.
  - rewrite length_imap. unfold named_poses.
    case_bool_decide; [rewrite length_take|]; lia.
Qed.

End Extraction.

(** ** Identity strings and reference names *)
Section Names.
Context {float : Type}.
Implicit Types (self : @Features float) (w : @world float) (st : pose).

Lemma name_entry_inj d (i j : nat) st st' :
  name_entry d i st = name_entry d j st' → i = j.
Proof.
  unfold name_entry. intros E.
  rewrite <- !(string_app_assoc _ "_"), <- !(string_app_assoc _ (str_of_nat _)) in E.
  apply string_app_inj_r in E.
  rewrite !string_app_assoc in E.
  apply after_last_char in E; [by apply str_of_nat_inj|..]; apply str_of_nat_no_underscore.
Qed.

(** What [name_loop] returns: the entries it was given, then one entry per
    item of a prefix of its list. *)
Lemma name_loop_entries self d (items : list (nat * pose)) (acc names : list string) :
  name_loop self d items acc = Ok names →
  ∃ used, used `prefix_of` items
          ∧ names = (acc ++ ((λ item, name_entry d item.1 item.2) <$> used))%list.
Proof.
  revert acc names. induction items as [|[idx st] items IH]; intros acc names H.
  - injection H as <-. exists []. split; [done|]. by rewrite app_nil_r.
  - cbn [name_loop] in H. apply bind_Ok_inv in H as (n & Hn & H).
    assert (name_entry d idx st = n ++ "_" ++ str_of_nat idx ++ "-to-" ++ d) as Hentry.
    { unfold name_entry, pose_name, GetProp in *.
      destruct (props st !! "_Name"); [|discriminate]. by injection Hn as ->. }
    rewrite <- Hentry in H. destruct (bool_decide _).
    + injection H as <-. exists [(idx, st)]. split; [|done].
      by apply prefix_cons, prefix_nil.
    + apply IH in H as (used & Hused & ->). exists ((idx, st) :: used).
      split; [by apply prefix_cons|]. by rewrite <- app_assoc.
Qed.

Lemma count_eq_zero (names : list string) n : n ∉ names → count_eq names n = 0%nat.
Proof.
  intros Hn. unfold count_eq. induction names as [|x names IH]; [done|].
  apply not_elem_of_cons in Hn as [Hne Hn].
  rewrite filter_cons_False by done. by apply IH.
Qed.

Lemma filter_all {A} (P : A → Prop) `{∀ x, Decision (P x)} (l : list A) :
  Forall P l → filter P l = l.
Proof.
  induction 1 as [|x l Hx _ IH]; [done|]. rewrite filter_cons_True by done. by rewrite IH.
Qed.

Lemma keep_indices_all self (names : list string) :
  NoDup names → (1 ≤ max_poses self)%Z →
  keep_indices self names None = seq 0 (length names).
Proof.
  intros Hnd Hcap. rewrite keep_indices_filter. apply filter_all, Forall_forall.
  intros i Hi. apply elem_of_seq in Hi.
  destruct (lookup_lt_is_Some_2 names i) as [n Hn]; [lia|].
  apply keep_test_true. exists n. split; [done|]. split; [by left|].
  rewrite count_eq_zero; [lia|]. intros Hin.
  apply list_elem_of_lookup in Hin as [j Hj].
  apply lookup_take_Some in Hj as [Hj Hlt].
  pose proof (NoDup_lookup _ _ _ _ Hnd Hn Hj). lia.
Qed.

(** X12.  The identity strings [compute_name] builds for a source are
    pairwise different, whatever the titles of the structures: each holds
    the position of its structure in the source.  So on a name array as
    [compute_name] saves it, the per-name cap of [load_single_features]
    never drops a pose: without a ligand filter and with a positive cap,
    every position is retained. *)
Theorem compute_name_entries_are_distinct self d (sts : list pose) (names : list string) :
  name_loop self d (imap pair sts) [] = Ok names →
  NoDup names
  ∧ ((1 ≤ max_poses self)%Z → keep_indices self names None = seq 0 (length names)).
Proof.
  intros H. apply name_loop_entries in H as (used & Hused & ->). cbn [app].
  assert (NoDup ((λ item : nat * pose, name_entry d item.1 item.2) <$> used)) as Hnd.
  { apply NoDup_alt. intros i j x Hi Hj.
    rewrite list_lookup_fmap in Hi, Hj.
    destruct (used !! i) as [[i' st]|] eqn:Ui; [|discriminate].
    destruct (used !! j) as [[j' st']|] eqn:Uj; [|discriminate].
    cbn in Hi, Hj. injection Hi as <-. injection Hj as Hx.
    eapply prefix_lookup_Some in Ui; [|exact Hused].
    eapply prefix_lookup_Some in Uj; [|exact Hused].
    rewrite list_lookup_imap in Ui, Uj.
    destruct (sts !! i); [|discriminate]. destruct (sts !! j); [|discriminate].
    cbn in Ui, Uj. injection Ui as <- _. injection Uj as <- _.
    by apply name_entry_inj in Hx. }
  split; [done|]. intros Hcap. by apply keep_indices_all.
Qed.

End Names.

Section Reference.
Context {float : Type}.
Variable float_of_string : string → option float.
Variable obrms : gmap string (@file float) → string → string → result string.
Implicit Types (self : @Features float) (w : @world float).

Local Abbreviation compute_rmsd := (compute_rmsd float_of_string obrms).

Lemma rmsd_name_plain (pv : string) :
  contains "-" (rmsd_name pv) = false ∧ contains "/" (rmsd_name pv) = false.
Proof.
  unfold rmsd_name, split.
  pose proof (split_go_not_nil "/" 0 "" pv) as Hne1.
  pose proof (last_piece_in _ Hne1) as Hlast.
  pose proof (split_go_char_no_sep "/" "" pv eq_refl) as Hslash.
  rewrite Forall_forall in Hslash. specialize (Hslash _ Hlast).
  set (b := last_piece (split_go "/" 0 "" pv)) in *.
  pose proof (split_go_not_nil "-" 0 "" b) as Hne2.
  pose proof (first_piece_in _ Hne2) as Hfirst.
  split.
  - pose proof (split_go_char_no_sep "-" "" b eq_refl) as H.
    rewrite Forall_forall in H. by apply H.
  - pose proof (split_go_char_free "-" "/" "" b eq_refl Hslash) as H.
    rewrite Forall_forall in H. by apply H.
Qed.

(** X13.  The ligand name [compute_rmsd] looks up in the reference table is
    what precedes the first hyphen of the file name of the source: it holds
    no hyphen and no slash.  So a reference stored under a name with a
    hyphen or a slash is never used: adding it to the table changes nothing
    of what [compute_rmsd] does, for any source. *)
Theorem compute_rmsd_never_uses_hyphenated_reference self pv native_poses out k native w :
  contains "-" k = true ∨ contains "/" k = true →
  rmsd_name pv ≠ k
  ∧ compute_rmsd self pv (<[k := native]> native_poses) out w
    = compute_rmsd self pv native_poses out w.
Proof.
  intros Hk.
  assert (rmsd_name pv ≠ k) as Hne.
  { intros <-. destruct (rmsd_name_plain pv) as [H1 H2]. destruct Hk; congruence. }
  split; [done|]. unfold Features.compute_rmsd.
  by rewrite lookup_insert_ne.
Qed.

End Reference.

(** ** Pairwise blocks of a view *)
Section View.
Context {float : Type}.
Implicit Types (self : @Features float) (data : gmap string (@view_dict float))
  (a : @ndarray float) (d : @view_dict float).

Lemma elem_of_later_pairs (ligands : list string) (l1 l2 : string) :
  (l1, l2) ∈ later_pairs ligands ↔
  ∃ i j, (i < j)%nat ∧ ligands !! i = Some l1 ∧ ligands !! j = Some l2.
Proof.
  induction ligands as [|l ligands IH]; cbn [later_pairs].
  - split; [by intros ?%elem_of_nil | by intros (i & j & _ & ? & _)].
  - rewrite elem_of_app, list_elem_of_fmap, IH. split.
    + intros [(y & [= -> ->] & Hy) | (i & j & Hij & Hi & Hj)].
      * apply list_elem_of_lookup in Hy as [j Hj]. exists 0%nat, (S j). split; [lia|]. done.
      * exists (S i), (S j). split; [lia|]. done.
    + intros (i & j & Hij & Hi & Hj). destruct j as [|j]; [lia|]. cbn in Hj.
      destruct i as [|i].
      * cbn in Hi. injection Hi as ->. left. exists l2. split; [done|].
        by eapply list_elem_of_lookup_2.
      * right. exists i, j. split; [lia|]. done.
Qed.

Lemma view_pair_block self feature data key :
  view_pair self feature data key
  = (block ← pair_block self feature key; Ok (alter (set_pair key block) feature data)).
Proof.
  unfold view_pair, pair_block.
  destruct (name_mask self key.1); [|done]. destruct (name_mask self key.2); [|done].
  cbn [mbind result_bind]. by destruct (raw_get self feature) as [[]|].
Qed.

Lemma view_pairs_spec self feature (keys : list (string * string)) data data' d :
  fold_result (view_pair self feature) keys data = Ok data' →
  data !! feature = Some d →
  ∃ d', data' !! feature = Some d'
        ∧ by_ligand d' = by_ligand d
        ∧ (∀ key, key ∈ keys →
             ∃ m, pair_block self feature key = Ok m ∧ by_pair d' !! key = Some m)
        ∧ (∀ key, key ∉ keys → by_pair d' !! key = by_pair d !! key).
Proof.
  revert data d. induction keys as [|key0 keys IH]; intros data d H Hd.
  - injection H as <-. exists d. split; [done|]. split; [done|]. split; [|done].
    intros key Hkey. by apply elem_of_nil in Hkey.
  - cbn [fold_result] in H. apply bind_Ok_inv in H as (d1 & Hd1 & H).
    rewrite view_pair_block in Hd1. apply bind_Ok_inv in Hd1 as (m0 & Hm0 & Hd1).
    injection Hd1 as <-.
    destruct (IH _ (set_pair key0 m0 d) H) as (d' & Hd' & Hlig & Hin & Hout).
    { by rewrite lookup_alter_eq, Hd. }
    exists d'. split; [done|]. split; [done|]. split.
    + intros key Hkey. destruct (decide (key ∈ keys)) as [Hk|Hk]; [by apply Hin|].
      apply elem_of_cons in Hkey as [->|Hkey]; [|done].
      exists m0. split; [done|]. rewrite Hout by done. cbn. by rewrite lookup_insert_eq.
    + intros key Hkey. apply not_elem_of_cons in Hkey as [Hne Hkey].
      rewrite Hout by done. cbn. by rewrite lookup_insert_ne.
Qed.

Lemma view_feature_spec self ligands feature data data' :
  view_feature self ligands data feature = Ok data' →
  ∃ d', data' !! feature = Some d'
        ∧ by_ligand d' = ∅
        ∧ (∀ key, key ∈ later_pairs ligands →
             ∃ m, pair_block self feature key = Ok m ∧ by_pair d' !! key = Some m)
        ∧ (∀ key, key ∉ later_pairs ligands → by_pair d' !! key = None).
Proof.
  unfold view_feature. intros H.
  eapply (view_pairs_spec _ _ _ _ _ empty_dict) in H; [|by rewrite lookup_insert_eq].
  destruct H as (d' & Hd' & Hlig & Hin & Hout).
  exists d'. split; [done|]. split; [exact Hlig|]. split; [exact Hin|].
  intros key Hkey. by rewrite Hout.
Qed.

Lemma view_features_spec self ligands (features : list string) feature data data' :
  fold_result (view_feature self ligands) features data = Ok data' →
  feature ∈ features →
  ∃ d', data' !! feature = Some d'
        ∧ by_ligand d' = ∅
        ∧ (∀ key, key ∈ later_pairs ligands →
             ∃ m, pair_block self feature key = Ok m ∧ by_pair d' !! key = Some m)
        ∧ (∀ key, key ∉ later_pairs ligands → by_pair d' !! key = None).
Proof.
  revert data. induction features as [|f features IH]; intros data H Hin.
  - by apply elem_of_nil in Hin.
  - cbn [fold_result] in H. apply bind_Ok_inv in H as (d1 & Hd1 & H).
    destruct (decide (feature ∈ features)) as [Hlater|Hlast]; [by eapply IH|].
    apply elem_of_cons in Hin as [->|Hin]; [|done].
    rewrite (view_features_frame _ _ _ _ _ f H Hlast).
    by eapply view_feature_spec.
Qed.

Lemma pair_block_shape self feature key m :
  pair_block self feature key = Ok m →
  ∃ names M,
    raw self !! "name1" = Some (ArrS names)
    ∧ raw self !! feature = Some (Arr2 M)
    ∧ mask_2d M (mask_of names key.1) (mask_of names key.2) = Ok m
    ∧ length names = nrows M ∧ length names = ncols M
    ∧ nrows m = count_eq names key.1
    ∧ ncols m = count_eq names key.2.
Proof.
  unfold pair_block. intros H.
  apply bind_Ok_inv in H as (mask1 & Hm1 & H).
  apply bind_Ok_inv in H as (mask2 & Hm2 & H).
  apply bind_Ok_inv in H as (a & Ha & H).
  apply bind_Ok_inv in H as (M & HM & H).
  apply name_mask_inv in Hm1 as (names & Hnames & ->).
  apply name_mask_inv in Hm2 as (names' & Hnames' & ->).
  assert (names' = names) as -> by congruence.
  destruct a as [| |M']; try discriminate. injection HM as ->.
  unfold raw_get in Ha. destruct (raw self !! feature) as [a|] eqn:Hraw; [|discriminate].
  injection Ha as ->.
  exists names, M. split; [done|]. split; [done|]. split; [done|].
  unfold mask_2d in H.
  destruct (Nat.eqb_spec (length ((λ n, bool_decide (n = key.1)) <$> names)) (nrows M)) as [E1|];
    [|discriminate].
  destruct (Nat.eqb_spec (length ((λ n, bool_decide (n = key.2)) <$> names)) (ncols M)) as [E2|];
    [|discriminate].
  cbn [negb] in H. injection H as <-. cbn [nrows ncols].
  rewrite length_fmap in E1, E2.
  rewrite !mask_positions_length, !mask_sum_names. done.
Qed.

(** X14.  In a view that [get_view] returns, the dictionary of every requested
    feature holds one block per pair of requested ligands taken in list
    order (the ligand at position [i] with each ligand at a later position)
    and nothing else.  The block of [(ligand1, ligand2)] is the stored
    matrix of the feature restricted to the rows of the poses named
    [ligand1] and the columns of the poses named [ligand2]: the stored
    matrix is square over the poses, and the block has one row per pose of
    [ligand1] and one column per pose of [ligand2]. *)
Theorem get_view_pair_blocks self ligands features data feature :
  get_view self ligands features = Ok data →
  feature ∈ features →
  ∃ d,
    data !! feature = Some d
    ∧ by_ligand d = ∅
    ∧ (∀ l1 l2, is_Some (by_pair d !! (l1, l2)) ↔
                ∃ i j, (i < j)%nat ∧ ligands !! i = Some l1 ∧ ligands !! j = Some l2)
    ∧ (∀ l1 l2 m, by_pair d !! (l1, l2) = Some m →
         ∃ names M,
           raw self !! "name1" = Some (ArrS names)
           ∧ raw self !! feature = Some (Arr2 M)
           ∧ mask_2d M (mask_of names l1) (mask_of names l2) = Ok m
           ∧ length names = nrows M ∧ length names = ncols M
           ∧ nrows m = count_eq names l1
           ∧ ncols m = count_eq names l2).
Proof.
  intros H Hin. unfold get_view in H. cbv zeta in H.
  apply bind_Ok_inv in H as (d1 & _ & H).
  destruct (view_features_spec _ _ _ _ _ _ H Hin) as (d & Hd & Hlig & Hpairs & Hnone).
  exists d. split; [done|]. split; [done|]. split.
  - intros l1 l2. rewrite <- elem_of_later_pairs. split.
    + intros Hsome. destruct (decide ((l1, l2) ∈ later_pairs ligands)) as [|Hnot]; [done|].
      rewrite (Hnone _ Hnot) in Hsome. by destruct Hsome.
    + intros Hkey. destruct (Hpairs _ Hkey) as (m & _ & ->). by eexists.
  - intros l1 l2 m Hm.
    destruct (decide ((l1, l2) ∈ later_pairs ligands)) as [Hkey|Hnot];
      [|by rewrite (Hnone _ Hnot) in Hm].
    destruct (Hpairs _ Hkey) as (m' & Hblock & Hm'). assert (m' = m) as -> by congruence.
    by apply pair_block_shape in Hblock.
Qed.

Lemma later_pairs_short (ligands : list string) :
  (length ligands ≤ 1)%nat → later_pairs ligands = [].
Proof. destruct ligands as [|l [|l' ligands]]; cbn; [done | done | lia]. Qed.

Lemma view_features_without_pairs self ligands (features : list string) data :
  later_pairs ligands = [] →
  fold_result (view_feature self ligands) features data
  = Ok (foldl (λ (d : gmap string view_dict) (f : string), <[f := empty_dict]> d) data features).
Proof.
  intros Hpairs. revert data. induction features as [|f features IH]; intros data; [done|].
  cbn [fold_result foldl].
  assert (view_feature self ligands data f = Ok (<[f := empty_dict]> data)) as ->
    by (unfold view_feature; by rewrite Hpairs).
  cbn [mbind result_bind]. apply IH.
Qed.

(** X15.  With fewer than two requested ligands there is no pair, and
    [get_view] never reads the stored matrix of a feature: whatever the
    first loop returns, every requested feature gets an empty dictionary.
    With no ligand at all nothing stored is read and the view holds empty
    dictionaries only.  With at least one ligand, a store without the
    [name1] array makes [get_view] raise [KeyError]. *)
Theorem get_view_with_few_ligands self ligands features :
  let empty_view : gmap string (@view_dict float) :=
    <["rmsd" := empty_dict]> (<["gscore" := empty_dict]> ∅) in
  ((length ligands ≤ 1)%nat →
     get_view self ligands features
     = (data ← fold_result (view_ligand self) ligands empty_view;
        Ok (foldl (λ (d : gmap string view_dict) (f : string), <[f := empty_dict]> d) data features)))
  ∧ (ligands = [] →
       get_view self ligands features
       = Ok (foldl (λ (d : gmap string view_dict) (f : string), <[f := empty_dict]> d) empty_view features))
  ∧ (ligands ≠ [] → raw self !! "name1" = None →
       get_view self ligands features = Raise KeyError).
Proof.
  intros empty_view.
  assert ((length ligands ≤ 1)%nat →
          get_view self ligands features
          = (data ← fold_result (view_ligand self) ligands empty_view;
             Ok (foldl (λ (d : gmap string view_dict) (f : string), <[f := empty_dict]> d) data features))) as Hshort.
  { intros Hlen. unfold get_view. cbv zeta. fold empty_view.
    destruct (fold_result (view_ligand self) ligands empty_view) as [data|e]; [|done].
    cbn [mbind result_bind]. apply view_features_without_pairs.
    by apply later_pairs_short. }
  split; [done|]. split.
  - intros ->. by rewrite Hshort by (cbn; lia).
  - intros Hne Hnone. destruct ligands as [|l ligands]; [done|].
    assert (∀ data, view_ligand self data l = Raise KeyError) as Hfail
      by (intros data; unfold view_ligand, name_mask, raw_get; by rewrite Hnone).
    unfold get_view. cbv zeta. cbn [fold_result]. by rewrite Hfail.
Qed.

End View.

(** ** Loading the stored arrays *)
Section Raw.
Context {float : Type}.
Variable glob : gmap string (@file float) → string → list string.
Implicit Types (self : @Features float) (store : gmap string (@file float)).

Local Abbreviation load_features := (load_features glob).

Lemma raw_key_under_root (r name : string) :
  contains "/" name = false → raw_key (r ++ "/" ++ name ++ ".npy") = name.
Proof.
  intros Hname. unfold raw_key, split.
  change (r ++ "/" ++ name ++ ".npy") with (r ++ String "/" (name ++ ".npy")).
  rewrite split_go_char_last.
  - apply (drop_last_app name ".npy").
  - apply contains_char_app. by split.
Qed.

Lemma under_root_inj self name1 name2 :
  root self ++ "/" ++ name1 ++ ".npy" = root self ++ "/" ++ name2 ++ ".npy" → name1 = name2.
Proof.
  intros H. apply (inj (String.app (root self))) in H.
  injection H as H. change (name1 ++ ".npy" = name2 ++ ".npy") in H.
  by apply string_app_inj_r in H.
Qed.

(** What the loop of [load_features] does to an instance. *)
Lemma load_loop_spec store (paths : list string) self self' :
  Forall (under_root self) paths →
  for_each paths (load_feature store) self = (self', Ok tt) →
  root self' = root self ∧ pv_root self' = pv_root self
  ∧ ifp_version self' = ifp_version self ∧ shape_version self' = shape_version self
  ∧ mcss_version self' = mcss_version self ∧ mcss_file self' = mcss_file self
  ∧ max_poses self' = max_poses self ∧ ifp_features self' = ifp_features self
  ∧ (∀ name, root self ++ "/" ++ name ++ ".npy" ∈ paths →
       ∃ a, store !! (root self ++ "/" ++ name ++ ".npy") = Some (Npy a)
            ∧ raw self' !! name = Some a)
  ∧ (∀ name, root self ++ "/" ++ name ++ ".npy" ∉ paths →
       raw self' !! name = raw self !! name).
Proof.
  revert self. induction paths as [|path paths IH]; intros self Hall Hrun.
  - injection Hrun as <-. repeat split; try done.
    intros name Hin. by apply elem_of_nil in Hin.
  - apply Forall_cons in Hall as [(name0 & -> & Hname0) Hall].
    cbn [for_each] in Hrun. apply run_bind_inv in Hrun as (self1 & [] & Hfirst & Hrun).
    unfold load_feature in Hfirst. rewrite raw_key_under_root in Hfirst by done.
    apply run_bind_inv in Hfirst as (self0 & a0 & Hload & Hset).
    unfold lift in Hload. injection Hload as <- Hload. apply np_load_inv in Hload.
    unfold modify in Hset. injection Hset as <-.
    destruct (IH (set_raw name0 a0 self)) as (E1 & E2 & E3 & E4 & E5 & E6 & E7 & E8 & Hin & Hout);
      [exact Hall | exact Hrun |].
    cbn [root pv_root ifp_version shape_version mcss_version mcss_file max_poses
         ifp_features set_raw] in *.
    repeat split; try done.
    + intros name Hname.
      destruct (decide (root self ++ "/" ++ name ++ ".npy" ∈ paths)) as [Hlater|Hlast];
        [by apply Hin|].
      apply elem_of_cons in Hname as [Hname|Hname]; [|done].
      apply under_root_inj in Hname as ->.
      exists a0. split; [done|]. rewrite Hout by done. cbn. by rewrite lookup_insert_eq.
    + intros name Hname. apply not_elem_of_cons in Hname as [Hne Hname].
      rewrite Hout by done. cbn. rewrite lookup_insert_ne; [done|]. by intros ->.
Qed.

Lemma load_features_listed store self self' :
  Forall (under_root self) (glob store (root self ++ "/*.npy")) →
  load_features store self = (self', Ok tt) →
  (∀ name, root self ++ "/" ++ name ++ ".npy" ∈ glob store (root self ++ "/*.npy") →
     ∃ a, store !! (root self ++ "/" ++ name ++ ".npy") = Some (Npy a)
          ∧ raw self' !! name = Some a)
  ∧ (∀ name, root self ++ "/" ++ name ++ ".npy" ∉ glob store (root self ++ "/*.npy") →
       raw self' !! name = raw self !! name).
Proof.
  intros Hall Hrun. unfold Features.load_features in Hrun.
  destruct (load_loop_spec store _ self self' Hall Hrun)
    as (_ & _ & _ & _ & _ & _ & _ & _ & Hin & Hout).
  by split.
Qed.

(** X16.  When [load_features] returns, the instance holds, for every array
    file [root/<name>.npy] that [glob] listed, the array of that file under
    the key [<name>] (the file name without its directory and its last four
    characters); every other entry of [raw] and every other attribute is as
    it was: nothing loaded earlier is dropped. *)
Theorem load_features_loads_listed_arrays store self self' :
  Forall (under_root self) (glob store (root self ++ "/*.npy")) →
  load_features store self = (self', Ok tt) →
  (∀ name, root self ++ "/" ++ name ++ ".npy" ∈ glob store (root self ++ "/*.npy") →
     ∃ a, store !! (root self ++ "/" ++ name ++ ".npy") = Some (Npy a)
          ∧ raw self' !! name = Some a)
  ∧ (∀ name, root self ++ "/" ++ name ++ ".npy" ∉ glob store (root self ++ "/*.npy") →
       raw self' !! name = raw self !! name)
  ∧ root self' = root self ∧ pv_root self' = pv_root self
  ∧ max_poses self' = max_poses self ∧ ifp_features self' = ifp_features self.
Proof.
  intros Hall Hrun. unfold Features.load_features in Hrun.
  destruct (load_loop_spec store _ self self' Hall Hrun)
    as (E1 & E2 & _ & _ & _ & _ & E7 & E8 & Hin & Hout).
  by repeat split.
Qed.

End Raw.

(** ** Pairwise features *)
Section Pairs.
Context {float : Type}.
Variable ifp_tanimoto :
  list (list ifp_row) → list (list ifp_row) → string → result (@matrix float).
Variable ifp_tanimoto_mp :
  list (list ifp_row) → list (list ifp_row) → string → Z → result (@matrix float).
Variable shape : list pose → list pose → string → result (@matrix float).
Variable mcss : list pose → list pose → string → result (@matrix float).
Variable mcss_mp : list pose → list pose → string → Z → result (@matrix float).
Implicit Types (self : @Features float) (w : @world float) (store : gmap string (@file float))
  (c : @loaded float).

Local Abbreviation compute_pair_features :=
  (compute_pair_features ifp_tanimoto ifp_tanimoto_mp shape mcss mcss_mp).
Local Abbreviation compute_ifp_pair := (compute_ifp_pair ifp_tanimoto ifp_tanimoto_mp).
Local Abbreviation compute_shape := (compute_shape shape).
Local Abbreviation compute_mcss := (compute_mcss mcss mcss_mp).
Local Abbreviation pair_event :=
  (pair_event ifp_tanimoto ifp_tanimoto_mp shape mcss mcss_mp).
Local Abbreviation tanimoto_of := (tanimoto_of ifp_tanimoto ifp_tanimoto_mp).
Local Abbreviation shape_of := (shape_of shape).
Local Abbreviation mcss_of := (mcss_of mcss mcss_mp).
Local Abbreviation pair_blocks :=
  (pair_blocks ifp_tanimoto ifp_tanimoto_mp shape mcss mcss_mp).

Lemma save_as_inv self name a w w1 :
  save_as self name a w = (w1, Ok tt) → plain_name name ∧ w1 = saved_as self name a w.
Proof.
  unfold save_as. intros H. apply run_bind_inv in H as (w0 & out & Hout & H).
  unfold lift in Hout. injection Hout as <- Hout.
  apply path_of_Ok_inv in Hout as [Hplain ->]. split; [done|].
  rewrite np_save_run, npy_name_path in H. by injection H as <-.
Qed.

Lemma saved_as_lookup self name a w p :
  fs (saved_as self name a w) !! p
  = if decide (p = root self ++ "/" ++ name ++ ".npy") then Some (Npy a) else fs w !! p.
Proof.
  cbn. destruct (decide _) as [->|Hne]; [by rewrite lookup_insert_eq | by rewrite lookup_insert_ne].
Qed.


Lemma pair_blocks_confined self c1 c2 ifp0 shape0 mcss0 processes :
  confined (pair_event self processes c1 c2) (pair_path self)
           (pair_blocks self c1 c2 ifp0 shape0 mcss0 processes).
Proof.
  unfold Features.pair_blocks. apply confined_bind.
  { apply confined_when. intros _.
    apply confined_bind; [by apply confined_emit|]. intros _ _ _.
    apply confined_for_each. intros feature Hf.
    apply confined_bind; [apply confined_lift|].
    intros w1 out Hout. cbn in Hout. apply path_of_Ok_inv in Hout as [_ ->].
    apply confined_bind; [apply confined_exists|]. intros _ cached _.
    apply confined_when_not. intros _. unfold Features.compute_ifp_pair.
    apply confined_bind; [by apply confined_emit|]. intros _ _ _.
    apply confined_bind; [apply confined_lift|].
    intros w2 m Hm. cbn in Hm.
    apply confined_np_save.
    - left. by exists feature, m.
    - rewrite npy_name_path. right. right. by exists feature. }
  intros _ _ _. apply confined_bind.
  { apply confined_when. intros _.
    apply confined_bind; [by apply confined_emit|]. intros _ _ _.
    apply confined_bind; [apply confined_lift|].
    intros w1 out Hout. cbn in Hout. apply path_of_Ok_inv in Hout as [_ ->].
    apply confined_bind; [apply confined_exists|]. intros _ cached _.
    apply confined_when_not. intros _. unfold Features.compute_shape.
    apply confined_bind; [by apply confined_emit|]. intros _ _ _.
    apply confined_bind; [apply confined_lift|].
    intros w2 m Hm. cbn in Hm.
    apply confined_np_save.
    - right. left. by exists m.
    - rewrite (npy_name_path (root self) "shape"). by left. }
  intros _ _ _.
  apply confined_when. intros _.
  apply confined_bind; [by apply confined_emit|]. intros _ _ _.
  apply confined_bind; [apply confined_lift|].
  intros w1 out Hout. cbn in Hout. apply path_of_Ok_inv in Hout as [_ ->].
  apply confined_bind; [apply confined_exists|]. intros _ cached _.
  apply confined_when_not. intros _. unfold Features.compute_mcss.
  apply confined_bind; [by apply confined_emit|]. intros _ _ _.
  apply confined_bind; [apply confined_lift|].
  intros w2 m Hm. cbn in Hm.
  apply confined_np_save.
  - right. right. by exists m.
  - rewrite (npy_name_path (root self) "mcss"). right. by left.
Qed.

(** A call that returns has run, in this order: the loader on the first
    collection, the saving of its merged arrays, the same for a second
    collection when one is given, and the similarity blocks. *)
Lemma compute_pair_features_inv self pvs pvs2 ifp0 shape0 mcss0 processes w w' :
  compute_pair_features self pvs pvs2 ifp0 shape0 mcss0 processes w = (w', Ok tt) →
  ∃ c1 c2,
    load_single_features self (fs w) pvs None = Ok c1
    ∧ match pvs2 with
      | None =>
          c2 = c1
          ∧ pair_blocks self c1 c2 ifp0 shape0 mcss0 processes (merged_saved self "1" c1 w)
            = (w', Ok tt)
      | Some p2 =>
          load_single_features self (fs (merged_saved self "1" c1 w)) p2 None = Ok c2
          ∧ pair_blocks self c1 c2 ifp0 shape0 mcss0 processes
              (merged_saved self "2" c2 (merged_saved self "1" c1 w))
            = (w', Ok tt)
      end.
Proof.
  unfold Features.compute_pair_features. intros H.
  erewrite run_bind in H by reflexivity.
  apply run_bind_inv in H as (w0 & c1 & Hc1 & H).
  unfold read in Hc1. injection Hc1 as <- Hc1.
  apply run_bind_inv in H as (w1 & [] & Hs1 & H). apply save_as_inv in Hs1 as [_ ->].
  apply run_bind_inv in H as (w2 & [] & Hs2 & H). apply save_as_inv in Hs2 as [_ ->].
  apply run_bind_inv in H as (w3 & [] & Hs3 & H). apply save_as_inv in Hs3 as [_ ->].
  apply run_bind_inv in H as (w4 & c2 & Hc2 & H).
  exists c1, c2. split; [done|]. destruct pvs2 as [p2|].
  - apply run_bind_inv in Hc2 as (v0 & c2' & Hload & Hc2).
    unfold read in Hload. injection Hload as <- Hload.
    apply run_bind_inv in Hc2 as (v1 & [] & Ht1 & Hc2). apply save_as_inv in Ht1 as [_ ->].
    apply run_bind_inv in Hc2 as (v2 & [] & Ht2 & Hc2). apply save_as_inv in Ht2 as [_ ->].
    apply run_bind_inv in Hc2 as (v3 & [] & Ht3 & Hc2). apply save_as_inv in Ht3 as [_ ->].
    injection Hc2 as <- <-. split; [exact Hload | exact H].
  - injection Hc2 as <- <-. split; [done | exact H].
Qed.

(** X17.  A call of [compute_pair_features] that returns has loaded the
    first collection, saved its merged arrays under the tag [1], done the
    same under the tag [2] for a second collection when one is given (read
    after the arrays of the first are saved) and taken the first collection
    as the second otherwise.  Whatever it starts or saves after that is a
    similarity between these two collections: for an interaction type of the
    configuration the matrix [ifp_tanimoto] gives for the fingerprints of
    the first and of the second (the multiprocess variant when [processes]
    is not 1); for the shape family the transpose of what [shape] gives for
    the poses of the second and of the first, in this order; for the
    substructure family what [mcss] gives for the poses of the first and of
    the second.  No other file is touched. *)
Theorem compute_pair_features_saves_provider_matrices
    self pvs pvs2 ifp0 shape0 mcss0 processes w w' :
  compute_pair_features self pvs pvs2 ifp0 shape0 mcss0 processes w = (w', Ok tt) →
  ∃ c1 c2 evs,
    load_single_features self (fs w) pvs None = Ok c1
    ∧ (pvs2 = None → c2 = c1)
    ∧ (∀ p2, pvs2 = Some p2 →
         load_single_features self (fs (merged_saved self "1" c1 w)) p2 None = Ok c2)
    ∧ trace w'
      = (trace w ++ merged_events self "1" c1
         ++ match pvs2 with Some _ => merged_events self "2" c2 | None => [] end
         ++ evs)%list
    ∧ Forall (pair_event self processes c1 c2) evs
    ∧ (∀ p, ¬ pair_path self p →
         fs w' !! p
         = fs match pvs2 with
              | Some _ => merged_saved self "2" c2 (merged_saved self "1" c1 w)
              | None => merged_saved self "1" c1 w
              end !! p).
Proof.
  intros H. apply compute_pair_features_inv in H as (c1 & c2 & Hc1 & H).
  exists c1, c2.
  destruct pvs2 as [p2|]; destruct H as [Hc2 Hrun].
  - destruct (pair_blocks_confined self c1 c2 ifp0 shape0 mcss0 processes
                (merged_saved self "2" c2 (merged_saved self "1" c1 w)))
      as [(evs & Htrace & Hevs) Hframe].
    rewrite Hrun in Htrace, Hframe. cbn [fst] in Htrace, Hframe.
    exists evs. split; [done|]. split; [done|]. split; [by intros ? [= <-]|].
    split; [|by split].
    rewrite Htrace. unfold merged_saved, saved_as, merged_events. cbn [trace].
    by rewrite <- !app_assoc.
  - destruct (pair_blocks_confined self c1 c2 ifp0 shape0 mcss0 processes
                (merged_saved self "1" c1 w))
      as [(evs & Htrace & Hevs) Hframe].
    rewrite Hrun in Htrace, Hframe. cbn [fst] in Htrace, Hframe.
    exists evs. split; [done|]. split; [done|]. split; [done|].
    split; [|by split].
    rewrite Htrace. unfold merged_saved, saved_as, merged_events. cbn [trace].
    by rewrite <- !app_assoc.
Qed.

(** X18.  When the loader fails on the first collection, in particular for an
    empty list of sources, [compute_pair_features] raises the loader's
    exception once [mkdir] has made the root and before it saves or prints
    anything: the files and the record of events are as they were. *)
Theorem compute_pair_features_stops_at_loader_failure
    self pvs pvs2 ifp0 shape0 mcss0 processes w e :
  load_single_features self (fs w) pvs None = Raise e →
  compute_pair_features self pvs pvs2 ifp0 shape0 mcss0 processes w = (w, Raise e)
  ∧ (pvs = [] → e = ValueError).
Proof.
  intros Hload. split.
  - unfold Features.compute_pair_features. erewrite run_bind by reflexivity.
    erewrite run_bind_raise; [done|]. unfold read. by rewrite Hload.
  - intros ->. cbn in Hload. by injection Hload.
Qed.

End Pairs.

(** ** Self-comparison *)

Section Follow.
Context {float : Type}.
Implicit Types (w : @world float) (store : gmap string (@file float)).

Lemma replay_app (evs1 evs2 : list (@event float)) store :
  replay (evs1 ++ evs2) store = replay evs2 (replay evs1 store).
Proof. apply foldl_app. Qed.

Lemma replay_grows (evs : list (@event float)) store p :
  is_Some (store !! p) → is_Some (replay evs store !! p).
Proof.
  revert store. induction evs as [|e evs IH]; intros store Hp; [done|].
  cbn [replay foldl]. apply IH. destruct e; try done.
  destruct (decide (p = npy_name out)) as [->|Hne].
  - rewrite lookup_insert_eq. by eexists.
  - by rewrite lookup_insert_ne.
Qed.

Lemma follow_pure {A} (f : @world float → result A) : files_follow_trace (λ w, (w, f w)).
Proof. intros w. exists []. cbn. by rewrite app_nil_r. Qed.

Lemma follow_ret {A} (a : A) : files_follow_trace (mret a : M (@world float) A).
Proof. apply (follow_pure (λ _, Ok a)). Qed.

Lemma follow_lift {A} (r : result A) : files_follow_trace (lift r : M (@world float) A).
Proof. apply (follow_pure (λ _, r)). Qed.

Lemma follow_exists p : files_follow_trace (exists_ (float:=float) p).
Proof. apply (follow_pure (λ w, Ok (bool_decide (is_Some (fs w !! p))))). Qed.

Lemma follow_print line : files_follow_trace (print (float:=float) line).
Proof. intros w. by exists [Printed line]. Qed.

Lemma follow_call (e : @event float) : is_call e = true → files_follow_trace (emit e).
Proof. intros He w. exists [e]. split; [done|]. by destruct e. Qed.

Lemma follow_np_save out (a : @ndarray float) : files_follow_trace (np_save out a).
Proof. intros w. by exists [Saved out a]. Qed.

Lemma follow_bind {A B} (m : M (@world float) A) (f : A → M world B) :
  files_follow_trace m → (∀ a, files_follow_trace (f a)) → files_follow_trace (m ≫= f).
Proof.
  intros Hm Hf w. destruct (Hm w) as (evs1 & Ht1 & Hf1).
  unfold mbind, M_bind. destruct (m w) as [w1 [a|e]]; cbn [fst snd] in *.
  - destruct (Hf a w1) as (evs2 & Ht2 & Hf2). exists (evs1 ++ evs2)%list.
    by rewrite Ht2, Ht1, app_assoc, Hf2, Hf1, replay_app.
  - by exists evs1.
Qed.

Lemma follow_for_each {A} (xs : list A) (body : A → M (@world float) unit) :
  (∀ x, files_follow_trace (body x)) → files_follow_trace (for_each xs body).
Proof.
  intros Hbody. induction xs as [|x xs IH]; cbn [for_each].
  - apply follow_ret.
  - apply follow_bind; [apply Hbody | intros _; apply IH].
Qed.

Lemma follow_when (b : bool) (m : M (@world float) unit) :
  files_follow_trace m → files_follow_trace (when_ b m).
Proof. destruct b; intros Hm; [done | apply follow_ret]. Qed.

Lemma follow_when_not (b : bool) (m : M (@world float) unit) :
  files_follow_trace m → files_follow_trace (when_not b m).
Proof. destruct b; intros Hm; [apply follow_ret | done]. Qed.

(** What exists stays. *)
Lemma follow_grows {A} (m : M (@world float) A) w p :
  files_follow_trace m → is_Some (fs w !! p) → is_Some (fs (m w).1 !! p).
Proof. intros Hm Hp. destruct (Hm w) as (evs & _ & ->). by apply replay_grows. Qed.

End Follow.

Section SelfComparison.
Context {float : Type}.
Variable ifp_tanimoto :
  list (list ifp_row) → list (list ifp_row) → string → result (@matrix float).
Variable ifp_tanimoto_mp :
  list (list ifp_row) → list (list ifp_row) → string → Z → result (@matrix float).
Variable shape : list pose → list pose → string → result (@matrix float).
Variable mcss : list pose → list pose → string → result (@matrix float).
Variable mcss_mp : list pose → list pose → string → Z → result (@matrix float).
Implicit Types (self : @Features float) (w : @world float) (c : @loaded float).

Local Abbreviation compute_pair_features :=
  (compute_pair_features ifp_tanimoto ifp_tanimoto_mp shape mcss mcss_mp).
Local Abbreviation compute_ifp_pair := (compute_ifp_pair ifp_tanimoto ifp_tanimoto_mp).
Local Abbreviation compute_shape := (compute_shape shape).
Local Abbreviation compute_mcss := (compute_mcss mcss mcss_mp).
Local Abbreviation pair_event :=
  (pair_event ifp_tanimoto ifp_tanimoto_mp shape mcss mcss_mp).
Local Abbreviation pair_blocks :=
  (pair_blocks ifp_tanimoto ifp_tanimoto_mp shape mcss mcss_mp).
Local Abbreviation similarity_contract :=
  (similarity_contract ifp_tanimoto ifp_tanimoto_mp shape mcss mcss_mp).

Lemma matrix_step_follows self name compute :
  (∀ out, files_follow_trace (compute out)) → files_follow_trace (matrix_step self name compute).
Proof.
  intros Hc. apply follow_bind; [apply follow_lift|]. intros out.
  apply follow_bind; [apply follow_exists|]. intros cached.
  by apply follow_when_not.
Qed.

Lemma matrix_step_leaves_file self name compute w w' :
  (∀ out w0 w1, compute out w0 = (w1, Ok tt) → is_Some (fs w1 !! npy_name out)) →
  matrix_step self name compute w = (w', Ok tt) →
  is_Some (fs w' !! (root self ++ "/" ++ name ++ ".npy")).
Proof.
  intros Hc H. unfold matrix_step in H.
  apply run_bind_inv in H as (w0 & out & Hout & H).
  unfold lift in Hout. injection Hout as <- Hout.
  apply path_of_Ok_inv in Hout as [_ ->].
  erewrite run_bind in H by reflexivity.
  case_bool_decide as Hsome.
  - cbn in H. by injection H as <-.
  - cbn [when_not] in H. apply Hc in H. by rewrite npy_name_path in H.
Qed.

Lemma compute_ifp_pair_follows ifps1 ifps2 feature processes out :
  files_follow_trace (compute_ifp_pair ifps1 ifps2 feature out processes).
Proof.
  apply follow_bind; [by apply follow_call|]. intros _.
  apply follow_bind; [apply follow_lift|]. intros m. apply follow_np_save.
Qed.

Lemma compute_shape_follows self poses1 poses2 out :
  files_follow_trace (compute_shape self poses1 poses2 out).
Proof.
  apply follow_bind; [by apply follow_call|]. intros _.
  apply follow_bind; [apply follow_lift|]. intros m. apply follow_np_save.
Qed.

Lemma compute_mcss_follows self poses1 poses2 out processes :
  files_follow_trace (compute_mcss self poses1 poses2 out processes).
Proof.
  apply follow_bind; [by apply follow_call|]. intros _.
  apply follow_bind; [apply follow_lift|]. intros m. apply follow_np_save.
Qed.

Lemma compute_ifp_pair_saves ifps1 ifps2 feature processes out w0 w1 :
  compute_ifp_pair ifps1 ifps2 feature out processes w0 = (w1, Ok tt) →
  is_Some (fs w1 !! npy_name out).
Proof.
  unfold Features.compute_ifp_pair. intros H.
  apply run_bind_inv in H as (w2 & [] & _ & H).
  by apply (saves_at_end _ Arr2) in H.
Qed.

Lemma compute_shape_saves self poses1 poses2 out w0 w1 :
  compute_shape self poses1 poses2 out w0 = (w1, Ok tt) → is_Some (fs w1 !! npy_name out).
Proof.
  unfold Features.compute_shape. intros H.
  apply run_bind_inv in H as (w2 & [] & _ & H).
  by apply (saves_at_end _ Arr2) in H.
Qed.

Lemma compute_mcss_saves self poses1 poses2 out processes w0 w1 :
  compute_mcss self poses1 poses2 out processes w0 = (w1, Ok tt) →
  is_Some (fs w1 !! npy_name out).
Proof.
  unfold Features.compute_mcss. intros H.
  apply run_bind_inv in H as (w2 & [] & _ & H).
  by apply (saves_at_end _ Arr2) in H.
Qed.

Lemma matrix_steps_leave_files self (names : list string)
    (compute : string → string → M (@world float) unit) w w' :
  (∀ name out, files_follow_trace (compute name out)) →
  (∀ name out w0 w1, compute name out w0 = (w1, Ok tt) → is_Some (fs w1 !! npy_name out)) →
  for_each names (λ name, matrix_step self name (compute name)) w = (w', Ok tt) →
  ∀ name, name ∈ names → is_Some (fs w' !! (root self ++ "/" ++ name ++ ".npy")).
Proof.
  intros Hfollow Hsaves. revert w. induction names as [|x names IH]; intros w H name Hname.
  - by apply elem_of_nil in Hname.
  - cbn [for_each] in H. apply run_bind_inv in H as (w1 & [] & Hstep & H).
    apply elem_of_cons in Hname as [->|Hname]; [|by eapply IH].
    apply matrix_step_leaves_file in Hstep; [|by apply Hsaves].
    assert (files_follow_trace
              (for_each names (λ name, matrix_step self name (compute name)))) as Hrest.
    { apply follow_for_each. intros y. by apply matrix_step_follows. }
    pose proof (follow_grows _ w1 _ Hrest Hstep) as Hend. by rewrite H in Hend.
Qed.

Lemma pair_blocks_follow self c1 c2 ifp0 shape0 mcss0 processes :
  files_follow_trace (pair_blocks self c1 c2 ifp0 shape0 mcss0 processes).
Proof.
  unfold Features.pair_blocks. apply follow_bind.
  { apply follow_when. apply follow_bind; [apply follow_print|]. intros _.
    apply follow_for_each. intros feature.
    apply (matrix_step_follows self feature
             (λ out, compute_ifp_pair (l_ifps c1) (l_ifps c2) feature out processes)).
    intros out. apply compute_ifp_pair_follows. }
  intros _. apply follow_bind.
  { apply follow_when. apply follow_bind; [apply follow_print|]. intros _.
    apply (matrix_step_follows self "shape"
             (λ out, compute_shape self (l_poses c1) (l_poses c2) out)).
    intros out. apply compute_shape_follows. }
  intros _. apply follow_when. apply follow_bind; [apply follow_print|]. intros _.
  apply (matrix_step_follows self "mcss"
           (λ out, compute_mcss self (l_poses c1) (l_poses c2) out processes)).
  intros out. apply compute_mcss_follows.
Qed.

(** Every requested family has its matrices on disk when the blocks are
    through. *)
Lemma pair_blocks_leave_files self c1 c2 ifp0 shape0 mcss0 processes w w' :
  pair_blocks self c1 c2 ifp0 shape0 mcss0 processes w = (w', Ok tt) →
  (ifp0 = true → ∀ feature, feature ∈ ifp_features self →
     is_Some (fs w' !! (root self ++ "/" ++ feature ++ ".npy")))
  ∧ (shape0 = true → is_Some (fs w' !! (root self ++ "/shape.npy")))
  ∧ (mcss0 = true → is_Some (fs w' !! (root self ++ "/mcss.npy"))).
Proof.
  unfold Features.pair_blocks. intros H.
  apply run_bind_inv in H as (wa & [] & Ha & H).
  apply run_bind_inv in H as (wb & [] & Hb & Hc).
  assert (files_follow_trace
            (when_ shape0
               (_ ← print "Computing shape similarities.";
                matrix_step self "shape"
                  (λ out, compute_shape self (l_poses c1) (l_poses c2) out)))) as Fb.
  { apply follow_when. apply follow_bind; [apply follow_print|]. intros _.
    apply matrix_step_follows. intros out. apply compute_shape_follows. }
  assert (files_follow_trace
            (when_ mcss0
               (_ ← print "Computing mcss similarities.";
                matrix_step self "mcss"
                  (λ out, compute_mcss self (l_poses c1) (l_poses c2) out processes)))) as Fc.
  { apply follow_when. apply follow_bind; [apply follow_print|]. intros _.
    apply matrix_step_follows. intros out. apply compute_mcss_follows. }
  assert (∀ p, is_Some (fs wa !! p) → is_Some (fs wb !! p)) as Gb.
  { intros p Hp. pose proof (follow_grows _ wa p Fb Hp) as G.
    unfold matrix_step in G. by rewrite Hb in G. }
  assert (∀ p, is_Some (fs wb !! p) → is_Some (fs w' !! p)) as Gc.
  { intros p Hp. pose proof (follow_grows _ wb p Fc Hp) as G.
    unfold matrix_step in G. by rewrite Hc in G. }
  split; [|split].
  - intros -> feature Hf. apply Gc, Gb. cbn [when_] in Ha.
    apply run_bind_inv in Ha as (w0 & [] & _ & Ha).
    apply (matrix_steps_leave_files self (ifp_features self)
             (λ feature out, compute_ifp_pair (l_ifps c1) (l_ifps c2) feature out processes)
             w0 wa); [| | exact Ha | exact Hf].
    + intros name out. apply compute_ifp_pair_follows.
    + intros name out w1 w2. apply compute_ifp_pair_saves.
  - intros ->. apply Gc. cbn [when_] in Hb.
    apply run_bind_inv in Hb as (w0 & [] & _ & Hb).
    apply (matrix_step_leaves_file self "shape"
             (λ out, compute_shape self (l_poses c1) (l_poses c2) out) w0 wb); [|exact Hb].
    intros out w1 w2. apply compute_shape_saves.
  - intros ->. cbn [when_] in Hc.
    apply run_bind_inv in Hc as (w0 & [] & _ & Hc).
    apply (matrix_step_leaves_file self "mcss"
             (λ out, compute_mcss self (l_poses c1) (l_poses c2) out processes) w0 w');
      [|exact Hc].
    intros out w1 w2. apply compute_mcss_saves.
Qed.

(** Between a collection and itself, providers that keep the shape contract
    give square matrices. *)
Lemma pair_event_square self processes c1 e :
  similarity_contract → same_lengths c1 →
  pair_event self processes c1 c1 e → self_matrix_event self c1 e.
Proof.
  intros (Ct & Ctm & Cs & Cm & Cmm) (_ & _ & Hposes & Hifps).
  destruct e as [line|out a| | | | |ifps1 ifps2 feature out|poses1 poses2 out|poses1 poses2 out];
    cbn; try done.
  - intros [(feature & m & Hf & -> & Hm & ->) | [(m & -> & Hm & ->) | (m & -> & Hm & ->)]].
    + exists m. split; [done|]. split; [right; right; by exists feature|].
      unfold tanimoto_of in Hm.
      assert (nrows m = length (l_ifps c1) ∧ ncols m = length (l_ifps c1)) as [Hr Hc].
      { case_bool_decide; [by eapply Ctm | by eapply Ct]. }
      split; congruence.
    + exists m. split; [done|]. split; [by left|].
      unfold shape_of in Hm. apply fmap_Ok_inv in Hm as (m0 & Hm0 & ->).
      apply Cs in Hm0 as [Hr Hc]. done.
    + exists m. split; [done|]. split; [right; by left|].
      unfold mcss_of in Hm. case_bool_decide; [by eapply Cmm | by eapply Cm].
  - intros (-> & -> & Hf & ->). repeat split; try done. right. right. by exists feature.
  - intros (-> & -> & ->). repeat split; try done. by left.
  - intros (-> & -> & ->). repeat split; try done. right. by left.
Qed.


End SelfComparison.

Section Pipeline.
Context {float : Type}.
Variable ifp_tanimoto :
  list (list ifp_row) → list (list ifp_row) → string → result (@matrix float).
Variable ifp_tanimoto_mp :
  list (list ifp_row) → list (list ifp_row) → string → Z → result (@matrix float).
Variable shape : list pose → list pose → string → result (@matrix float).
Variable mcss : list pose → list pose → string → result (@matrix float).
Variable mcss_mp : list pose → list pose → string → Z → result (@matrix float).
Variable glob : gmap string (@file float) → string → list string.
Implicit Types (self : @Features float) (w : @world float) (store : gmap string (@file float))
  (c : @loaded float).

Local Abbreviation compute_pair_features :=
  (compute_pair_features ifp_tanimoto ifp_tanimoto_mp shape mcss mcss_mp).
Local Abbreviation load_features := (load_features glob).

Lemma count_eq_pos (names : list string) n : n ∈ names → count_eq names n ≠ 0%nat.
Proof.
  intros Hn. unfold count_eq. induction names as [|x names IH]; [by apply elem_of_nil in Hn|].
  destruct (decide (x = n)) as [->|Hne].
  - by rewrite filter_cons_True.
  - rewrite filter_cons_False by done. apply IH.
    apply elem_of_cons in Hn as [?|?]; [congruence | done].
Qed.

Lemma view_ligands_ok self (names : list string) (gs rs : list (@num float))
    (ligands : list string) (data : gmap string (@view_dict float)) :
  raw self !! "name1" = Some (ArrS names) →
  raw self !! "gscore1" = Some (Arr1 gs) →
  raw self !! "rmsd1" = Some (Arr1 rs) →
  length gs = length names → length rs = length names →
  Forall (λ l, l ∈ names) ligands →
  is_ok (fold_result (view_ligand self) ligands data) = true.
Proof.
  intros Hn Hg Hr Lg Lr Hall. revert data.
  induction Hall as [|l ligands Hl _ IH]; intros data; [done|].
  assert (∃ data', view_ligand self data l = Ok data') as [data' Hview].
  { unfold view_ligand, name_mask, raw_get.
    rewrite Hn, Hg, Hr. cbn [or_raise as_strs mbind result_bind].
    rewrite mask_sum_names.
    destruct (Nat.eqb_spec (count_eq names l) 0) as [E|_]; [by apply count_eq_pos in E|].
    cbn [mbind result_bind mask_array]. unfold mask_1d.
    rewrite !length_map, Lg, Lr, Nat.eqb_refl. cbn [fmap result_fmap mbind result_bind].
    by eexists. }
  cbn [fold_result]. rewrite Hview. apply IH.
Qed.


Lemma merged_saved_lookup self c w :
  fs (merged_saved self "1" c w) !! (root self ++ "/rmsd1.npy") = Some (Npy (Arr1 (l_rmsds c)))
  ∧ fs (merged_saved self "1" c w) !! (root self ++ "/gscore1.npy")
    = Some (Npy (Arr1 (l_gscores c)))
  ∧ fs (merged_saved self "1" c w) !! (root self ++ "/name1.npy")
    = Some (Npy (ArrS (l_names c))).
Proof.
  assert (∀ a b : string, a ≠ b → root self ++ "/" ++ a ++ ".npy" ≠ root self ++ "/" ++ b ++ ".npy")
    as Hne by (intros a b Hab E; by apply under_root_inj in E).
  unfold merged_saved. split; [|split].
  - rewrite saved_as_lookup, decide_False by (by apply (Hne "rmsd1" "name1")).
    rewrite saved_as_lookup, decide_False by (by apply (Hne "rmsd1" "gscore1")).
    by rewrite saved_as_lookup, decide_True.
  - rewrite saved_as_lookup, decide_False by (by apply (Hne "gscore1" "name1")).
    by rewrite saved_as_lookup, decide_True.
  - by rewrite saved_as_lookup, decide_True.
Qed.

(** X19.  The arrays [compute_pair_features] leaves under the root can be
    loaded and viewed.  After a call that returns (no interaction type of
    the configuration being named [rmsd1], [gscore1] or [name1]), when
    [glob] lists array files directly under the root and among them the
    three merged arrays of the first collection, [load_features] stores
    under [rmsd1], [gscore1] and [name1] the RMSDs, scores and names the
    loader returned for the first collection; and [get_view], called with
    no pairwise feature, then returns for any ligands that all have a pose
    in the collection. *)
Theorem pair_features_can_be_loaded_and_viewed
    self pvs pvs2 ifp0 shape0 mcss0 processes w w' self' :
  compute_pair_features self pvs pvs2 ifp0 shape0 mcss0 processes w = (w', Ok tt) →
  Forall (λ feature, feature ∉ ["rmsd1"; "gscore1"; "name1"]) (ifp_features self) →
  Forall (under_root self) (glob (fs w') (root self ++ "/*.npy")) →
  (∀ name, name ∈ ["rmsd1"; "gscore1"; "name1"] →
     root self ++ "/" ++ name ++ ".npy" ∈ glob (fs w') (root self ++ "/*.npy")) →
  load_features (fs w') self = (self', Ok tt) →
  ∃ c1,
    load_single_features self (fs w) pvs None = Ok c1
    ∧ raw self' !! "rmsd1" = Some (Arr1 (l_rmsds c1))
    ∧ raw self' !! "gscore1" = Some (Arr1 (l_gscores c1))
    ∧ raw self' !! "name1" = Some (ArrS (l_names c1))
    ∧ ∀ ligands, Forall (λ l, l ∈ l_names c1) ligands →
        is_ok (get_view self' ligands []) = true.
Proof.
  intros Hrun Hfeatures Hlisted Hmerged Hload.
  apply compute_pair_features_inv in Hrun as (c1 & c2 & Hc1 & Hrun).
  exists c1. split; [done|].
  assert (∀ name, name ∈ ["rmsd1"; "gscore1"; "name1"] →
            ¬ pair_path self (root self ++ "/" ++ name ++ ".npy")) as Hfree.
  { intros name Hname [H | [H | (f & Hf & H)]].
    - apply (under_root_inj self name "shape") in H. subst.
      repeat (apply elem_of_cons in Hname as [Hname|Hname]; [discriminate|]).
      by apply elem_of_nil in Hname.
    - apply (under_root_inj self name "mcss") in H. subst.
      repeat (apply elem_of_cons in Hname as [Hname|Hname]; [discriminate|]).
      by apply elem_of_nil in Hname.
    - apply under_root_inj in H. subst. rewrite Forall_forall in Hfeatures.
      by apply (Hfeatures f Hf). }
  assert (∀ name, name ∈ ["rmsd1"; "gscore1"; "name1"] →
            fs w' !! (root self ++ "/" ++ name ++ ".npy")
            = fs (merged_saved self "1" c1 w) !! (root self ++ "/" ++ name ++ ".npy")) as Hkept.
  { intros name Hname. pose proof (Hfree name Hname) as Hfree'.
    assert (∀ a b : string, a ≠ b →
              root self ++ "/" ++ a ++ ".npy" ≠ root self ++ "/" ++ b ++ ".npy")
      as Hne by (intros a b Hab E; by apply under_root_inj in E).
    destruct pvs2 as [p2|]; destruct Hrun as [Hc2 Hrun].
    - destruct (pair_blocks_confined ifp_tanimoto ifp_tanimoto_mp shape mcss mcss_mp
                  self c1 c2 ifp0 shape0 mcss0 processes
                  (merged_saved self "2" c2 (merged_saved self "1" c1 w))) as [_ Hframe].
      rewrite Hrun in Hframe. cbn [fst] in Hframe. rewrite (Hframe _ Hfree').
      unfold merged_saved at 1.
      rewrite !saved_as_lookup, !decide_False; [done|..]; apply Hne; intros ->;
        repeat (apply elem_of_cons in Hname as [Hname|Hname]; [discriminate|]);
        by apply elem_of_nil in Hname.
    - destruct (pair_blocks_confined ifp_tanimoto ifp_tanimoto_mp shape mcss mcss_mp
                  self c1 c2 ifp0 shape0 mcss0 processes
                  (merged_saved self "1" c1 w)) as [_ Hframe].
      rewrite Hrun in Hframe. cbn [fst] in Hframe. by rewrite (Hframe _ Hfree'). }
  destruct (load_features_listed glob (fs w') self self' Hlisted Hload) as (Hin & _).
  assert (∀ name a, name ∈ ["rmsd1"; "gscore1"; "name1"] →
            fs (merged_saved self "1" c1 w) !! (root self ++ "/" ++ name ++ ".npy")
            = Some (Npy a) →
            raw self' !! name = Some a) as Hraw.
  { intros name a Hname Ha. destruct (Hin name (Hmerged name Hname)) as (a' & Ha' & ->).
    rewrite Hkept in Ha' by done. congruence. }
  destruct (merged_saved_lookup self c1 w) as (Sr & Sg & Sn).
  assert (raw self' !! "rmsd1" = Some (Arr1 (l_rmsds c1))) as Hr
    by (apply Hraw; [in_list | exact Sr]).
  assert (raw self' !! "gscore1" = Some (Arr1 (l_gscores c1))) as Hg
    by (apply Hraw; [in_list | exact Sg]).
  assert (raw self' !! "name1" = Some (ArrS (l_names c1))) as Hn
    by (apply Hraw; [in_list | exact Sn]).
  split; [done|]. split; [done|]. split; [done|].
  intros ligands Hall. unfold get_view. cbv zeta.
  pose proof (load_single_features_lengths _ _ _ _ _ Hc1) as (Lr & Lg & _ & _).
  pose proof (view_ligands_ok self' _ _ _ ligands
                (<["rmsd" := empty_dict]> (<["gscore" := empty_dict]> ∅))
                Hn Hg Hr Lg Lr Hall) as Hok.
  by destruct (fold_result (view_ligand self') ligands _).
Qed.

End Pipeline.

(** ** The constructor and the fingerprint settings *)
Section Constructor.
Context {float : Type}.
Variable abspath : string → string.
Variable environ : gmap string string.
Implicit Types (self : @Features float).

Lemma path_of_other self name pv pv2 :
  pv_root self = Some (root self ++ "/docking") →
  name ∉ ["gscore"; "name"; "rmsd"; "ifp"] →
  path self name false pv pv2 = Ok (root self ++ "/" ++ name ++ ".npy").
Proof.
  intros Hpv Hname. unfold path. rewrite Hpv.
  cbn [or_raise mbind result_bind].
  rewrite (bool_decide_eq_false_2 (_ ≠ _)) by (intros H; by apply H).
  cbn [mbind result_bind].
  rewrite !not_elem_of_cons in Hname. destruct Hname as (H1 & H2 & H3 & H4 & _).
  rewrite !bool_decide_eq_false_2 by done.
  case_bool_decide as Hs; [by subst|].
  case_bool_decide as Hm; [by subst|]. done.
Qed.

Lemma path_needs_source self name pv2 :
  pv_root self = Some (root self ++ "/docking") →
  name ∈ ["gscore"; "name"; "rmsd"; "ifp"] →
  path self name false None pv2 = Raise AttributeError.
Proof.
  intros Hpv Hname. unfold path. rewrite Hpv.
  cbn [or_raise mbind result_bind].
  rewrite (bool_decide_eq_false_2 (_ ≠ _)) by (intros H; by apply H).
  cbn [mbind result_bind].
  repeat (apply elem_of_cons in Hname as [->|Hname]; [reflexivity|]).
  by apply elem_of_nil in Hname.
Qed.

(** X20.  The constructor raises [KeyError] exactly when the environment has
    no [COMBINDHOME]; otherwise it returns an instance with an empty [raw]
    store, the absolute root and the atom-typing file under
    [COMBINDHOME/features].  On an instance constructed without a pose root
    [path] never fails for a source that is given: the four per-source names
    give the source path with [.sdf.gz] replaced by the suffix of the
    artifact, every other name gives [root/<name>.npy] wherever the source
    is; only the four per-source names without a source raise (an attribute
    lookup on [None]). *)
Theorem default_instance_resolves_every_path
    (root_arg iv sv mv : string) (cap : Z) (pv_root_arg : option string)
    (feats : list string) :
  match environ !! "COMBINDHOME" with
  | None =>
      init (float:=float) abspath environ root_arg iv sv mv cap pv_root_arg feats
      = Raise KeyError
  | Some home =>
      ∃ self,
        init abspath environ root_arg iv sv mv cap pv_root_arg feats = Ok self
        ∧ root self = abspath root_arg
        ∧ mcss_file self = home ++ "/features/" ++ mv ++ ".typ"
        ∧ raw self = ∅
        ∧ max_poses self = cap ∧ ifp_features self = feats
        ∧ (pv_root_arg = None →
           pv_root self = Some (abspath root_arg ++ "/docking")
           ∧ (∀ name pv pv2, name ∈ ["gscore"; "name"; "rmsd"; "ifp"] →
                path self name false (Some pv) pv2
                = Ok (replace ".sdf.gz" (artifact_suffix self name) pv))
           ∧ (∀ name pv pv2, name ∉ ["gscore"; "name"; "rmsd"; "ifp"] →
                path self name false pv pv2 = Ok (root self ++ "/" ++ name ++ ".npy"))
           ∧ (∀ name pv2, name ∈ ["gscore"; "name"; "rmsd"; "ifp"] →
                path self name false None pv2 = Raise AttributeError))
  end.
Proof.
  unfold init. destruct (environ !! "COMBINDHOME") as [home|]; [|done].
  cbn [or_raise mbind result_bind]. eexists. split; [reflexivity|].
  cbn [root mcss_file raw max_poses ifp_features pv_root].
  do 5 (split; [done|]). intros ->. split; [done|]. split; [|split].
  - intros name pv pv2 Hname. by apply (path_pv_single _ name pv).
  - intros name pv pv2 Hname. by apply path_of_other.
  - intros name pv2 Hname. by apply path_needs_source.
Qed.

End Constructor.

Section Fingerprints.
Context {float : Type}.
Variable ifp_rows : ifp_settings → list pose → Z → list (@ifp_row).
Implicit Types (self : @Features float) (w : @world float).

Local Abbreviation compute_ifp := (compute_ifp ifp_rows).

(** X21.  The table of fingerprint settings holds the version [rd1] only: on
    an instance of any other fingerprint version [compute_ifp] raises
    [KeyError] before the fingerprint engine is called, and no file is
    written. *)
Theorem compute_ifp_knows_rd1_only self pv out w :
  (IFP !! ifp_version self = None ↔ ifp_version self ≠ "rd1")
  ∧ (ifp_version self ≠ "rd1" →
     compute_ifp self pv out w
     = ({| fs := fs w; trace := (trace w ++ [CallIfp pv out])%list |}, Raise KeyError)).
Proof.
  assert (IFP !! ifp_version self = None ↔ ifp_version self ≠ "rd1") as Hkey.
  { unfold IFP. rewrite lookup_singleton_None. split; intros H E; by apply H. }
  split; [done|]. intros Hne. apply Hkey in Hne.
  unfold Features.compute_ifp. step.
  erewrite run_bind_raise; [done|]. unfold lift. by rewrite Hne.
Qed.

End Fingerprints.

(** ** The output of the RMSD tool *)
Section Rmsds.
Context {float : Type}.
Variable float_of_string : string → option float.
Variable obrms : gmap string (@file float) → string → string → result string.
Implicit Types (self : @Features float) (w : @world float).

Local Abbreviation compute_rmsd := (compute_rmsd float_of_string obrms).
Local Abbreviation parse_rmsds := (parse_rmsds float_of_string).

Lemma mapM_Ok {A B} (f : A → result B) (xs : list A) (ys : list B) :
  Forall2 (λ x y, f x = Ok y) xs ys → mapM f xs = Ok ys.
Proof.
  induction 1 as [|x y xs ys Hxy _ IH]; [done|].
  cbn. rewrite Hxy. cbn. rewrite IH. done.
Qed.

Lemma parse_rmsds_lines (a b : string) (lines : list string) (xs : list float) :
  all_space a = true → all_space b = true →
  lines ≠ [] → Forall (λ r, trimmed r ∧ contains nl r = false) lines →
  Forall2 (λ r x, ∃ tok, last_word r = Some tok ∧ float_of_string tok = Some x) lines xs →
  parse_rmsds (a ++ String.concat nl lines ++ b) = Ok (NFloat <$> xs).
Proof.
  intros Ha Hb Hne Hall Hvals. unfold Features.parse_rmsds.
  rewrite strip_between_space; [|done|done|].
  2:{ apply trimmed_concat_nl; [done|]. eapply Forall_impl; [exact Hall|]. by intros r [? _]. }
  rewrite split_concat_nl; [|done|].
  2:{ eapply Forall_impl; [exact Hall|]. by intros r [_ ?]. }
  apply mapM_Ok. apply Forall2_fmap_r.
  eapply Forall2_impl; [exact Hvals|]. intros r x (tok & Htok & Hx).
  unfold last_word in Htok. cbv beta. rewrite Htok.
  cbn [or_raise mbind result_bind]. by rewrite Hx.
Qed.

(** X22.  For a pose source whose ligand has a reference, when the
    geometry-comparison tool prints one line per pose (lines without white
    space at their ends, possibly with white space around the whole output),
    [compute_rmsd] saves one value per line, in order: the float read from
    the last white-space-separated word of the line.  The name is printed
    once and nothing else. *)
Theorem compute_rmsd_saves_one_value_per_line
    self pv native_poses out w native (a b : string) (lines : list string)
    (xs : list float) :
  native_poses !! rmsd_name pv = Some native →
  obrms (fs w) native pv = Ok (a ++ String.concat nl lines ++ b) →
  all_space a = true → all_space b = true →
  lines ≠ [] → Forall (λ r, trimmed r ∧ contains nl r = false) lines →
  Forall2 (λ r x, ∃ tok, last_word r = Some tok ∧ float_of_string tok = Some x) lines xs →
  compute_rmsd self pv native_poses out w
  = ({| fs := <[npy_name out := Npy (Arr1 (NFloat <$> xs))]> (fs w);
        trace := (trace w ++ [CallRmsd pv out; Printed (rmsd_name pv);
                              Saved out (Arr1 (NFloat <$> xs))])%list |},
     Ok tt)
  ∧ length xs = length lines.
Proof.
  intros Hnative Hout Ha Hb Hne Hall Hvals.
  split; [|by apply Forall2_length in Hvals].
  pose proof (parse_rmsds_lines a b lines xs Ha Hb Hne Hall Hvals) as Hparse.
  unfold Features.compute_rmsd. step. step. rewrite Hnative. cbv beta iota.
  erewrite run_bind.
  2:{ erewrite run_try_ok; [reflexivity|].
      rewrite run_read_lift. cbn [fs]. rewrite Hout. cbn [mbind result_bind].
      rewrite Hparse. reflexivity. }
  unfold np_save. step. unfold emit, modify. cbn [fs trace].
  by rewrite <- !app_assoc.
Qed.

End Rmsds.

(** ** The properties at the examples *)

Section AtExamples.
Import Examples.

(** Non-membership in a list that is written out. *)
Ltac not_in_list :=
  let H := fresh in
  intros H; repeat (apply elem_of_cons in H as [H|H]; [discriminate H|]);
  by apply elem_of_nil in H.

(** X1, at the cached source: the loader returns, and the source has its
    pose file and its four artifacts. *)
Lemma load_single_features_reads_every_artifact :
  load_single_features (instance 2) cached_store [pv] None = Ok loaded4
  ∧ artifacts_on_disk (instance 2) cached_store pv.
Proof.
  assert (load_single_features (instance 2) cached_store [pv] None = Ok loaded4)
    as Hload by (vm_compute; reflexivity).
  split; [done|].
  destruct (load_single_features_needs_every_artifact _ _ _ _ _ Hload) as [_ Hall].
  apply Hall. apply list_elem_of_here.
Defined.

(** X2, at the cached source under a cap of two poses per ligand: of the
    three poses of [A], two are returned. *)
Lemma load_single_features_counts_at_cap_two :
  load_single_features (instance 2) cached_store [pv] None = Ok loaded4
  ∧ Z.of_nat (count_eq (l_names loaded4) "A") = 2%Z
  ∧ kept_count (instance 2) None (stored_names (instance 2) cached_store pv) "A" = 2%Z.
Proof.
  assert (load_single_features (instance 2) cached_store [pv] None = Ok loaded4)
    as Hload by (vm_compute; reflexivity).
  pose proof (load_single_features_counts_per_name _ _ _ _ _ "A" Hload) as H.
  split; [done|]. split; [rewrite H|]; vm_compute; reflexivity.
Defined.

(** X3, at the cached source under the filter [B]. *)
Lemma load_single_features_filter_example :
  load_single_features (instance 2) cached_store [pv] (Some ["B"]) = Ok loaded_B
  ∧ Forall (λ n, n ∈ ["B"]) (l_names loaded_B).
Proof.
  assert (load_single_features (instance 2) cached_store [pv] (Some ["B"]) = Ok loaded_B)
    as Hload by (vm_compute; reflexivity).
  split; [done|].
  exact (proj1 (load_single_features_respects_filter _ _ _ _ _ Hload)).
Defined.

(** X4, at the cached source: every retained position is within the
    arrays, and the loader returns. *)
Lemma load_single_features_within_bounds :
  ∃ src,
    read_source (instance 2) cached_store pv = Ok src
    ∧ Forall (λ i, (i < shortest src)%nat) (keep_indices (instance 2) (s_names src) None)
    ∧ is_ok (load_single_features (instance 2) cached_store [pv] None) = true.
Proof.
  destruct (read_source (instance 2) cached_store pv) as [src|e] eqn:Hsrc;
    [|vm_compute in Hsrc; discriminate Hsrc].
  exists src. split; [done|].
  assert (Forall (λ i, (i < shortest src)%nat) (keep_indices (instance 2) (s_names src) None))
    as Hbound.
  { pose proof Hsrc as Hsrc'. vm_compute in Hsrc'. injection Hsrc' as <-.
    vm_compute. repeat constructor. }
  split; [done|].
  exact (proj1 (load_single_features_index_bounds _ _ None _ _ Hsrc) Hbound).
Defined.

(** X5, at a store whose fingerprint table lacks the row of the fifth
    pose. *)
Lemma load_single_features_short_table :
  ∃ src,
    read_source (instance 10) short_table_store pv = Ok src
    ∧ 4%nat ∈ keep_indices (instance 10) (s_names src) None
    ∧ load_single_features (instance 10) short_table_store [pv] None = Raise IndexError.
Proof.
  destruct (read_source (instance 10) short_table_store pv) as [src|e] eqn:Hsrc;
    [|vm_compute in Hsrc; discriminate Hsrc].
  exists src. split; [done|].
  assert (4%nat ∈ keep_indices (instance 10) (s_names src) None) as Hin.
  { pose proof Hsrc as Hsrc'. vm_compute in Hsrc'. injection Hsrc' as <-.
    vm_compute. in_list. }
  split; [done|].
  apply (load_single_features_needs_fingerprint_rows (instance 10) short_table_store None pv
           src (take 4 table5) "/r/docking/A-to-X_ifp_rd1.csv" 4 Hsrc);
    [vm_compute; reflexivity | vm_compute; reflexivity | exact Hin |].
  vm_compute. repeat constructor.
Defined.

(** X6, at the source of the examples. *)
Lemma path_of_artifacts_example :
  path_pv (instance 2) "rmsd" pv = Ok "/r/docking/A-to-X_rmsd.npy"
  ∧ path_pv (instance 2) "ifp" pv = Ok "/r/docking/A-to-X_ifp_rd1.csv".
Proof.
  pose proof (path_of_artifacts_beside_source (instance 2) "/r/docking/A-to-X"
                eq_refl eq_refl) as H.
  cbv zeta in H. destruct H as (Hr & _ & _ & Hi & _).
  split; [exact Hr | exact Hi].
Defined.

(** X7, at a source named [poses.sdf] that exists: nothing is extracted. *)
Lemma plain_source_is_never_extracted :
  ∃ evs,
    compute_single_features tenths id obrms_fails fingerprints (instance 2)
      (Flat [plain_pv]) natives plain_world
    = ({| fs := fs plain_world; trace := (trace plain_world ++ evs)%list |}, Ok tt)
    ∧ Forall (λ e, is_call e = false) evs.
Proof.
  refine (proj2 (sources_without_suffix_are_never_extracted tenths id obrms_fails fingerprints
                   (instance 2) (Flat [plain_pv]) natives [plain_pv] plain_world _ _ _));
    [reflexivity | reflexivity |].
  constructor; [|constructor].
  split; [vm_compute; reflexivity | vm_compute; eexists; reflexivity].
Defined.

(** X8, for the names of the source of the examples. *)
Lemma name_step_runs_once :
  ∃ w',
    unless_cached (instance 10) "name" pv (compute_name (instance 10)) fresh_world
    = (w', Ok tt)
    ∧ is_Some (fs w' !! name_out)
    ∧ unless_cached (instance 10) "name" pv (compute_name (instance 10)) w' = (w', Ok tt).
Proof.
  destruct (unless_cached (instance 10) "name" pv (compute_name (instance 10)) fresh_world)
    as [w' [[]|e]] eqn:Hrun; [|vm_compute in Hrun; discriminate Hrun].
  exists w'. split; [done|].
  apply (cache_steps_are_idempotent tenths obrms_fails (instance 10) "/r/docking/A-to-X"
           natives "name" (compute_name (instance 10)) fresh_world w');
    [reflexivity | vm_compute; reflexivity | right; left; split; reflexivity | exact Hrun].
Defined.

(** X9, at the source of the examples under a cap of two poses. *)
Lemma compute_gscore_under_cap_two :
  compute_gscore tenths (instance 2) pv "/r/docking/A-to-X_gscore.npy" fresh_world
  = ({| fs := <["/r/docking/A-to-X_gscore.npy" := Npy (Arr1 [NFloat 50%Z; NFloat 40%Z])]>
                (fs fresh_world);
        trace := [CallGscore pv "/r/docking/A-to-X_gscore.npy";
                  Saved "/r/docking/A-to-X_gscore.npy" (Arr1 [NFloat 50%Z; NFloat 40%Z])] |},
     Ok tt).
Proof.
  destruct (compute_gscore_saves_scores_in_order tenths (instance 2) pv
              "/r/docking/A-to-X_gscore.npy" fresh_world poses5 [50; 40]%Z) as (H & _);
    [vm_compute; reflexivity | | exact H].
  vm_compute. repeat constructor.
Defined.

(** X10, for a source that is missing. *)
Lemma compute_gscore_missing_source :
  compute_gscore tenths (instance 2) plain_pv "/r/x.npy" fresh_world
  = ({| fs := fs fresh_world; trace := [CallGscore plain_pv "/r/x.npy"] |},
     Raise FileNotFoundError).
Proof.
  destruct (extraction_failure_writes_nothing tenths (instance 2) plain_pv "/r/x.npy"
              fresh_world) as (H & _).
  destruct H as [H _]; [vm_compute; reflexivity|]. exact H.
Defined.

(** X11, at the source of the examples. *)
Lemma names_and_scores_example :
  ∃ names gscores,
    fs (compute_name (instance 2) pv name_out fresh_world).1 !! name_out
    = Some (Npy (ArrS names))
    ∧ fs (compute_gscore tenths (instance 2) pv "/r/docking/A-to-X_gscore.npy"
            fresh_world).1 !! "/r/docking/A-to-X_gscore.npy"
      = Some (Npy (Arr1 gscores))
    ∧ length names = length gscores.
Proof.
  destruct (names_and_scores_have_one_length tenths (instance 2) pv name_out
              "/r/docking/A-to-X_gscore.npy" fresh_world poses5)
    as (names & gscores & Hn & Hg & Hl & _); [vm_compute; reflexivity | |].
  - repeat (constructor; [split; vm_compute; eexists; reflexivity|]). constructor.
  - exists names, gscores. split; [exact Hn|]. split; [exact Hg | exact Hl].
Defined.

(** X12, for the first two structures of the source of the examples. *)
Lemma compute_name_entries_example :
  NoDup ["A_0-to-X"; "A_1-to-X"]
  ∧ keep_indices (instance 2) ["A_0-to-X"; "A_1-to-X"] None = [0; 1]%nat.
Proof.
  destruct (compute_name_entries_are_distinct (instance 2) "X" poses5
              ["A_0-to-X"; "A_1-to-X"]) as [Hd Hk]; [vm_compute; reflexivity|].
  split; [exact Hd|]. apply Hk. simpl. lia.
Defined.

(** X13, for a reference stored under the whole file name. *)
Lemma hyphenated_reference_example :
  compute_rmsd tenths obrms_lines (instance 2) pv (<["A-to-X" := "/r/x.sdf"]> natives)
    rmsd_out before_rmsd
  = compute_rmsd tenths obrms_lines (instance 2) pv natives rmsd_out before_rmsd.
Proof.
  refine (proj2 (compute_rmsd_never_uses_hyphenated_reference tenths obrms_lines (instance 2)
                   pv natives rmsd_out "A-to-X" "/r/x.sdf" before_rmsd _)).
  left. vm_compute. reflexivity.
Defined.

(** X14, for the two ligands and the shape matrix of the examples. *)
Lemma get_view_pair_blocks_example :
  ∃ data d,
    get_view viewer ["A"; "B"] ["shape"] = Ok data
    ∧ data !! "shape" = Some d
    ∧ by_ligand d = ∅
    ∧ is_Some (by_pair d !! ("A", "B")).
Proof.
  destruct (get_view viewer ["A"; "B"] ["shape"]) as [data|e] eqn:Hview;
    [|vm_compute in Hview; discriminate Hview].
  destruct (get_view_pair_blocks viewer ["A"; "B"] ["shape"] data "shape" Hview)
    as (d & Hd & Hl & Hp & _); [in_list|].
  exists data, d. split; [done|]. split; [done|]. split; [done|].
  apply Hp. exists 0%nat, 1%nat. split; [lia|]. split; reflexivity.
Defined.

(** X15, without ligands. *)
Lemma get_view_without_ligands :
  get_view viewer [] ["shape"]
  = Ok (<["shape" := empty_dict]> (<["rmsd" := empty_dict]> (<["gscore" := empty_dict]> ∅))).
Proof.
  pose proof (get_view_with_few_ligands viewer [] ["shape"]) as H.
  cbv zeta in H. destruct H as (_ & H & _). exact (H eq_refl).
Defined.

(** An array file directly under the root of the examples. *)
Ltac listed :=
  let try_name name := (exists name; split; reflexivity) in
  first [try_name "gscore1" | try_name "saltbridge" | try_name "shape" | try_name "contact"
        | try_name "mcss" | try_name "name1" | try_name "rmsd1" | try_name "hbond"].

(** X16, at the whole feature store of the examples. *)
Lemma load_features_example :
  ∃ self',
    load_features listing full_store (instance 2) = (self', Ok tt)
    ∧ raw self' !! "name1" = Some (ArrS ["A"; "A"; "B"; "B"])
    ∧ root self' = "/r".
Proof.
  destruct (load_features listing full_store (instance 2)) as [self' [[]|e]] eqn:Hrun;
    [|vm_compute in Hrun; discriminate Hrun].
  destruct (load_features_loads_listed_arrays listing full_store (instance 2) self')
    as (Hin & _ & Hroot & _); [| exact Hrun |].
  - vm_compute. repeat (constructor; [listed|]). constructor.
  - exists self'. split; [done|]. split; [|exact Hroot].
    destruct (Hin "name1") as (a & Ha & Hraw); [vm_compute; in_list|].
    vm_compute in Ha. injection Ha as <-. exact Hraw.
Defined.


(** X17, for the cached source compared with itself. *)
Lemma compute_pair_features_example :
  ∃ w' c1 evs,
    compute_pair_features tanimoto tanimoto_mp overlay overlay overlay_mp (instance 2)
      [pv] None true true true 1 cached_world = (w', Ok tt)
    ∧ load_single_features (instance 2) (fs cached_world) [pv] None = Ok c1
    ∧ trace w' = (merged_events (instance 2) "1" c1 ++ evs)%list
    ∧ Forall (pair_event tanimoto tanimoto_mp overlay overlay overlay_mp (instance 2) 1 c1 c1)
             evs.
Proof.
  destruct (compute_pair_features tanimoto tanimoto_mp overlay overlay overlay_mp (instance 2)
              [pv] None true true true 1 cached_world) as [w' [[]|e]] eqn:Hrun;
    [|vm_compute in Hrun; discriminate Hrun].
  destruct (compute_pair_features_saves_provider_matrices _ _ _ _ _ _ _ _ _ _ _ _ _ _ Hrun)
    as (c1 & c2 & evs & Hload & Hsame & _ & Htrace & Hevs & _).
  rewrite (Hsame eq_refl) in Hevs.
  exists w', c1, evs. split; [done|]. split; [exact Hload|]. split; [exact Htrace | exact Hevs].
Defined.

(** X18, for an empty list of sources. *)
Lemma compute_pair_features_without_sources :
  compute_pair_features tanimoto tanimoto_mp overlay overlay overlay_mp (instance 2)
    [] None true true true 1 cached_world = (cached_world, Raise ValueError).
Proof.
  refine (proj1 (compute_pair_features_stops_at_loader_failure tanimoto tanimoto_mp overlay
                   overlay overlay_mp (instance 2) [] None true true true 1%Z cached_world
                   ValueError _)).
  reflexivity.
Defined.

(** X19, for the cached source: the arrays saved are loaded back and
    viewed. *)
Lemma pair_features_pipeline_example :
  ∃ w' self',
    compute_pair_features tanimoto tanimoto_mp overlay overlay overlay_mp (instance 2)
      [pv] None true true true 1 cached_world = (w', Ok tt)
    ∧ load_features listing (fs w') (instance 2) = (self', Ok tt)
    ∧ raw self' !! "name1" = Some (ArrS (l_names loaded4))
    ∧ is_ok (get_view self' ["A"; "B"] []) = true.
Proof.
  destruct (compute_pair_features tanimoto tanimoto_mp overlay overlay overlay_mp (instance 2)
              [pv] None true true true 1 cached_world) as [w' [[]|e]] eqn:Hrun;
    [|vm_compute in Hrun; discriminate Hrun].
  destruct (load_features listing (fs w') (instance 2)) as [self' [[]|e]] eqn:Hload;
    [|pose proof Hrun as Hrun'; vm_compute in Hrun'; injection Hrun' as <-;
      vm_compute in Hload; discriminate Hload].
  assert (listing (fs w') (root (instance 2) ++ "/*.npy")
          = ["/r/gscore1.npy"; "/r/saltbridge.npy"; "/r/shape.npy"; "/r/contact.npy";
             "/r/mcss.npy"; "/r/name1.npy"; "/r/rmsd1.npy"; "/r/hbond.npy"]) as Hlist.
  { pose proof Hrun as Hrun'. vm_compute in Hrun'. injection Hrun' as <-.
    vm_compute. reflexivity. }
  destruct (pair_features_can_be_loaded_and_viewed tanimoto tanimoto_mp overlay overlay
              overlay_mp listing (instance 2) [pv] None true true true 1%Z cached_world w' self'
              Hrun) as (c1 & Hc1 & _ & _ & Hnames & Hview); [| | | exact Hload |].
  - repeat (constructor; [not_in_list|]). constructor.
  - rewrite Hlist. vm_compute. repeat (constructor; [listed|]). constructor.
  - intros name Hname. rewrite Hlist.
    repeat (apply elem_of_cons in Hname as [->|Hname]; [vm_compute; in_list|]).
    by apply elem_of_nil in Hname.
  - assert (c1 = loaded4) as -> by (vm_compute in Hc1; by injection Hc1 as <-).
    exists w', self'. split; [done|]. split; [done|]. split; [exact Hnames|].
    apply Hview. repeat (constructor; [vm_compute; in_list|]). constructor.
Defined.

(** X20, for the environment of the examples. *)
Lemma default_instance_example :
  ∃ self,
    init (float:=Z) id environ "/r" "rd1" "pharm_max" "mcss16" 10 None ["hbond"] = Ok self
    ∧ path self "rmsd" false (Some pv) None = Ok rmsd_out
    ∧ path self "hbond" false None None = Ok "/r/hbond.npy".
Proof.
  pose proof (default_instance_resolves_every_path (float:=Z) id environ "/r" "rd1"
                "pharm_max" "mcss16" 10 None ["hbond"]) as H.
  change (environ !! "COMBINDHOME") with (Some "/opt/combind") in H.
  destruct H as (self & Hinit & Hroot & _ & _ & _ & _ & Hdef).
  destruct (Hdef eq_refl) as (_ & Hsrc & Hother & _).
  exists self. split; [done|]. split.
  - rewrite Hsrc by in_list. vm_compute. reflexivity.
  - rewrite Hother by not_in_list. rewrite Hroot. reflexivity.
Defined.

(** X21, on an instance of the version [rd2]. *)
Lemma compute_ifp_other_version :
  compute_ifp fingerprints instance_rd2 pv "/r/docking/A-to-X_ifp_rd2.csv" fresh_world
  = ({| fs := fs fresh_world;
        trace := [CallIfp pv "/r/docking/A-to-X_ifp_rd2.csv"] |}, Raise KeyError).
Proof.
  destruct (compute_ifp_knows_rd1_only fingerprints instance_rd2 pv
              "/r/docking/A-to-X_ifp_rd2.csv" fresh_world) as [_ H].
  apply H. simpl. discriminate.
Defined.

(** X22, for a tool that prints two lines. *)
Lemma compute_rmsd_two_lines :
  compute_rmsd tenths obrms_lines (instance 2) pv natives rmsd_out before_rmsd
  = ({| fs := <[rmsd_out := Npy (Arr1 [NFloat 12%Z; NFloat 25%Z])]> (fs before_rmsd);
        trace := [CallRmsd pv rmsd_out; Printed "A";
                  Saved rmsd_out (Arr1 [NFloat 12%Z; NFloat 25%Z])] |}, Ok tt).
Proof.
  destruct (compute_rmsd_saves_one_value_per_line tenths obrms_lines (instance 2) pv natives
              rmsd_out before_rmsd "/r/structures/A_lig.sdf" "" nl rmsd_lines [12; 25]%Z)
    as [H _]; [vm_compute; reflexivity | reflexivity | reflexivity | reflexivity
              | discriminate | | | exact H].
  - repeat (constructor; [split; [split; [discriminate | vm_compute; reflexivity]
                                 | vm_compute; reflexivity]|]). constructor.
  - constructor; [exists "1.2"; split; vm_compute; reflexivity|].
    constructor; [exists "2.5"; split; vm_compute; reflexivity|]. constructor.
Defined.

End AtExamples.

End FeaturesProps.

Module DockProps.
Import PyStr Py PyFacts StrFacts Dock.

(** ** Checking a docking line *)
Section Checks.
Implicit Types (w : Dock.world).

Lemma world_eta w : {| fs := fs w; trace := trace w |} = w.
Proof. by destruct w. Qed.



Lemma contains_with_newline (p infile : string) :
  not_ending "010" p → contains p (with_newline infile) = contains p infile.
Proof.
  intros Hp. unfold with_newline. destruct (endswith nl infile); [done|].
  by apply contains_snoc_ne.
Qed.

Lemma check_dock_line_run infile w :
  check_dock_line infile w
  = if placeholders infile
    then ({| fs := fs w;
             trace := (trace w ++ if contains "{exh}" infile then []
                                  else [Printed exh_warning])%list |},
          Ok (with_newline infile))
    else (w, Raise AssertionError).
Proof.
  unfold check_dock_line, placeholders. fold (with_newline infile).
  rewrite !contains_with_newline by (by apply not_ending_by_endswith).
  destruct (contains "{lig}" infile); cbn [andb assert]; [|done].
  destruct (contains "{out}" infile); cbn [andb]; [|done].
  destruct (contains "{log}" infile); cbn [andb]; [|done].
  destruct (contains "{exh}" infile); cbn.
  - by rewrite app_nil_r, world_eta.
  - done.
Qed.

(** X23.  [check_dock_line] accepts a docking line exactly when it holds the
    three placeholders [{lig}], [{out}] and [{log}], and fails its assertion
    otherwise, leaving the world as it is.  An accepted line is returned with
    a line feed at its end (added when it was missing), a warning is printed
    exactly when [{exh}] is missing, no file is touched, and checking the
    returned line again returns it unchanged. *)
Theorem check_dock_line_accepts_lines_with_placeholders infile w :
  (placeholders infile = true →
     check_dock_line infile w
     = ({| fs := fs w;
           trace := (trace w ++ if contains "{exh}" infile then []
                                else [Printed exh_warning])%list |},
        Ok (with_newline infile))
     ∧ endswith nl (with_newline infile) = true
     ∧ (with_newline infile = infile ∨ with_newline infile = infile ++ nl)
     ∧ (check_dock_line (with_newline infile) w).2 = Ok (with_newline infile))
  ∧ (placeholders infile = false →
     check_dock_line infile w = (w, Raise AssertionError)).
Proof.
  split; intros Hp.
  - assert (endswith nl (with_newline infile) = true) as Hend.
    { unfold with_newline. destruct (endswith nl infile) eqn:E; [done|].
      apply endswith_app. }
    split; [by rewrite check_dock_line_run, Hp|]. split; [done|]. split.
    + unfold with_newline. destruct (endswith nl infile); [by left | by right].
    + rewrite check_dock_line_run.
      assert (placeholders (with_newline infile) = true) as ->.
      { unfold placeholders in *.
        by rewrite !contains_with_newline by (by apply not_ending_by_endswith). }
      cbn [snd]. f_equal. unfold with_newline at 1. by rewrite Hend.
  - by rewrite check_dock_line_run, Hp.
Qed.

End Checks.

(** ** Writing the command file *)
Section Writes.
Implicit Types (w : Dock.world) (item : string * (string * string)).

Lemma docking_failed_run gnina_log w :
  fs w !! gnina_log ≠ Some Dir →
  docking_failed gnina_log w = (w, Ok false).
Proof.
  intros Hdir. unfold docking_failed. erewrite run_bind by reflexivity.
  case_bool_decide as Hsome; cbn [negb]; [|done].
  destruct Hsome as [node E]. unfold read_text, mbind, M_bind. rewrite E.
  destruct node; [done | congruence].
Qed.

Lemma dock_turn_without_check dock_line recname gnina_in exh item w w' t :
  dock_turn dock_line recname gnina_in exh true item w = (w', Ok t) →
  dock_turn dock_line recname gnina_in exh false item w = (w', Ok t).
Proof.
  destruct item as [lig [r n]]. unfold dock_turn.
  rewrite DockSpec.format_outfile.
  erewrite !run_bind by reflexivity.
  destruct (bool_decide (is_Some (fs w !! outfile))); [done|].
  intros H. apply run_bind_inv in H as (w1 & failed & Hfailed & H).
  apply DockSpec.docking_failed_never in Hfailed as [-> ->].
  erewrite run_bind by reflexivity. exact H.
Qed.

Lemma dock_loop_without_check dock_line recname gnina_in exh items w w' t :
  dock_loop dock_line recname gnina_in exh true items w = (w', Ok t) →
  dock_loop dock_line recname gnina_in exh false items w = (w', Ok t).
Proof.
  revert w. induction items as [|item items IH]; intros w; [done|].
  cbn [dock_loop]. intros H.
  apply run_bind_inv in H as (w1 & t1 & Hturn & H).
  apply dock_turn_without_check in Hturn.
  erewrite run_bind by exact Hturn.
  destruct t1; [by apply IH | exact H].
Qed.

(** X24.  [docking_failed] never reports a failure: whenever it returns it
    returns [False] and leaves the world as it is (its list of failure
    phrases is empty), and for a log that does not exist it returns without
    reading.  So the check of the enhanced mode never ends the loop of
    [dock]: whenever the loop completes with the check, the loop run without
    it, on the same docking line and with the same exhaustiveness, ends in
    the same world with the same outcome. *)
Theorem docking_failed_never_skips gnina_log w :
  (fs w !! gnina_log = None → docking_failed gnina_log w = (w, Ok false))
  ∧ (∀ w' (b : bool), docking_failed gnina_log w = (w', Ok b) → b = false ∧ w' = w)
  ∧ (∀ dock_line recname gnina_in exh items w' t,
       dock_loop dock_line recname gnina_in exh true items w = (w', Ok t) →
       dock_loop dock_line recname gnina_in exh false items w = (w', Ok t)).
Proof.
  split; [|split].
  - intros Hnone. apply docking_failed_run. by rewrite Hnone.
  - intros w' b. apply DockSpec.docking_failed_never.
  - intros dock_line recname gnina_in exh items w' t. apply dock_loop_without_check.
Qed.

Lemma format_default_dock_line dock_template recname exh slurm lig n :
  brace_free dock_template →
  (slurm = true → contains ">" dock_template = false) →
  format (default_dock_line dock_template slurm)
         [("lig", lig); ("out", docked_path n); ("exh", str_of_Z exh);
          ("log", gnina_log_of recname n)]
  = Some (command_of dock_template recname exh slurm (lig, ("", n))).
Proof.
  intros [Ho Hc] Hgt. unfold default_dock_line, format, command_of, gnina_command.
  destruct slurm.
  - unfold replace. cbn [String.append].
    change (replace_go ">" "--cpu 1 >" 0 (dock_template ++ GNINA))
      with (replace_go (String ">" "") "--cpu 1 >" 0 (dock_template ++ GNINA)).
    rewrite replace_go_char_free by (by apply Hgt).
    rewrite format_go_brace_free by done. reflexivity.
  - rewrite format_go_brace_free by done. reflexivity.
Qed.

Lemma written_app (a b : list string) : written (a ++ b) = written a ++ written b.
Proof.
  induction a as [|x a IH]; [done|]. cbn [app written foldr].
  fold (written (a ++ b)). fold (written a). by rewrite IH, string_app_assoc.
Qed.



Lemma dock_turn_run dock_line recname gnina_in exh enhanced lig r n w line :
  fs w !! outfile = None →
  (enhanced = true → fs w !! gnina_log_of recname n ≠ Some Dir) →
  format dock_line [("lig", lig); ("out", docked_path n); ("exh", str_of_Z exh);
                    ("log", gnina_log_of recname n)] = Some line →
  dock_turn dock_line recname gnina_in exh enhanced (lig, (r, n)) w
  = (if bool_decide (is_Some (fs w !! r))
     then {| fs := alter (appended line) gnina_in (fs w); trace := trace w |}
     else {| fs := alter (appended line) gnina_in (<[r := Dir]> (fs w));
             trace := (trace w ++ [System ("mkdir " ++ r)])%list |},
     Ok Continue).
Proof.
  intros Hout Hlog Hfmt. unfold dock_turn.
  rewrite DockSpec.format_outfile. erewrite run_bind by reflexivity.
  cbv beta zeta. fold (gnina_log_of recname n). rewrite Hfmt.
  erewrite run_bind by reflexivity.
  rewrite bool_decide_eq_false_2 by (rewrite Hout; by intros [? ?]).
  erewrite run_bind.
  2:{ destruct enhanced; [by apply docking_failed_run, Hlog | reflexivity]. }
  rewrite andb_false_r.
  erewrite run_bind by reflexivity.
  destruct (bool_decide (is_Some (fs w !! r))); reflexivity.
Qed.

Lemma dock_turn_appends dock_line recname gnina_in exh enhanced lig r n w line :
  fs w !! outfile = None →
  (enhanced = true → fs w !! gnina_log_of recname n ≠ Some Dir) →
  is_Some (fs w !! r) →
  format dock_line [("lig", lig); ("out", docked_path n); ("exh", str_of_Z exh);
                    ("log", gnina_log_of recname n)] = Some line →
  dock_turn dock_line recname gnina_in exh enhanced (lig, (r, n)) w
  = ({| fs := alter (appended line) gnina_in (fs w); trace := trace w |}, Ok Continue).
Proof.
  intros Hout Hdir Hroot Hfmt.
  rewrite (dock_turn_run dock_line recname gnina_in exh enhanced lig r n w line Hout Hdir Hfmt).
  by rewrite bool_decide_eq_true_2.
Qed.

(** With every root in place, the loop only appends to the command file. *)
Lemma dock_loop_appends dock_line recname gnina_in exh enhanced
    (line_of : string * (string * string) → string) items :
  (∀ lig r n,
     format dock_line [("lig", lig); ("out", docked_path n); ("exh", str_of_Z exh);
                       ("log", gnina_log_of recname n)] = Some (line_of (lig, (r, n)))) →
  ∀ w c,
    fs w !! outfile = None →
    Forall (λ item, is_Some (fs w !! item.2.1)) items →
    (enhanced = true →
       Forall (λ item, fs w !! gnina_log_of recname item.2.2 ≠ Some Dir) items) →
    fs w !! gnina_in = Some (File c) →
    dock_loop dock_line recname gnina_in exh enhanced items w
    = ({| fs := <[gnina_in := File (c ++ written (line_of <$> items))]> (fs w);
          trace := trace w |}, Ok Continue).
Proof.
  intros Hfmt. induction items as [|[lig [r n]] items IH]; intros w c Hout Hroots Hlogs Hin.
  - cbn [dock_loop fmap list_fmap written foldr]. rewrite string_app_nil_r.
    rewrite insert_id by done. by rewrite world_eta.
  - apply Forall_cons in Hroots as [Hr Hroots]. cbn [fst snd] in Hr.
    cbn [dock_loop].
    erewrite run_bind.
    2:{ apply (dock_turn_appends _ _ _ _ _ _ _ _ _ (line_of (lig, (r, n)))); [done | | done | apply Hfmt].
        intros He. specialize (Hlogs He). by apply Forall_cons in Hlogs as [Hl _]. }
    assert (outfile ≠ gnina_in) as Hne by (intros E; rewrite E in Hout; congruence).
    rewrite (IH _ (c ++ line_of (lig, (r, n)))).
    + cbn [fs trace fmap list_fmap written foldr]. fold (written (line_of <$> items)).
      rewrite string_app_assoc. f_equal. f_equal.
      apply map_eq. intros p. destruct (decide (p = gnina_in)) as [->|Hp].
      * by rewrite !lookup_insert_eq.
      * by rewrite !lookup_insert_ne, lookup_alter_ne.
    + cbn [fs]. by rewrite lookup_alter_ne.
    + cbn [fs]. eapply Forall_impl; [exact Hroots|]. intros item Hitem. cbn beta.
      destruct (decide (item.2.1 = gnina_in)) as [->|Hp].
      * rewrite lookup_alter_eq, Hin. by eexists.
      * by rewrite lookup_alter_ne.
    + intros He. specialize (Hlogs He). apply Forall_cons in Hlogs as [_ Hlogs].
      cbn [fs]. eapply Forall_impl; [exact Hlogs|]. intros item Hitem. cbn beta.
      destruct (decide (gnina_log_of recname item.2.2 = gnina_in)) as [->|Hp].
      * by rewrite lookup_alter_eq, Hin.
      * by rewrite lookup_alter_ne.
    + cbn [fs]. by rewrite lookup_alter_eq, Hin.
Qed.

Lemma gnina_in_not_outfile (recname : string) :
  recname ++ "_docking_file.txt" ≠ outfile.
Proof.
  intros E. apply (f_equal (endswith ".txt")) in E.
  rewrite endswith_app_r in E by reflexivity. discriminate E.
Qed.

Lemma open_w_run p w :
  fs w !! p ≠ Some Dir →
  open_w p w = ({| fs := <[p := File ""]> (fs w); trace := trace w |}, Ok tt).
Proof.
  intros Hdir. unfold open_w. by destruct (fs w !! p) as [[content|]|].
Qed.

(** X25.  With the default docking line, a template of plain text whose
    first line has no braces (and no [>] when [slurm] is set), no path named
    like the output template, every root directory in place and, in the
    enhanced mode, every log that exists a file of plain text, [dock]
    leaves in the command file one command per [(lig, _r, n)] of
    [zip(ligands, root, name)], in order and nothing else: entries beyond
    the shortest of the three lists get no command.  The exhaustiveness is
    16 in the enhanced mode and 8 otherwise.  No other path changes and no
    [mkdir] is run.  Then [run_gnina_docking] is called when [now] is set,
    [setup_slurm] when only [slurm] is: the world given is the one they are
    called in, what they do to it is outside the model. *)
Theorem dock_writes_one_command_per_ligand
    (template : string) (ligands root name : list string) (enhanced : bool)
    (reference : option string) (slurm now : bool) w (text first : string) :
  let dock_template := strip_nl first in
  let recname := splitext_root (basename (option_value "-r" dock_template)) in
  let gnina_in := recname ++ "_docking_file.txt" in
  let exh := (if enhanced then 16 else 8)%Z in
  let items := zip ligands (zip root name) in
  fs w !! template = Some (File text) →
  plain_text text = true →
  head (readlines text) = Some first →
  brace_free dock_template →
  (slurm = true → contains ">" dock_template = false) →
  fs w !! gnina_in ≠ Some Dir →
  fs w !! outfile = None →
  Forall (λ item, is_Some (fs w !! item.2.1)) items →
  (enhanced = true →
     Forall (λ item, plain_log (fs w !! gnina_log_of recname item.2.2)) items) →
  dock template ligands root name enhanced None reference slurm now w
  = ({| fs := <[gnina_in :=
                  File (written (command_of dock_template recname exh slurm <$> items))]>
                (fs w);
        trace := (trace w ++
                  if now then [RunGninaDocking gnina_in]
                  else if slurm
                       then [SetupSlurm gnina_in ligands (option_value "-r" dock_template)
                                        (option_value "--autobox_ligand" dock_template)]
                       else [])%list |}, Ok tt).
Proof.
  intros dock_template recname gnina_in exh items
         Htemplate _ Hfirst Hbraces Hgt Hdir Hout Hroots Hlogs.
  set (w1 := {| fs := <[gnina_in := File ""]> (fs w); trace := trace w |}).
  assert (∀ p, p ≠ gnina_in → fs w1 !! p = fs w !! p) as Hw1.
  { intros p Hp. cbn. by rewrite lookup_insert_ne. }
  assert (dock_loop (default_dock_line dock_template slurm) recname gnina_in exh enhanced
            items w1
          = ({| fs := <[gnina_in := File ("" ++ written
                          (command_of dock_template recname exh slurm <$> items))]> (fs w1);
                trace := trace w1 |}, Ok Continue)) as Hloop.
  { apply dock_loop_appends.
    - intros lig r n. by apply format_default_dock_line.
    - rewrite Hw1; [done|]. intros E. by apply (gnina_in_not_outfile recname).
    - eapply Forall_impl; [exact Hroots|]. intros item Hitem. cbn beta.
      destruct (decide (item.2.1 = gnina_in)) as [->|Hp].
      + cbn. rewrite lookup_insert_eq. by eexists.
      + by rewrite Hw1.
    - intros He. eapply Forall_impl; [exact (Hlogs He)|]. intros item Hitem. cbn beta.
      destruct (decide (gnina_log_of recname item.2.2 = gnina_in)) as [->|Hp].
      + cbn. by rewrite lookup_insert_eq.
      + rewrite Hw1 by done. intros E. cbn beta in Hitem. by rewrite E in Hitem.
    - cbn. by rewrite lookup_insert_eq. }
  unfold dock. erewrite run_bind by reflexivity. cbv beta zeta.
  erewrite run_bind by (unfold read_text; rewrite Htemplate; reflexivity).
  erewrite run_bind by (unfold lift; rewrite Hfirst; reflexivity).
  erewrite run_bind by (by apply open_w_run).
  erewrite run_bind by exact Hloop.
  cbn [fs trace w1]. rewrite insert_insert_eq.
  change ("" ++ written (command_of dock_template recname exh slurm <$> items))
    with (written (command_of dock_template recname exh slurm <$> items)).
  destruct now, slurm; cbn; rewrite ?app_nil_r; reflexivity.
Qed.

(** X26.  [dock] raises before it creates the command file when the docking
    line given lacks a placeholder, or when the template cannot be read as a
    file or holds no line: the files are as they were. *)
Theorem dock_raises_before_writing
    (template : string) (ligands root name : list string) (enhanced : bool)
    (infile reference : option string) (slurm now : bool) w :
  (∃ line, infile = Some line ∧ placeholders line = false)
  ∨ match fs w !! template with
    | Some (File text) => text = ""
    | _ => True
    end →
  fs (dock template ligands root name enhanced infile reference slurm now w).1 = fs w
  ∧ is_ok (dock template ligands root name enhanced infile reference slurm now w).2 = false.
Proof.
  intros Hbad. unfold dock.
  destruct (match infile with None => mret GNINA | Some line => check_dock_line line end w)
    as [w1 [line'|e]] eqn:Hinfile.
  - assert (fs w1 = fs w) as Hfs.
    { destruct infile as [line|];
        [|change ((w, Ok GNINA) = (w1, Ok line')) in Hinfile; by simplify_eq].
      rewrite check_dock_line_run in Hinfile.
      destruct (placeholders line); [|discriminate]. by simplify_eq. }
    assert (match fs w1 !! template with Some (File text) => text = "" | _ => True end)
      as Htemplate.
    { rewrite Hfs. destruct Hbad as [(line & -> & Hline)|]; [|done]. exfalso.
      rewrite check_dock_line_run, Hline in Hinfile. discriminate. }
    erewrite run_bind by exact Hinfile. cbv beta zeta.
    destruct (fs w1 !! template) as [[text|]|] eqn:Ht.
    + subst text. erewrite run_bind by (unfold read_text; rewrite Ht; reflexivity).
      erewrite run_bind_raise by reflexivity. by split.
    + erewrite run_bind_raise by (unfold read_text; rewrite Ht; reflexivity). by split.
    + erewrite run_bind_raise by (unfold read_text; rewrite Ht; reflexivity). by split.
  - erewrite run_bind_raise by exact Hinfile.
    assert (w1 = w) as ->; [|done].
    destruct infile as [line|]; [|discriminate].
    rewrite check_dock_line_run in Hinfile.
    destruct (placeholders line); [discriminate|]. by simplify_eq.
Qed.

End Writes.

(** ** Reading a command back *)
Section Commands.

Lemma lstrip_fixed_head (s : string) :
  lstrip isspace s = s → s = "" ∨ ∃ c t, s = String c t ∧ isspace c = false.
Proof.
  destruct s as [|c t]; [by left|]. intros Hs. right. exists c, t. split; [done|].
  destruct (isspace c) eqn:Hc; [|done]. exfalso.
  cbn [lstrip] in Hs. rewrite Hc in Hs. apply (f_equal String.length) in Hs.
  pose proof (lstrip_length isspace t). cbn in Hs. lia.
Qed.

Lemma gnina_log_trimmed (recname n : string) :
  lstrip isspace recname = recname → trimmed (gnina_log_of recname n).
Proof.
  intros Hrec. unfold gnina_log_of.
  assert (recname ++ "_" ++ n ++ ".log" = (recname ++ "_" ++ n ++ ".lo") ++ "g") as Hlast
    by (by rewrite !string_app_assoc).
  destruct (lstrip_fixed_head recname Hrec) as [-> | (c & t & -> & Hc)].
  - split; [done|]. eapply (strip_fixed_intro _ (n ++ ".log") _ "_" "g"); [done|done|exact Hlast|done].
  - split; [done|].
    eapply (strip_fixed_intro _ (t ++ "_" ++ n ++ ".log") _ c "g"); [done|done|exact Hlast|done].
Qed.

Lemma gnina_command_parts (dock_template lig out log : string) (exh : Z) (slurm : bool) :
  gnina_command dock_template lig out log exh slurm
  = gnina_run_of dock_template lig out exh slurm ++ String ">" (" " ++ log ++ " " ++ nl).
Proof.
  unfold gnina_command, gnina_run_of. destruct slurm; by rewrite !string_app_assoc.
Qed.


End Commands.

(** ** The properties at the examples *)

Section AtExamples.
Import Examples.

(** X23, for a docking line without [{exh}] and without a line feed. *)
Lemma check_dock_line_example :
  check_dock_line "-l {lig} -o {out} > {log}" docked_world
  = ({| fs := fs docked_world; trace := [Printed exh_warning] |},
     Ok ("-l {lig} -o {out} > {log}" ++ nl)).
Proof.
  destruct (check_dock_line_accepts_lines_with_placeholders "-l {lig} -o {out} > {log}"
              docked_world) as [H _].
  destruct H as (H & _); [vm_compute; reflexivity|]. exact H.
Defined.

(** X24, for a log that does not exist. *)
Lemma docking_failed_example :
  docking_failed "rec_L1.log" docked_world = (docked_world, Ok false).
Proof.
  destruct (docking_failed_never_skips "rec_L1.log" docked_world) as (H & _ & _).
  apply H. vm_compute. reflexivity.
Defined.

(** X25, for three ligands with two roots and two names, in the enhanced
    mode: two commands are written. *)
Lemma dock_writes_two_commands :
  dock "tmpl.txt" ["a.sdf"; "b.sdf"; "c.sdf"] ["docked"; "docked"] ["L1"; "L2"]
       true None None true false template_world
  = ({| fs := <["rec_docking_file.txt" :=
                 File ("gnina -r structures/rec.pdb --autobox_ligand lig.sdf -l a.sdf"
                       ++ " -o docked/L1-docked.sdf.gz --exhaustiveness 16 --num_modes 200"
                       ++ " --cpu 1 > rec_L1.log " ++ nl
                       ++ "gnina -r structures/rec.pdb --autobox_ligand lig.sdf -l b.sdf"
                       ++ " -o docked/L2-docked.sdf.gz --exhaustiveness 16 --num_modes 200"
                       ++ " --cpu 1 > rec_L2.log " ++ nl)]> (fs template_world);
        trace := [SetupSlurm "rec_docking_file.txt" ["a.sdf"; "b.sdf"; "c.sdf"]
                             "structures/rec.pdb" "lig.sdf"] |}, Ok tt).
Proof.
  pose proof (dock_writes_one_command_per_ligand "tmpl.txt" ["a.sdf"; "b.sdf"; "c.sdf"]
                ["docked"; "docked"] ["L1"; "L2"] true None true false template_world
                template_text template_text) as H.
  cbv zeta in H. etransitivity; [apply H|].
  - vm_compute. reflexivity.
  - vm_compute. reflexivity.
  - vm_compute. reflexivity.
  - split; vm_compute; reflexivity.
  - intros _. vm_compute. reflexivity.
  - intros E. vm_compute in E. discriminate E.
  - vm_compute. reflexivity.
  - repeat (constructor; [vm_compute; eexists; reflexivity|]). constructor.
  - intros _. repeat (constructor; [vm_compute; exact I|]). constructor.
  - vm_compute. reflexivity.
Defined.
(** X26, for a template that does not exist. *)
Lemma dock_without_template :
  fs (dock "none.txt" ["a.sdf"] ["docked"] ["L1"] false None None false false
           docked_world).1 = fs docked_world
  ∧ is_ok (dock "none.txt" ["a.sdf"] ["docked"] ["L1"] false None None false false
                docked_world).2 = false.
Proof.
  apply dock_raises_before_writing. right. vm_compute. exact I.
Defined.


End AtExamples.

End DockProps.
